(** * The Resistance rules engine: Room, HookManager, GameManager

    A shallow embedding of the session state machine ([Room]), of the hook
    pipeline ([HookManager]) and of the session registry ([GameManager]),
    followed by the properties of the specification that were checked
    against them.

    Conventions of the embedding.
    - A JavaScript [Map<string, boolean>] is an insertion-ordered list of
      key/value pairs with distinct keys ([JsMap]).
    - [Date.now()] is an explicit argument [now] of every method that reads
      the clock.
    - A method that can raise a [TypeError] is a computation in the monad
      [Eff]: it returns the room as the method left it together with either
      a value or the exception, so that the state after a throw is visible.
    - Object identity of hook managers is a location in a store.
    - An object literal read by key is the map of its own properties
      together with the members it inherits from [Object.prototype]
      ([js_member]); an object literal written by key is the map of its own
      properties, which the key [__proto__] never joins.

    The sources hold two revisions of [Room.ts] and of [GameManager.ts].
    The embedding follows the current one: the [Room] with activity
    timestamps, player ids and the cumulative-rejections rule, and the
    [GameManager] that gives every room a hook manager of its own. The
    module [EarlierRevision] holds what the earlier one does differently. *)

From stdpp Require Import base option list strings gmap.

Local Open Scope string_scope.
Local Open Scope list_scope.
Local Open Scope nat_scope.

(** ** Completions and the state/exception monad *)

Inductive completion (A : Type) : Type :=
  | Normal (a : A)
  | Throw (e : string).
Arguments Normal {A} a.
Arguments Throw {A} e.

Definition Eff (S A : Type) : Type := S → S * completion A.

Definition eff_ret {S A} (a : A) : Eff S A := λ s, (s, Normal a).

Definition eff_bind {S A B} (c : Eff S A) (k : A → Eff S B) : Eff S B :=
  λ s, match c s with
       | (s', Normal a) => k a s'
       | (s', Throw e) => (s', Throw e)
       end.

Definition eff_get {S} : Eff S S := λ s, (s, Normal s).
Definition eff_modify {S} (f : S → S) : Eff S unit := λ s, (f s, Normal tt).
Definition eff_throw {S A} (e : string) : Eff S A := λ s, (s, Throw e).

(** [try { c } catch (error) { h error }] *)
Definition try_catch {S A} (c : Eff S A) (h : string → Eff S A) : Eff S A :=
  λ s, match c s with
       | (s', Normal a) => (s', Normal a)
       | (s', Throw e) => h e s'
       end.

Declare Scope eff_scope.
Delimit Scope eff_scope with eff.
Notation "'let!' x ':=' c 'in' k" := (eff_bind c (λ x, k))
  (at level 10, x pattern, c at level 100, k at level 200) : eff_scope.
Notation "c ';;' k" := (eff_bind c (λ _, k))
  (at level 100, k at level 200, right associativity) : eff_scope.

Definition is_normal {A} (c : completion A) : bool :=
  match c with Normal _ => true | Throw _ => false end.

(** ** JavaScript maps with string keys *)

Module JsMap.
Section jsmap.
Context {V : Type}.

Definition t : Type := list (string * V).

Definition empty : t := [].

(** [m.set(k, v)]: an existing key keeps its position. *)
Fixpoint set (k : string) (v : V) (m : t) : t :=
  match m with
  | [] => [(k, v)]
  | (k', v') :: m' =>
      if decide (k' = k) then (k', v) :: m' else (k', v') :: set k v m'
  end.

Fixpoint get (k : string) (m : t) : option V :=
  match m with
  | [] => None
  | (k', v') :: m' => if decide (k' = k) then Some v' else get k m'
  end.

Definition has (k : string) (m : t) : bool := bool_decide (is_Some (get k m)).

Definition size (m : t) : nat := length m.

Definition keys (m : t) : list string := m.*1.
End jsmap.
Arguments t : clear implicits.
End JsMap.

(** ** constants.ts *)

Definition MIN_PLAYERS : nat := 1.
Definition MAX_PLAYERS : nat := 20.

Definition MISSION_CONFIG : gmap nat (list nat) :=
  list_to_map
    [ (1, [1; 1; 1; 1; 1]);   (2, [1; 2; 1; 2; 2]);   (3, [2; 2; 2; 2; 2]);
      (4, [2; 2; 2; 3; 3]);   (5, [2; 3; 2; 3; 3]);   (6, [2; 3; 4; 3; 4]);
      (7, [2; 3; 3; 4; 4]);   (8, [3; 4; 4; 5; 5]);   (9, [3; 4; 4; 5; 5]);
      (10, [3; 4; 4; 5; 5]);  (11, [3; 4; 4; 5; 5]);  (12, [3; 4; 4; 5; 5]);
      (13, [3; 4; 5; 6; 6]);  (14, [4; 5; 5; 6; 6]);  (15, [4; 5; 5; 6; 6]);
      (16, [4; 5; 6; 7; 7]);  (17, [5; 6; 6; 7; 7]);  (18, [5; 6; 6; 7; 7]);
      (19, [6; 7; 7; 8; 8]);  (20, [6; 7; 7; 8; 8]) ].

Definition MAX_REJECTIONS : nat := 5.
Definition MISSIONS_TO_SUCCEED : nat := 3.
Definition MISSIONS_TO_FAIL : nat := 3.

(** ** Room.ts: types *)

(** [GamePhase] is a union of string literals; a hook may hand back any
    string ([hookResult.nextPhase as GamePhase]), so the phase is a string. *)
Definition GamePhase : Type := string.

Inductive Role : Type := RESISTANCE | SPY.
Inductive SpecialRole : Type := MERLIN | ASSASSIN.

Global Instance Role_eq_dec : EqDecision Role.
Proof. solve_decision. Defined.
Global Instance SpecialRole_eq_dec : EqDecision SpecialRole.
Proof. solve_decision. Defined.

(** [role?: Role] and [specialRole?: SpecialRole]: [None] stands for both
    [undefined] and [null], which no method tells apart. *)
Record Player : Type := mkPlayer {
  p_id : string;          (* socket.id (changes on reconnect) *)
  playerId : string;      (* permanent UUID for this player *)
  nickname : string;
  role : option Role;
  specialRole : option SpecialRole;
  isLeader : bool;
}.

Global Instance Player_eq_dec : EqDecision Player.
Proof. solve_decision. Defined.

(** A JavaScript number used as an array index: a natural number, or the
    [NaN] that [% 0] produces. *)
Inductive JsIndex : Type := Idx (n : nat) | NaN.

Global Instance JsIndex_eq_dec : EqDecision JsIndex.
Proof. solve_decision. Defined.

(** The fields of [class Room]. The private [missionConfig] is the constant
    [MISSION_CONFIG]; the private [hookManager] is passed to the methods
    that trigger hooks, because its callbacks act on the room. *)
Record Room : Type := mkRoom {
  id : string;
  players : list Player;
  maxPlayers : nat;
  minPlayers : nat;
  expansions : list string;
  createdAt : nat;
  lastActivityAt : nat;
  loopStartAt : option nat;
  phase : GamePhase;
  currentLeaderIndex : JsIndex;
  currentMissionIndex : nat;
  failedMissions : nat;
  succeededMissions : nat;
  missionHistory : list (bool * nat);
  assassinationTarget : option string;
  selectedTeam : list string;
  votes : JsMap.t bool;
  voteRejections : nat;
  missionActions : JsMap.t bool;
}.

(** Field assignments [this.f = v]. *)
Definition set_players (v : list Player) (r : Room) : Room :=
  {| id := id r; players := v; maxPlayers := maxPlayers r;
     minPlayers := minPlayers r; expansions := expansions r;
     createdAt := createdAt r; lastActivityAt := lastActivityAt r;
     loopStartAt := loopStartAt r; phase := phase r;
     currentLeaderIndex := currentLeaderIndex r;
     currentMissionIndex := currentMissionIndex r;
     failedMissions := failedMissions r;
     succeededMissions := succeededMissions r;
     missionHistory := missionHistory r;
     assassinationTarget := assassinationTarget r;
     selectedTeam := selectedTeam r; votes := votes r;
     voteRejections := voteRejections r;
     missionActions := missionActions r |}.


Definition set_lastActivityAt (v : nat) (r : Room) : Room :=
  {| id := id r; players := players r; maxPlayers := maxPlayers r;
     minPlayers := minPlayers r; expansions := expansions r;
     createdAt := createdAt r; lastActivityAt := v;
     loopStartAt := loopStartAt r; phase := phase r;
     currentLeaderIndex := currentLeaderIndex r;
     currentMissionIndex := currentMissionIndex r;
     failedMissions := failedMissions r;
     succeededMissions := succeededMissions r;
     missionHistory := missionHistory r;
     assassinationTarget := assassinationTarget r;
     selectedTeam := selectedTeam r; votes := votes r;
     voteRejections := voteRejections r;
     missionActions := missionActions r |}.

Definition set_phase (v : GamePhase) (r : Room) : Room :=
  {| id := id r; players := players r; maxPlayers := maxPlayers r;
     minPlayers := minPlayers r; expansions := expansions r;
     createdAt := createdAt r; lastActivityAt := lastActivityAt r;
     loopStartAt := loopStartAt r; phase := v;
     currentLeaderIndex := currentLeaderIndex r;
     currentMissionIndex := currentMissionIndex r;
     failedMissions := failedMissions r;
     succeededMissions := succeededMissions r;
     missionHistory := missionHistory r;
     assassinationTarget := assassinationTarget r;
     selectedTeam := selectedTeam r; votes := votes r;
     voteRejections := voteRejections r;
     missionActions := missionActions r |}.

Definition set_currentLeaderIndex (v : JsIndex) (r : Room) : Room :=
  {| id := id r; players := players r; maxPlayers := maxPlayers r;
     minPlayers := minPlayers r; expansions := expansions r;
     createdAt := createdAt r; lastActivityAt := lastActivityAt r;
     loopStartAt := loopStartAt r; phase := phase r; currentLeaderIndex := v;
     currentMissionIndex := currentMissionIndex r;
     failedMissions := failedMissions r;
     succeededMissions := succeededMissions r;
     missionHistory := missionHistory r;
     assassinationTarget := assassinationTarget r;
     selectedTeam := selectedTeam r; votes := votes r;
     voteRejections := voteRejections r;
     missionActions := missionActions r |}.

Definition set_currentMissionIndex (v : nat) (r : Room) : Room :=
  {| id := id r; players := players r; maxPlayers := maxPlayers r;
     minPlayers := minPlayers r; expansions := expansions r;
     createdAt := createdAt r; lastActivityAt := lastActivityAt r;
     loopStartAt := loopStartAt r; phase := phase r;
     currentLeaderIndex := currentLeaderIndex r; currentMissionIndex := v;
     failedMissions := failedMissions r;
     succeededMissions := succeededMissions r;
     missionHistory := missionHistory r;
     assassinationTarget := assassinationTarget r;
     selectedTeam := selectedTeam r; votes := votes r;
     voteRejections := voteRejections r;
     missionActions := missionActions r |}.

Definition set_failedMissions (v : nat) (r : Room) : Room :=
  {| id := id r; players := players r; maxPlayers := maxPlayers r;
     minPlayers := minPlayers r; expansions := expansions r;
     createdAt := createdAt r; lastActivityAt := lastActivityAt r;
     loopStartAt := loopStartAt r; phase := phase r;
     currentLeaderIndex := currentLeaderIndex r;
     currentMissionIndex := currentMissionIndex r; failedMissions := v;
     succeededMissions := succeededMissions r;
     missionHistory := missionHistory r;
     assassinationTarget := assassinationTarget r;
     selectedTeam := selectedTeam r; votes := votes r;
     voteRejections := voteRejections r;
     missionActions := missionActions r |}.

Definition set_succeededMissions (v : nat) (r : Room) : Room :=
  {| id := id r; players := players r; maxPlayers := maxPlayers r;
     minPlayers := minPlayers r; expansions := expansions r;
     createdAt := createdAt r; lastActivityAt := lastActivityAt r;
     loopStartAt := loopStartAt r; phase := phase r;
     currentLeaderIndex := currentLeaderIndex r;
     currentMissionIndex := currentMissionIndex r;
     failedMissions := failedMissions r; succeededMissions := v;
     missionHistory := missionHistory r;
     assassinationTarget := assassinationTarget r;
     selectedTeam := selectedTeam r; votes := votes r;
     voteRejections := voteRejections r;
     missionActions := missionActions r |}.

Definition set_missionHistory (v : list (bool * nat)) (r : Room) : Room :=
  {| id := id r; players := players r; maxPlayers := maxPlayers r;
     minPlayers := minPlayers r; expansions := expansions r;
     createdAt := createdAt r; lastActivityAt := lastActivityAt r;
     loopStartAt := loopStartAt r; phase := phase r;
     currentLeaderIndex := currentLeaderIndex r;
     currentMissionIndex := currentMissionIndex r;
     failedMissions := failedMissions r;
     succeededMissions := succeededMissions r; missionHistory := v;
     assassinationTarget := assassinationTarget r;
     selectedTeam := selectedTeam r; votes := votes r;
     voteRejections := voteRejections r;
     missionActions := missionActions r |}.

Definition set_assassinationTarget (v : option string) (r : Room) : Room :=
  {| id := id r; players := players r; maxPlayers := maxPlayers r;
     minPlayers := minPlayers r; expansions := expansions r;
     createdAt := createdAt r; lastActivityAt := lastActivityAt r;
     loopStartAt := loopStartAt r; phase := phase r;
     currentLeaderIndex := currentLeaderIndex r;
     currentMissionIndex := currentMissionIndex r;
     failedMissions := failedMissions r;
     succeededMissions := succeededMissions r;
     missionHistory := missionHistory r; assassinationTarget := v;
     selectedTeam := selectedTeam r; votes := votes r;
     voteRejections := voteRejections r;
     missionActions := missionActions r |}.

Definition set_selectedTeam (v : list string) (r : Room) : Room :=
  {| id := id r; players := players r; maxPlayers := maxPlayers r;
     minPlayers := minPlayers r; expansions := expansions r;
     createdAt := createdAt r; lastActivityAt := lastActivityAt r;
     loopStartAt := loopStartAt r; phase := phase r;
     currentLeaderIndex := currentLeaderIndex r;
     currentMissionIndex := currentMissionIndex r;
     failedMissions := failedMissions r;
     succeededMissions := succeededMissions r;
     missionHistory := missionHistory r;
     assassinationTarget := assassinationTarget r; selectedTeam := v;
     votes := votes r; voteRejections := voteRejections r;
     missionActions := missionActions r |}.

Definition set_votes (v : JsMap.t bool) (r : Room) : Room :=
  {| id := id r; players := players r; maxPlayers := maxPlayers r;
     minPlayers := minPlayers r; expansions := expansions r;
     createdAt := createdAt r; lastActivityAt := lastActivityAt r;
     loopStartAt := loopStartAt r; phase := phase r;
     currentLeaderIndex := currentLeaderIndex r;
     currentMissionIndex := currentMissionIndex r;
     failedMissions := failedMissions r;
     succeededMissions := succeededMissions r;
     missionHistory := missionHistory r;
     assassinationTarget := assassinationTarget r;
     selectedTeam := selectedTeam r; votes := v;
     voteRejections := voteRejections r;
     missionActions := missionActions r |}.

Definition set_voteRejections (v : nat) (r : Room) : Room :=
  {| id := id r; players := players r; maxPlayers := maxPlayers r;
     minPlayers := minPlayers r; expansions := expansions r;
     createdAt := createdAt r; lastActivityAt := lastActivityAt r;
     loopStartAt := loopStartAt r; phase := phase r;
     currentLeaderIndex := currentLeaderIndex r;
     currentMissionIndex := currentMissionIndex r;
     failedMissions := failedMissions r;
     succeededMissions := succeededMissions r;
     missionHistory := missionHistory r;
     assassinationTarget := assassinationTarget r;
     selectedTeam := selectedTeam r; votes := votes r; voteRejections := v;
     missionActions := missionActions r |}.

Definition set_missionActions (v : JsMap.t bool) (r : Room) : Room :=
  {| id := id r; players := players r; maxPlayers := maxPlayers r;
     minPlayers := minPlayers r; expansions := expansions r;
     createdAt := createdAt r; lastActivityAt := lastActivityAt r;
     loopStartAt := loopStartAt r; phase := phase r;
     currentLeaderIndex := currentLeaderIndex r;
     currentMissionIndex := currentMissionIndex r;
     failedMissions := failedMissions r;
     succeededMissions := succeededMissions r;
     missionHistory := missionHistory r;
     assassinationTarget := assassinationTarget r;
     selectedTeam := selectedTeam r; votes := votes r;
     voteRejections := voteRejections r; missionActions := v |}.

Definition set_p_id (v : string) (p : Player) : Player :=
  {| p_id := v; playerId := playerId p; nickname := nickname p;
     role := role p; specialRole := specialRole p; isLeader := isLeader p |}.

Definition set_isLeader (v : bool) (p : Player) : Player :=
  {| p_id := p_id p; playerId := playerId p; nickname := nickname p;
     role := role p; specialRole := specialRole p; isLeader := v |}.

(** Truthiness of a JavaScript string: only the empty string is falsy. *)
Definition truthy (s : string) : bool := bool_decide (s ≠ "").

(** [a || b] on strings, with [a] possibly [undefined]. *)
Definition or_else (a : option string) (b : string) : string :=
  match a with
  | Some s => if truthy s then s else b
  | None => b
  end.

(** [xs[i]] for a JavaScript number [i]: [undefined] out of range. *)
Definition js_index {A} (xs : list A) (i : JsIndex) : option A :=
  match i with
  | Idx n => xs !! n
  | NaN => None
  end.

(** [(i + 1) % len] *)
Definition js_succ_mod (i : JsIndex) (len : nat) : JsIndex :=
  match i with
  | Idx n => if decide (len = 0) then NaN else Idx ((n + 1) mod len)
  | NaN => NaN
  end.

(** ** Room.ts: methods *)

(** [new Room(id, minPlayers?, expansions?, hookManager?)] *)
Definition newRoom (rid : string) (minP : option nat)
    (exps : option (list string)) (now : nat) : Room :=
  {| id := rid; players := []; maxPlayers := MAX_PLAYERS;
     minPlayers := default MIN_PLAYERS minP;
     expansions := default [] exps;
     createdAt := now; lastActivityAt := now; loopStartAt := None;
     phase := "LOBBY"; currentLeaderIndex := Idx 0;
     currentMissionIndex := 0; failedMissions := 0; succeededMissions := 0;
     missionHistory := []; assassinationTarget := None;
     selectedTeam := []; votes := JsMap.empty; voteRejections := 0;
     missionActions := JsMap.empty |}.

Definition addPlayer (sid nick : string) (pid : option string) (now : nat)
    (r : Room) : Room * Player :=
  let player :=
    {| p_id := sid; playerId := or_else pid sid; nickname := nick;
       role := None; specialRole := None; isLeader := false |} in
  (set_lastActivityAt now (set_players (players r ++ [player]) r), player).

Definition removePlayer (sid : string) (now : nat) (r : Room) : Room :=
  set_lastActivityAt now
    (set_players (filter (λ p, p_id p ≠ sid) (players r)) r).

Definition getPlayer (sid : string) (r : Room) : option Player :=
  find (λ p, bool_decide (p_id p = sid)) (players r).

Definition getPlayerByPlayerId (pid : string) (r : Room) : option Player :=
  find (λ p, bool_decide (playerId p = pid)) (players r).

(** The player object found is mutated in place: the roster keeps its
    order and the first player carrying [pid] gets the new socket id. *)
Definition reconnectPlayer (pid newSocketId : string) (now : nat)
    (r : Room) : Room * bool :=
  match list_find (λ p, playerId p = pid) (players r) with
  | Some (i, player) =>
      (set_lastActivityAt now
         (set_players (<[i := set_p_id newSocketId player]> (players r)) r),
       true)
  | None => (r, false)
  end.

Definition updateLeader (now : nat) : Eff Room unit :=
  λ r,
    let r1 := set_players (set_isLeader false <$> players r) r in
    match currentLeaderIndex r1 with
    | Idx n =>
        match players r1 !! n with
        | Some p =>
            (set_lastActivityAt now
               (set_players (<[n := set_isLeader true p]> (players r1)) r1),
             Normal tt)
        | None => (r1, Throw "TypeError")
        end
    | NaN => (r1, Throw "TypeError")
    end.

Definition nextTurn (now : nat) : Eff Room unit :=
  (eff_modify (λ r, set_currentLeaderIndex
                      (js_succ_mod (currentLeaderIndex r) (length (players r))) r) ;;
   updateLeader now ;;
   eff_modify (set_phase "TEAM_SELECTION") ;;
   eff_modify (set_selectedTeam []) ;;
   eff_modify (set_votes JsMap.empty))%eff.

Definition getCurrentMissionSize (r : Room) : nat :=
  default 0 (MISSION_CONFIG !! length (players r)
             ≫= (λ sizes, sizes !! currentMissionIndex r)).

Arguments getCurrentMissionSize : simpl never.

Definition getPlayerIdFromSocket (socketId : string) (r : Room) : option string :=
  playerId <$> getPlayer socketId r.

Definition getSocketIdFromPlayerId (pid : string) (r : Room) : option string :=
  p_id <$> getPlayerByPlayerId pid r.

Definition getSelectedTeamSocketIds (r : Room) : list string :=
  filter (λ sid, truthy sid = true)
    (omap (λ pid, getSocketIdFromPlayerId pid r) (selectedTeam r)).

Definition selectTeam (socketIds : list string) (now : nat) (r : Room)
    : Room * bool :=
  let requiredSize := getCurrentMissionSize r in
  if decide (length socketIds ≠ requiredSize) then (r, false)
  else
    (* the loop returns false at the first socket id without a player *)
    match mapM (λ sid, getPlayerIdFromSocket sid r) socketIds with
    | None => (r, false)
    | Some playerIds =>
        (set_lastActivityAt now
           (set_phase "VOTE" (set_selectedTeam playerIds r)),
         true)
    end.

Definition submitVote (socketId : string) (approve : bool) (now : nat)
    (r : Room) : Room :=
  match getPlayerIdFromSocket socketId r with
  | Some pid =>
      if truthy pid
      then set_lastActivityAt now (set_votes (JsMap.set pid approve (votes r)) r)
      else r
  | None => r
  end.

Record TallyResult : Type := mkTally {
  approved : bool;
  approveCount : nat;
  rejectCount : nat;
  penaltyApplied : bool;
}.

(** [this.votes.forEach((vote) => { if (vote) approveCount++; else rejectCount++; })] *)
Definition countVotes (m : JsMap.t bool) : nat * nat :=
  foldl (λ '(a, rj) '(_, vote), if vote : bool then (S a, rj) else (a, S rj))
        (0, 0) m.

Definition tallyVotes (now : nat) : Eff Room TallyResult :=
  (let! r := eff_get in
   let '(approveCount, rejectCount) := countVotes (votes r) in
   let approved := bool_decide (rejectCount < approveCount)%nat in
   let! penaltyApplied :=
     (if negb approved then
        eff_modify (λ r, set_voteRejections (S (voteRejections r)) r) ;;
        let! r := eff_get in
        if decide (MAX_REJECTIONS ≤ voteRejections r)%nat then
          eff_modify (set_failedMissions MISSIONS_TO_FAIL) ;;
          eff_modify (set_phase "GAME_OVER") ;;
          eff_modify (set_voteRejections 0) ;;
          eff_ret true
        else
          nextTurn now ;;
          eff_ret false
      else
        eff_modify (set_phase "MISSION") ;;
        eff_ret false) in
   let resultDetails := mkTally approved approveCount rejectCount penaltyApplied in
   eff_modify (set_votes JsMap.empty) ;;
   eff_modify (set_lastActivityAt now) ;;
   eff_ret resultDetails)%eff.

Definition submitMissionAction (socketId : string) (success : bool)
    (now : nat) (r : Room) : Room * bool :=
  match getPlayerIdFromSocket socketId r with
  | Some pid =>
      if negb (truthy pid) then (r, false)
      else if negb (bool_decide (pid ∈ selectedTeam r)) then (r, false)
      else (set_lastActivityAt now
              (set_missionActions (JsMap.set pid success (missionActions r)) r),
            true)
  | None => (r, false)
  end.

(** [merlin?.id || null] *)
Definition merlinIdOf (r : Room) : option string :=
  match find (λ p, bool_decide (specialRole p = Some MERLIN)) (players r) with
  | Some merlin => if truthy (p_id merlin) then Some (p_id merlin) else None
  | None => None
  end.

Definition handleAssassination (targetId : string) (r : Room)
    : Room * (bool * option string) :=
  let r := set_assassinationTarget (Some targetId) r in
  let merlinId := merlinIdOf r in
  let success := bool_decide (Some targetId = merlinId) in
  (set_phase "GAME_OVER" r, (success, merlinId)).

Definition getWinner (r : Room) : option Role :=
  if negb (bool_decide (phase r = "GAME_OVER")) then None
  else
    let assassinated :=
      match assassinationTarget r with
      | Some target =>
          truthy target &&
          match find (λ p, bool_decide (specialRole p = Some MERLIN)) (players r) with
          | Some merlin => bool_decide (target = p_id merlin)
          | None => false
          end
      | None => false
      end in
    if assassinated then Some SPY
    else if decide (MISSIONS_TO_SUCCEED ≤ succeededMissions r)%nat then Some RESISTANCE
    else if decide (MISSIONS_TO_FAIL ≤ failedMissions r)%nat then Some SPY
    else None.

(** ** hooks/HookManager.ts *)

Section HookManager.
(** [W] is the state the callbacks act on and [Ctx] the context they are
    handed; [stops ctx w] reads [ctx.stopPropagation]. A context may be a
    value, or a reference to a mutable object held in [W]: the loop only
    passes it on. The [await]s are sequential composition: one callback
    completes before the next is invoked. *)
Context {W Ctx : Type} (stops : Ctx → W → bool).

Definition HookCallback : Type := Ctx → Eff W Ctx.

(** [private hooks: Map<GameHook, HookCallback[]>] *)
Definition register (hookName : string) (callback : HookCallback)
    (hooks : gmap string (list HookCallback)) : gmap string (list HookCallback) :=
  <[hookName := (default [] (hooks !! hookName) ++ [callback])%list]> hooks.

(** One turn of the loop body: the [try] block assigns [result] and tests
    [stopPropagation]; the [catch] block logs and leaves [result] as it
    was. The boolean is the [break]. *)
Definition callback_step (callback : HookCallback) (result : Ctx)
    : Eff W (Ctx * bool) :=
  try_catch
    (let! result' := callback result in
     let! w := eff_get in
     if stops result' w then eff_ret (result', true)
     else eff_ret (result', false))%eff
    (λ error, eff_ret (result, false)).

Fixpoint for_callbacks (callbacks : list HookCallback) (result : Ctx)
    : Eff W Ctx :=
  match callbacks with
  | [] => eff_ret result
  | callback :: rest =>
      (let! step := callback_step callback result in
       if step.2 then eff_ret step.1 else for_callbacks rest step.1)%eff
  end.

Definition trigger (hooks : gmap string (list HookCallback))
    (hookName : string) (context : Ctx) : Eff W Ctx :=
  let callbacks := default [] (hooks !! hookName) in
  if decide (length callbacks = 0) then eff_ret context
  else for_callbacks callbacks context.

Definition clear (hookName : option string)
    (hooks : gmap string (list HookCallback)) : gmap string (list HookCallback) :=
  match hookName with
  | Some name => if truthy name then delete name hooks else ∅
  | None => ∅
  end.

Definition getCallbackCount (hookName : string)
    (hooks : gmap string (list HookCallback)) : nat :=
  default 0 (length <$> hooks !! hookName).

Definition hasCallbacks (hookName : string)
    (hooks : gmap string (list HookCallback)) : bool :=
  bool_decide (0 < getCallbackCount hookName hooks)%nat.
End HookManager.

(** ** hooks/types.ts *)

(** The fields of [HookContext] that [Room] writes or reads back. The
    [room] of the context is the state the callbacks act on. *)
Record HookContext : Type := mkCtx {
  result : option (bool * nat);
  nextPhase : option string;
  stopPropagation : bool;
}.

Definition readsStop (context : HookContext) (r : Room) : bool :=
  stopPropagation context.

Abbreviation RoomCallback := (@HookCallback Room HookContext).
Abbreviation HookManager := (gmap string (list RoomCallback)).

Definition newHookManager : HookManager := ∅.

(** ** Room.ts: resolveMission *)

Record MissionResult : Type := mkMissionResult {
  success : bool;
  failCount : nat;
  mr_votes : JsMap.t bool;
}.

(** [this.missionActions.forEach((action) => { if (!action) failCount++; })] *)
Definition countFails (m : JsMap.t bool) : nat :=
  foldl (λ n '(_, action), if action : bool then n else S n) 0 m.

(** The key under which the action of [pid] is returned: the socket id of
    the player when there is one, the player id itself otherwise. *)
Definition reportKey (r : Room) (pid : string) : string :=
  match getSocketIdFromPlayerId pid r with
  | Some sid => if truthy sid then sid else pid
  | None => pid
  end.

Definition votesSocketIds (r : Room) : JsMap.t bool :=
  foldl (λ acc '(pid, action), JsMap.set (reportKey r pid) action acc)
        JsMap.empty (missionActions r).

Definition resolveMission (hookManager : HookManager) (now : nat)
    : Eff Room MissionResult :=
  (let! r := eff_get in
   let failCount := countFails (missionActions r) in
   let success := bool_decide (failCount = 0) in
   (if success
    then eff_modify (λ r, set_succeededMissions (S (succeededMissions r)) r)
    else eff_modify (λ r, set_failedMissions (S (failedMissions r)) r)) ;;
   eff_modify (λ r, set_missionHistory (missionHistory r ++ [(success, failCount)]) r) ;;
   let! r := eff_get in
   let votes := votesSocketIds r in
   eff_modify (set_missionActions JsMap.empty) ;;
   let! r := eff_get in
   let! tentative :=
     (if decide (MISSIONS_TO_FAIL ≤ failedMissions r)%nat then eff_ret "GAME_OVER"
      else if decide (MISSIONS_TO_SUCCEED ≤ succeededMissions r)%nat
      then eff_ret "GAME_OVER"
      else
        eff_modify (λ r, set_currentMissionIndex (S (currentMissionIndex r)) r) ;;
        eff_ret "TEAM_SELECTION") in
   let! hookResult :=
     trigger readsStop hookManager "mission:resolve"
       {| result := Some (success, failCount); nextPhase := Some tentative;
          stopPropagation := false |} in
   eff_modify (set_phase (or_else (nextPhase hookResult) tentative)) ;;
   let! r := eff_get in
   (if decide (phase r = "TEAM_SELECTION") then nextTurn now else eff_ret tt) ;;
   eff_ret (mkMissionResult success failCount votes))%eff.

(** ** Room.ts: getGameState *)

(** [{ id, playerId, nickname, isLeader }] *)
Record PlayerView : Type := mkPlayerView {
  pv_id : string;
  pv_playerId : string;
  pv_nickname : string;
  pv_isLeader : bool;
}.

(** [{ id, nickname }] *)
Record SpyView : Type := mkSpyView {
  sv_id : string;
  sv_nickname : string;
}.

(** The object that [getGameState] builds. [spies] is a list or
    [undefined]; [myVote] and [myMissionAction] are [true] or [null],
    because [x || null] turns a recorded [false] into [null];
    [currentLeader] is the player object of the roster, with all its
    fields, or [undefined]. *)
Record GameState : Type := mkGameState {
  gs_roomId : string;
  gs_player : PlayerView;
  gs_minPlayers : nat;
  gs_expansions : list string;
  gs_gameStarted : bool;
  gs_phase : GamePhase;
  gs_players : list PlayerView;
  gs_currentLeader : option Player;
  gs_missionIndex : nat;
  gs_missionSize : nat;
  gs_selectedTeam : list string;
  gs_voteRejections : nat;
  gs_succeededMissions : nat;
  gs_failedMissions : nat;
  gs_missionHistory : list (bool * nat);
  gs_gameWinner : option Role;
  gs_myRole : option Role;
  gs_specialRole : option SpecialRole;
  gs_spies : option (list SpyView);
  gs_hasVoted : bool;
  gs_myVote : option bool;
  gs_votedPlayers : list string;
  gs_hasSubmittedMissionAction : bool;
  gs_myMissionAction : option bool;
  gs_missionActionsSubmitted : list string;
  gs_assassinId : option string;
  gs_assassinationTarget : option string;
}.

(** [state.spies = v] *)
Definition set_gs_spies (v : option (list SpyView)) (s : GameState) : GameState :=
  {| gs_roomId := gs_roomId s; gs_player := gs_player s;
     gs_minPlayers := gs_minPlayers s; gs_expansions := gs_expansions s;
     gs_gameStarted := gs_gameStarted s; gs_phase := gs_phase s;
     gs_players := gs_players s; gs_currentLeader := gs_currentLeader s;
     gs_missionIndex := gs_missionIndex s; gs_missionSize := gs_missionSize s;
     gs_selectedTeam := gs_selectedTeam s;
     gs_voteRejections := gs_voteRejections s;
     gs_succeededMissions := gs_succeededMissions s;
     gs_failedMissions := gs_failedMissions s;
     gs_missionHistory := gs_missionHistory s;
     gs_gameWinner := gs_gameWinner s; gs_myRole := gs_myRole s;
     gs_specialRole := gs_specialRole s; gs_spies := v;
     gs_hasVoted := gs_hasVoted s; gs_myVote := gs_myVote s;
     gs_votedPlayers := gs_votedPlayers s;
     gs_hasSubmittedMissionAction := gs_hasSubmittedMissionAction s;
     gs_myMissionAction := gs_myMissionAction s;
     gs_missionActionsSubmitted := gs_missionActionsSubmitted s;
     gs_assassinId := gs_assassinId s;
     gs_assassinationTarget := gs_assassinationTarget s |}.

(** [this.players.filter((p) => p.role === "SPY").map((p) => ({ id: p.id, nickname: p.nickname }))] *)
Definition spiesList (r : Room) : list SpyView :=
  (λ p, mkSpyView (p_id p) (nickname p))
    <$> filter (λ p, role p = Some SPY) (players r).

(** [m.get(k) || null] on a map of booleans. *)
Definition get_or_null (k : string) (m : JsMap.t bool) : option bool :=
  match JsMap.get k m with
  | Some true => Some true
  | _ => None
  end.

(** [Array.from(m.keys()).map(pid => this.getSocketIdFromPlayerId(pid)).filter(sid => !!sid)] *)
Definition socketIdsOf (m : JsMap.t bool) (r : Room) : list string :=
  filter (λ sid, truthy sid = true)
    (omap (λ pid, getSocketIdFromPlayerId pid r) (JsMap.keys m)).

(** [assassin?.id || null] *)
Definition assassinIdOf (r : Room) : option string :=
  match find (λ p, bool_decide (specialRole p = Some ASSASSIN)) (players r) with
  | Some assassin => if truthy (p_id assassin) then Some (p_id assassin) else None
  | None => None
  end.

(** The object literal [state] of [getGameState], for the player found
    under [requestingPlayerId]. *)
Definition buildGameState (player : Player) (requestingPlayerId : string)
    (r : Room) : GameState :=
  {| gs_roomId := id r;
     gs_player := mkPlayerView (p_id player) (playerId player) (nickname player)
                    (isLeader player);
     gs_minPlayers := minPlayers r;
     gs_expansions := expansions r;
     gs_gameStarted := negb (bool_decide (phase r = "LOBBY"));
     gs_phase := phase r;
     gs_players := (λ p, mkPlayerView (p_id p) (playerId p) (nickname p) (isLeader p))
                     <$> players r;
     gs_currentLeader := js_index (players r) (currentLeaderIndex r);
     gs_missionIndex := currentMissionIndex r;
     gs_missionSize := getCurrentMissionSize r;
     gs_selectedTeam := getSelectedTeamSocketIds r;
     gs_voteRejections := voteRejections r;
     gs_succeededMissions := succeededMissions r;
     gs_failedMissions := failedMissions r;
     gs_missionHistory := missionHistory r;
     gs_gameWinner := getWinner r;
     gs_myRole := role player;
     gs_specialRole := specialRole player;
     gs_spies := if bool_decide (role player = Some SPY)
                 then Some (spiesList r) else None;
     gs_hasVoted := JsMap.has requestingPlayerId (votes r);
     gs_myVote := get_or_null requestingPlayerId (votes r);
     gs_votedPlayers := socketIdsOf (votes r) r;
     gs_hasSubmittedMissionAction := JsMap.has requestingPlayerId (missionActions r);
     gs_myMissionAction := get_or_null requestingPlayerId (missionActions r);
     gs_missionActionsSubmitted := socketIdsOf (missionActions r) r;
     gs_assassinId := assassinIdOf r;
     gs_assassinationTarget := assassinationTarget r |}.

(** The context of [state:sync]: its [room] and its [state] are the room
    and the state object themselves, which the callbacks act on; the
    callbacks of the expansions change the state object in place and hand
    the context back. *)
Record SyncContext : Type := mkSync {
  sc_player : Player;
  sc_stopPropagation : bool;
}.

Definition syncStops (context : SyncContext) (w : Room * GameState) : bool :=
  sc_stopPropagation context.

Abbreviation SyncCallback := (@HookCallback (Room * GameState) SyncContext).

(** [getGameState(requestingPlayerId)]; [hooks] holds the callbacks that
    take a [state:sync] context. The result is the state object as the
    callbacks left it. *)
Definition getGameState (hooks : gmap string (list SyncCallback))
    (requestingPlayerId : string) : Eff Room (option GameState) :=
  λ r,
    match getPlayerByPlayerId requestingPlayerId r with
    | None => (r, Normal None)
    | Some player =>
        let state := buildGameState player requestingPlayerId r in
        match trigger syncStops hooks "state:sync" (mkSync player false) (r, state) with
        | (w, Normal hookResult) => (w.1, Normal (Some w.2))
        | (w, Throw e) => (w.1, Throw e)
        end
    end.

(** The callback of [state:sync] of the merlin-assassin expansion. *)
Definition merlinAssassin_stateSync : SyncCallback :=
  λ context w,
    if bool_decide (specialRole (sc_player context) = Some MERLIN)
    then ((w.1, set_gs_spies (Some (spiesList w.1)) w.2), Normal context)
    else (w, Normal context).

(** The callback of [state:sync] of the blind-spies expansion. *)
Definition blindSpies_stateSync : SyncCallback :=
  λ context w,
    if bool_decide (role (sc_player context) = Some SPY)
       && bool_decide (specialRole (sc_player context) ≠ Some MERLIN)
    then ((w.1, set_gs_spies None w.2), Normal context)
    else (w, Normal context).

(** ** Property lookup on an object literal *)

(** The members that every object created by a literal inherits from
    [Object.prototype]. *)
Definition OBJECT_PROTOTYPE_MEMBERS : list string :=
  [ "constructor"; "__proto__"; "hasOwnProperty"; "isPrototypeOf";
    "propertyIsEnumerable"; "toString"; "toLocaleString"; "valueOf";
    "__defineGetter__"; "__defineSetter__"; "__lookupGetter__";
    "__lookupSetter__" ].

(** What [object[key]] finds on an object literal with the own properties
    [own]: an own property, a member of [Object.prototype] (a function, or
    the prototype object itself: truthy, and no value of the literal), or
    [undefined]. *)
Inductive Member (A : Type) : Type :=
  | Own (a : A)
  | Inherited
  | Undefined.
Arguments Own {A} a.
Arguments Inherited {A}.
Arguments Undefined {A}.

Definition js_member {A : Type} (own : gmap string A) (key : string) : Member A :=
  match own !! key with
  | Some a => Own a
  | None => if decide (key ∈ OBJECT_PROTOTYPE_MEMBERS) then Inherited else Undefined
  end.

(** ** GameManager.ts *)

(** A [HookManager] object. Its callbacks are held by the context they are
    handed: [roomHooks] are those of the hooks triggered with the room
    ([game:start], [roles:assign], [mission:resolve], ...), [syncHooks]
    those of [state:sync], whose context carries the player and the state
    object. *)
Record Hooks : Type := mkHooks {
  roomHooks : HookManager;
  syncHooks : gmap string (list SyncCallback);
}.

(** [new HookManager()] *)
Definition newHooks : Hooks := mkHooks newHookManager ∅.

Definition registerRoom (hookName : string) (callback : RoomCallback)
    (hooks : Hooks) : Hooks :=
  mkHooks (register hookName callback (roomHooks hooks)) (syncHooks hooks).

Definition registerSync (hookName : string) (callback : SyncCallback)
    (hooks : Hooks) : Hooks :=
  mkHooks (roomHooks hooks) (register hookName callback (syncHooks hooks)).

(** A hook manager object is a location in a store of hook managers;
    [new HookManager()] allocates the next location. *)
Abbreviation HookStore := (list Hooks).

(** A [Room] object together with its private [hookManager] field. *)
Record Session : Type := mkSession {
  room : Room;
  hookManager : nat;
}.

(** [install(hookManager)] registers callbacks on the hook manager it is
    handed. *)
Record ExpansionPlugin : Type := mkExpansion {
  ex_id : string;
  ex_name : string;
  ex_version : string;
  install : Hooks → Hooks;
}.

Record GameManager : Type := mkGameManager {
  rooms : gmap string Session;
}.

Section GameManager.
(** expansions/index.ts: the own properties of the object literal. *)
Variable AVAILABLE_EXPANSIONS : gmap string ExpansionPlugin.

(** The body of the [forEach] of [installExpansions]. An id that names a
    member of [Object.prototype] passes [if (expansion)], and
    [expansion.install] is [undefined] there: the call throws a
    [TypeError]. An id that names nothing is warned about and skipped. *)
Definition installExpansion (id : string) (loc : nat) : Eff HookStore unit :=
  match js_member AVAILABLE_EXPANSIONS id with
  | Own expansion => eff_modify (alter (install expansion) loc)
  | Inherited => eff_throw "TypeError"
  | Undefined => eff_ret tt
  end.

(** [installExpansions(expansionIds, hookManager)]: the [forEach] ends at
    the first id whose turn throws. *)
Fixpoint installExpansions (expansionIds : list string) (loc : nat)
    : Eff HookStore unit :=
  match expansionIds with
  | [] => eff_ret tt
  | id :: rest => (installExpansion id loc ;; installExpansions rest loc)%eff
  end.

(** [createRoom(minPlayers?, expansions?)]; [roomId] is the outcome of
    [generateRoomId()]. When [installExpansions] throws, the hook manager
    has been allocated and no room is registered. *)
Definition createRoom (roomId : string) (minP : option nat)
    (exps : option (list string)) (now : nat)
    : Eff (GameManager * HookStore) Session :=
  λ '(gm, store),
    let roomHookManager := length store in
    let store := store ++ [newHooks] in
    let installed :=
      match exps with
      | Some ids =>
          if decide (0 < length ids)%nat
          then installExpansions ids roomHookManager store
          else (store, Normal tt)
      | None => (store, Normal tt)
      end in
    match installed with
    | (store, Normal _) =>
        let session := mkSession (newRoom roomId minP exps now) roomHookManager in
        ((mkGameManager (<[roomId := session]> (rooms gm)), store), Normal session)
    | (store, Throw error) => ((gm, store), Throw error)
    end.

Definition getRoom (roomId : string) (gm : GameManager) : option Session :=
  rooms gm !! roomId.

Definition removeRoom (roomId : string) (gm : GameManager) : GameManager :=
  mkGameManager (delete roomId (rooms gm)).

(** What the expansions named by [expansionIds] register, one after the
    other, on a hook manager that holds nothing. *)
Definition installedBy (expansionIds : list string) : Hooks :=
  foldl (λ hooks id,
           match AVAILABLE_EXPANSIONS !! id with
           | Some expansion => install expansion hooks
           | None => hooks
           end)
        newHooks expansionIds.

(** The calls a transport layer makes on the registry; a room is created
    or the call throws. *)
Inductive gm_step : GameManager * HookStore → GameManager * HookStore → Prop :=
  | step_create roomId minP exps now x :
      gm_step x (createRoom roomId minP exps now x).1
  | step_remove roomId gm store :
      gm_step (gm, store) (removeRoom roomId gm, store).
End GameManager.

(** The hook manager object that the field of a room points to. *)
Definition hooksOf (store : HookStore) (s : Session) : Hooks :=
  default newHooks (store !! hookManager s).

(** What a room runs at an extension point: the callbacks of the hook
    manager its field points to. *)
Definition triggerOf (store : HookStore) (s : Session)
    (hookName : string) (context : HookContext) : Eff Room HookContext :=
  trigger readsStop (roomHooks (hooksOf store s)) hookName context.

(** [state:sync] likewise. *)
Definition triggerSyncOf (store : HookStore) (s : Session)
    (hookName : string) (context : SyncContext)
    : Eff (Room * GameState) SyncContext :=
  trigger syncStops (syncHooks (hooksOf store s)) hookName context.

(** The store grows at its end and keeps what it held. *)
Definition store_extends (store store' : HookStore) : Prop :=
  length store ≤ length store' ∧
  ∀ loc, loc < length store → store' !! loc = store !! loc.

(** ** The calls of a transport layer on one room *)

(** The synchronous methods of [Room] that change its state. [startGame]
    and [resetGame] draw random numbers and run plugin callbacks and are
    not among them; [resolveMission], which runs plugin callbacks, is
    treated on its own. *)
Inductive Call : Type :=
  | AddPlayer (sid nick : string) (pid : option string)
  | RemovePlayer (sid : string)
  | ReconnectPlayer (pid newSocketId : string)
  | NextTurn
  | SelectTeam (socketIds : list string)
  | SubmitVote (socketId : string) (approve : bool)
  | TallyVotes
  | SubmitMissionAction (socketId : string) (success : bool)
  | HandleAssassination (targetId : string).

Global Instance Call_eq_dec : EqDecision Call.
Proof. solve_decision. Defined.

Inductive Outcome : Type :=
  | ReturnedPlayer (p : Player)
  | ReturnedBool (b : bool)
  | ReturnedVoid
  | ReturnedTally (t : TallyResult)
  | ReturnedAssassination (res : bool * option string)
  | Thrown (e : string).

Definition outcome_of {A} (f : A → Outcome) (c : completion A) : Outcome :=
  match c with
  | Normal a => f a
  | Throw e => Thrown e
  end.

(** The room as the call leaves it, whether it returns or throws, and what
    the caller gets. *)
Definition call (c : Call) (now : nat) (r : Room) : Room * Outcome :=
  match c with
  | AddPlayer sid nick pid => prod_map Datatypes.id ReturnedPlayer (addPlayer sid nick pid now r)
  | RemovePlayer sid => (removePlayer sid now r, ReturnedVoid)
  | ReconnectPlayer pid sid => prod_map Datatypes.id ReturnedBool (reconnectPlayer pid sid now r)
  | NextTurn => prod_map Datatypes.id (outcome_of (λ _, ReturnedVoid)) (nextTurn now r)
  | SelectTeam ids => prod_map Datatypes.id ReturnedBool (selectTeam ids now r)
  | SubmitVote sid approve => (submitVote sid approve now r, ReturnedVoid)
  | TallyVotes => prod_map Datatypes.id (outcome_of ReturnedTally) (tallyVotes now r)
  | SubmitMissionAction sid success =>
      prod_map Datatypes.id ReturnedBool (submitMissionAction sid success now r)
  | HandleAssassination targetId =>
      prod_map Datatypes.id ReturnedAssassination (handleAssassination targetId r)
  end.

Definition is_removePlayer (c : Call) : bool :=
  match c with RemovePlayer _ => true | _ => false end.

(** A sequence of calls, each with the clock reading at which it is made. *)
Fixpoint run (cs : list (Call * nat)) (r : Room) : Room * list Outcome :=
  match cs with
  | [] => (r, [])
  | (c, now) :: cs' =>
      let '(r1, o) := call c now r in
      let '(r2, os) := run cs' r1 in
      (r2, o :: os)
  end.

(** ** Predicates of the specification *)

(** The recorded votes hold a strict approval majority. *)
Definition tallyApproves (r : Room) : bool :=
  bool_decide ((countVotes (votes r)).2 < (countVotes (votes r)).1).

(** [0 ≤ currentLeaderIndex < players.length] whenever the roster is
    non-empty. *)
Definition leaderInBounds (r : Room) : Prop :=
  players r ≠ [] →
  ∃ n, currentLeaderIndex r = Idx n ∧ n < length (players r).

Global Instance leaderInBounds_dec r : Decision (leaderInBounds r).
Proof.
  unfold leaderInBounds.
  destruct (decide (players r = [])) as [Hp|Hp].
  - left. intros H. done.
  - destruct (currentLeaderIndex r) as [n|] eqn:Hi.
    + destruct (decide (n < length (players r))) as [Hn|Hn].
      * left. intros _. exists n. done.
      * right. intros H. destruct (H Hp) as (m & Hm & Hlt).
        injection Hm as <-. lia.
    + right. intros H. destruct (H Hp) as (m & Hm & _). done.
Defined.

(** Leadership can rotate: the roster is non-empty and the leader index is
    a number. *)
Definition canRotate (r : Room) : Prop :=
  players r ≠ [] ∧ ∃ n, currentLeaderIndex r = Idx n.

(** The streak of rejected proposals as the specification words it: an
    approval leaves it alone, a rejection adds one, and the rejection that
    reaches [MAX_REJECTIONS] applies the penalty and clears it. The boolean
    is [penaltyApplied]. *)
Definition streak_step (streak : nat) (approved : bool) : nat * bool :=
  if approved then (streak, false)
  else if decide (MAX_REJECTIONS ≤ S streak) then (0, true)
  else (S streak, false).

Fixpoint streak_run (streak : nat) (verdicts : list bool) : nat * list bool :=
  match verdicts with
  | [] => (streak, [])
  | approved :: verdicts' =>
      let '(streak1, penalty) := streak_step streak approved in
      let '(streak2, penalties) := streak_run streak1 verdicts' in
      (streak2, penalty :: penalties)
  end.

(** The verdict ([approved]) of each [tallyVotes] call of a run, read from
    the votes recorded when the call is made. *)
Fixpoint verdicts (cs : list (Call * nat)) (r : Room) : list bool :=
  match cs with
  | [] => []
  | (c, now) :: cs' =>
      match c with
      | TallyVotes => tallyApproves r :: verdicts cs' (call c now r).1
      | _ => verdicts cs' (call c now r).1
      end
  end.

(** Whether each [tallyVotes] call of a run returned [penaltyApplied = true]. *)
Fixpoint penalties (cs : list (Call * nat)) (r : Room) : list bool :=
  match cs with
  | [] => []
  | (c, now) :: cs' =>
      match c, (call c now r).2 with
      | TallyVotes, ReturnedTally t => penaltyApplied t :: penalties cs' (call c now r).1
      | TallyVotes, _ => false :: penalties cs' (call c now r).1
      | _, _ => penalties cs' (call c now r).1
      end
  end.

(** ** The earlier revision of Room.ts and GameManager.ts

    [src/game/Room.ts] and [src/game/GameManager.ts] hold the revision that
    precedes the cumulative-rejections rule, the activity timestamps and
    the per-room hook managers. Where it differs from the current one in
    what the properties below are about, it is modelled here, over the same
    records (it never writes the timestamps). *)

Module EarlierRevision.

Definition updateLeader : Eff Room unit :=
  λ r,
    let r1 := set_players (set_isLeader false <$> players r) r in
    match currentLeaderIndex r1 with
    | Idx n =>
        match players r1 !! n with
        | Some p =>
            (set_players (<[n := set_isLeader true p]> (players r1)) r1, Normal tt)
        | None => (r1, Throw "TypeError")
        end
    | NaN => (r1, Throw "TypeError")
    end.

Definition nextTurn : Eff Room unit :=
  (eff_modify (λ r, set_currentLeaderIndex
                      (js_succ_mod (currentLeaderIndex r) (length (players r))) r) ;;
   updateLeader ;;
   eff_modify (set_phase "TEAM_SELECTION") ;;
   eff_modify (set_selectedTeam []) ;;
   eff_modify (set_votes JsMap.empty))%eff.

(** The penalty counts as one failed mission and the game goes on unless a
    threshold is reached; an approval resets the streak. *)
Definition tallyVotes : Eff Room TallyResult :=
  (let! r := eff_get in
   let '(approveCount, rejectCount) := countVotes (votes r) in
   let approved := bool_decide (rejectCount < approveCount)%nat in
   let! penaltyApplied :=
     (if negb approved then
        eff_modify (λ r, set_voteRejections (S (voteRejections r)) r) ;;
        let! r := eff_get in
        if decide (MAX_REJECTIONS ≤ voteRejections r)%nat then
          eff_modify (λ r, set_failedMissions (S (failedMissions r)) r) ;;
          eff_modify (set_voteRejections 0) ;;
          let! r := eff_get in
          (if decide (MISSIONS_TO_SUCCEED ≤ succeededMissions r ∨
                      MISSIONS_TO_FAIL ≤ failedMissions r)%nat
           then eff_modify (set_phase "GAME_OVER")
           else
             eff_modify (λ r, set_currentMissionIndex (S (currentMissionIndex r)) r) ;;
             nextTurn) ;;
          eff_ret true
        else
          nextTurn ;;
          eff_ret false
      else
        eff_modify (set_phase "MISSION") ;;
        eff_modify (set_voteRejections 0) ;;
        eff_ret false) in
   eff_modify (set_votes JsMap.empty) ;;
   eff_ret (mkTally approved approveCount rejectCount penaltyApplied))%eff.

(** [GameManager] with its one [hookManager] field, allocated with the
    manager, and the expansion registry that installs an expansion once. *)
Record GameManager : Type := mkGameManager {
  rooms : gmap string Session;
  hookManager : nat;
  installed : gset string;
}.

Definition installExpansions (registry : gmap string ExpansionPlugin)
    (expansionIds : list string) (state : GameManager * HookStore)
    : GameManager * HookStore :=
  foldl (λ '(gm, store) eid,
           match registry !! eid with
           | Some expansion =>
               if decide (eid ∈ installed gm) then (gm, store)
               else (mkGameManager (rooms gm) (hookManager gm) ({[eid]} ∪ installed gm),
                     alter (install expansion) (hookManager gm) store)
           | None => (gm, store)
           end)
        state expansionIds.

Definition createRoom (registry : gmap string ExpansionPlugin)
    (roomId : string) (minP : option nat) (exps : option (list string))
    (now : nat) (gm : GameManager) (store : HookStore)
    : GameManager * HookStore * Session :=
  let session := mkSession (newRoom roomId minP exps now) (hookManager gm) in
  let gm := mkGameManager (<[roomId := session]> (rooms gm)) (hookManager gm)
              (installed gm) in
  let '(gm, store) :=
    match exps with
    | Some ids =>
        if decide (0 < length ids)%nat
        then installExpansions registry ids (gm, store)
        else (gm, store)
    | None => (gm, store)
    end in
  (gm, store, session).

End EarlierRevision.

(** ** Example rooms *)

Definition five_players : Room :=
  (run [(AddPlayer "s1" "Ann" (Some "p1"), 1); (AddPlayer "s2" "Bob" (Some "p2"), 2);
        (AddPlayer "s3" "Cid" (Some "p3"), 3); (AddPlayer "s4" "Dee" (Some "p4"), 4);
        (AddPlayer "s5" "Eve" (Some "p5"), 5)]
       (newRoom "ROOM1" None None 0)).1.

(** A room in which the resistance has already won three missions and four
    proposals were rejected since: five players join, three missions
    resolve without a sabotage, four tallies find no approval. *)
Definition room_after_three_successes : Room :=
  let won :=
    (resolveMission newHookManager 8
       (resolveMission newHookManager 7
          (resolveMission newHookManager 6 five_players).1).1).1 in
  (run [(TallyVotes, 9); (TallyVotes, 10); (TallyVotes, 11); (TallyVotes, 12)] won).1.

Definition everyone_votes (approve : bool) (now : nat) : list (Call * nat) :=
  [(SubmitVote "s1" approve, now); (SubmitVote "s2" approve, now);
   (SubmitVote "s3" approve, now); (SubmitVote "s4" approve, now);
   (SubmitVote "s5" approve, now)].

Definition proposal (approve : bool) (now : nat) : list (Call * nat) :=
  (SelectTeam ["s1"; "s2"], now) :: everyone_votes approve now ++ [(TallyVotes, now)].

(** One rejected proposal, one approved, four more rejected. *)
Definition cumulative_scenario : list (Call * nat) :=
  proposal false 10 ++ proposal true 20 ++ proposal false 30 ++
  proposal false 40 ++ proposal false 50 ++ proposal false 60.

(** The [mission:resolve] callback of the merlin-assassin expansion: three
    succeeded missions turn a tentative [GAME_OVER] into [ASSASSINATION]. *)
Definition merlinAssassin_missionResolve : RoomCallback :=
  λ context r,
    (r, Normal (if bool_decide (3 ≤ succeededMissions r)
                   && bool_decide (nextPhase context = Some "GAME_OVER")
                then mkCtx (result context) (Some "ASSASSINATION")
                           (stopPropagation context)
                else context)).

(** A callback that fails. *)
Definition failing_callback : RoomCallback :=
  λ context r, (r, Throw "Error").

(** A mission under way: the team of [s1] and [s2] was approved, [s1]
    played a success and [s2] a sabotage. *)
Definition mission_under_way : Room :=
  (run (proposal true 10 ++
        [(SubmitMissionAction "s1" true, 11); (SubmitMissionAction "s2" false, 12)])
       five_players).1.




Definition merlin_hooks : HookManager :=
  register "mission:resolve" merlinAssassin_missionResolve newHookManager.

(** Twenty-one players join, one more than the table of team sizes
    covers. *)
Definition crowded_room : Room :=
  (run ((λ sid, (AddPlayer sid sid None, 1)) <$>
          [ "a1"; "a2"; "a3"; "a4"; "a5"; "a6"; "a7"; "a8"; "a9"; "a10"; "a11";
            "a12"; "a13"; "a14"; "a15"; "a16"; "a17"; "a18"; "a19"; "a20"; "a21" ])
       (newRoom "ROOM5" None None 0)).1.

(** Three players join and the lead passes on twice: the last player of
    the roster leads. *)
Definition three_players_last_leads : Room :=
  (run [(AddPlayer "s1" "Ann" (Some "p1"), 1); (AddPlayer "s2" "Bob" (Some "p2"), 2);
        (AddPlayer "s3" "Cid" (Some "p3"), 3); (NextTurn, 4); (NextTurn, 5)]
       (newRoom "ROOM3" None None 0)).1.

(** The mission under way, with two votes of a further proposal recorded. *)
Definition votes_and_actions_recorded : Room :=
  (run [(SubmitVote "s1" true, 13); (SubmitVote "s2" false, 14)] mission_under_way).1.

(** ** Room.ts: votes as the clients see them *)

(** The callback of the [forEach] of [getRevealedVotes], on the entry
    [(playerId, approve)]. [revealed] is an object literal, held here by
    its own properties: [revealed[socketId] = approve] adds or overwrites
    an own property, unless the key is [__proto__], which is the accessor
    of [Object.prototype], whose setter ignores a boolean. A later vote
    that resolves to the same socket id overwrites. *)
Definition reveal_step (r : Room) (revealed : gmap string bool)
    (entry : string * bool) : gmap string bool :=
  match getSocketIdFromPlayerId entry.1 r with
  | Some socketId =>
      if truthy socketId then
        if decide (socketId = "__proto__") then revealed
        else <[socketId := entry.2]> revealed
      else revealed
  | None => revealed
  end.

(** The own properties of the object that [getRevealedVotes] returns. *)
Definition getRevealedVotes (r : Room) : gmap string bool :=
  foldl (reveal_step r) ∅ (votes r).

(** ** constants.ts: the number of spies *)

Definition SPY_COUNT : gmap nat nat :=
  list_to_map
    [ (1, 0); (2, 1); (3, 1); (4, 1); (5, 2); (6, 2); (7, 3); (8, 3);
      (9, 3); (10, 4); (11, 4); (12, 4); (13, 5); (14, 5); (15, 5);
      (16, 6); (17, 6); (18, 6); (19, 7); (20, 7) ].

(** ** Room.ts: the base roles *)

Definition set_role (v : option Role) (p : Player) : Player :=
  {| p_id := p_id p; playerId := playerId p; nickname := nickname p;
     role := v; specialRole := specialRole p; isLeader := isLeader p |}.

Definition set_specialRole (v : option SpecialRole) (p : Player) : Player :=
  {| p_id := p_id p; playerId := playerId p; nickname := nickname p;
     role := role p; specialRole := v; isLeader := isLeader p |}.

(** [SPY_COUNT[playerCount] || Math.ceil(playerCount / 3)]: the entry [0]
    of the table is falsy and gives way to the fallback. *)
Definition spyCountOf (playerCount : nat) : nat :=
  match SPY_COUNT !! playerCount with
  | Some (S n) => S n
  | _ => (playerCount + 2) / 3
  end.

Arguments spyCountOf : simpl never.

(** The statements of [assignRoles] that precede its [await]. [shuffled]
    is the outcome of the random sort of a copy of the roster, given as the
    roster positions of the players in shuffled order; the player objects
    are shared with the roster, so the assignment to [player.role] shows
    there. *)
Definition assignBaseRoles (shuffled : list nat) (r : Room) : Room :=
  let spyCount := spyCountOf (length (players r)) in
  set_players
    (foldl (λ ps '(index, position),
              alter (λ player,
                       set_specialRole None
                         (set_role (Some (if bool_decide (index < spyCount)
                                          then SPY else RESISTANCE)) player))
                    position ps)
           (players r) (imap pair shuffled))
    r.

(** ** expansions/merlin-assassin *)

(** Roster positions of the players that satisfy [test]:
    [room.players.filter(test)], whose objects are those of the roster. *)
Definition positions (test : Player → bool) (ps : list Player) : list nat :=
  (filter (λ ip, test ip.2 = true) (imap pair ps)).*1.

(** [if (group.length > 0) { group[idx].specialRole = special }] *)
Definition assignSpecial (group : list nat) (idx : nat) (special : SpecialRole)
    : Eff Room unit :=
  if decide (0 < length group)%nat then
    match group !! idx with
    | Some position =>
        eff_modify (λ r, set_players
                           (alter (set_specialRole (Some special)) position (players r)) r)
    | None => eff_throw "TypeError"
    end
  else eff_ret tt.

(** The callback of [roles:assign]; [merlinIdx] and [assassinIdx] are the
    outcomes of the two random draws. Both filters are computed before the
    assignments. *)
Definition merlinAssassin_rolesAssign (merlinIdx assassinIdx : nat)
    : RoomCallback :=
  λ context r,
    let spies := positions (λ p, bool_decide (role p = Some SPY)) (players r) in
    let resistance :=
      positions (λ p, bool_decide (role p = Some RESISTANCE)) (players r) in
    (assignSpecial resistance merlinIdx MERLIN ;;
     assignSpecial spies assassinIdx ASSASSIN ;;
     eff_ret context)%eff r.

(** ** expansions/inquisidor *)

(** The callback of [mission:resolve]. *)
Definition inquisitor_missionResolve : RoomCallback :=
  λ context r,
    (r, Normal (if bool_decide (nextPhase context ≠ Some "GAME_OVER")
                   && bool_decide (nextPhase context ≠ Some "ASSASSINATION")
                then mkCtx (result context) (Some "INQUISITOR_INVESTIGATION")
                           (stopPropagation context)
                else context)).

Record Investigation : Type := mkInvestigation {
  investigator : string;
  target : string;
  timestamp : nat;
}.

(** [room.inquisitorState], which holds player ids. *)
Record InquisitorState : Type := mkInquisitorState {
  tokenHolder : string;
  lastInvestigated : option string;
  investigationHistory : list Investigation;
}.

(** The callback of [game:start] sets [room.inquisitorState]; [randomIdx]
    is the outcome of the random draw. An index without a player raises a
    [TypeError] before the assignment. *)
Definition inquisitor_gameStart (randomIdx : nat) (r : Room)
    : completion InquisitorState :=
  match players r !! randomIdx with
  | Some initialHolder => Normal (mkInquisitorState (playerId initialHolder) None [])
  | None => Throw "TypeError"
  end.

(** What the handler of [inquisitor:investigate] sends to the
    investigator. *)
Record InvestigationResult : Type := mkInvestigationResult {
  ir_targetId : string;
  ir_targetNickname : string;
  ir_role : option Role;
  ir_specialRole : option SpecialRole;
}.

(** The ways the handler returns: the five refusals, in the order of the
    checks, and the investigation. *)
Inductive InvestigateOutcome : Type :=
  | NoInquisitorState
  | InvestigatorNotFound
  | NotTokenHolder
  | TargetNotFound
  | CannotInvestigateSelf
  | CannotInvestigateConsecutively
  | Investigated (res : InvestigationResult).

(** The handler of [inquisitor:investigate] on the socket [socketId]. *)
Definition inquisitor_investigate (socketId targetId : string) (now : nat)
    (r : Room) (st : option InquisitorState)
    : option InquisitorState * InvestigateOutcome :=
  match st with
  | None => (st, NoInquisitorState)
  | Some s =>
      match getPlayer socketId r with
      | None => (st, InvestigatorNotFound)
      | Some inv =>
          if decide (tokenHolder s ≠ playerId inv) then (st, NotTokenHolder)
          else
            match getPlayer targetId r with
            | None => (st, TargetNotFound)
            | Some tgt =>
                if decide (playerId tgt = playerId inv)
                then (st, CannotInvestigateSelf)
                else if decide (lastInvestigated s = Some (playerId tgt))
                then (st, CannotInvestigateConsecutively)
                else
                  (Some (mkInquisitorState (playerId tgt) (Some (playerId tgt))
                           (investigationHistory s ++
                              [mkInvestigation (playerId inv) (playerId tgt) now])),
                   Investigated
                     (mkInvestigationResult (p_id tgt) (nickname tgt) (role tgt)
                        (specialRole tgt)))
            end
      end
  end.

(** The handler of [inquisitor:end-investigation]. *)
Definition inquisitor_endInvestigation (now : nat) : Eff Room unit :=
  (let! r := eff_get in
   if decide (phase r = "INQUISITOR_INVESTIGATION") then
     if decide (3 ≤ succeededMissions r)%nat then eff_modify (set_phase "GAME_OVER")
     else if decide (3 ≤ failedMissions r)%nat then eff_modify (set_phase "GAME_OVER")
     else nextTurn now
   else eff_ret tt)%eff.

(** A sequence of investigations, each on the room as it is when the
    request arrives. *)
Fixpoint investigations (reqs : list (string * string * nat * Room))
    (st : option InquisitorState) : option InquisitorState * list InvestigateOutcome :=
  match reqs with
  | [] => (st, [])
  | (socketId, targetId, now, r) :: reqs' =>
      let '(st1, o) := inquisitor_investigate socketId targetId now r st in
      let '(st2, os) := investigations reqs' st1 in
      (st2, o :: os)
  end.

(** The history reads as a chain from [holder]: every investigation is
    made by the holder of the token, on another player, who holds the token
    next. *)
Fixpoint token_chain (holder : string) (history : list Investigation) : Prop :=
  match history with
  | [] => True
  | entry :: rest =>
      investigator entry = holder ∧ target entry ≠ holder ∧
      token_chain (target entry) rest
  end.

(** ** hooks/HookManager.ts: the loop of [trigger], with its exit *)

Section HookLoop.
Context {W Ctx : Type} (stops : Ctx → W → bool).

(** The loop of [trigger], returning besides [result] whether it was left
    by the [break]. *)
Fixpoint for_callbacks_break (callbacks : list (@HookCallback W Ctx)) (result : Ctx)
    : Eff W (Ctx * bool) :=
  match callbacks with
  | [] => eff_ret (result, false)
  | callback :: rest =>
      (let! step := callback_step stops callback result in
       if step.2 then eff_ret (step.1, true) else for_callbacks_break rest step.1)%eff
  end.
End HookLoop.

(** The five players with their roles dealt: [s1] and [s4] are the spies,
    [s4] the assassin, and [s3] is Merlin. *)
Definition roles_dealt : Room :=
  (merlinAssassin_rolesAssign 1 1 (mkCtx None None false)
     (assignBaseRoles [3; 0; 4; 1; 2] five_players)).1.

(** ** expansions/merlin-assassin, expansions/blind-spies *)

(** [merlinIdx] and [assassinIdx] are the two draws of a run of the
    callback of [roles:assign]. *)
Definition MerlinAssassinExpansion (merlinIdx assassinIdx : nat) : ExpansionPlugin :=
  {| ex_id := "merlin-assassin"; ex_name := "Merlin & Assassin";
     ex_version := "1.0.0";
     install := λ hookManager,
       registerSync "state:sync" merlinAssassin_stateSync
         (registerRoom "mission:resolve" merlinAssassin_missionResolve
            (registerRoom "roles:assign"
               (merlinAssassin_rolesAssign merlinIdx assassinIdx) hookManager)) |}.

Definition BlindSpiesExpansion : ExpansionPlugin :=
  {| ex_id := "blind-spies"; ex_name := "Espiões Cegos"; ex_version := "1.0.0";
     install := registerSync "state:sync" blindSpies_stateSync |}.

(** The table of [expansions/index.ts] without its third entry, the
    inquisitor, whose callbacks keep their state in a map of their module,
    outside the room. *)
Definition example_expansions : gmap string ExpansionPlugin :=
  {[ "merlin-assassin" := MerlinAssassinExpansion 1 1;
     "blind-spies" := BlindSpiesExpansion ]}.

(** * Properties *)

(** ** Leadership rotation *)

Lemma updateLeader_voteRejections now r :
  voteRejections (updateLeader now r).1 = voteRejections r.
Proof.
  unfold updateLeader. simpl.
  destruct (currentLeaderIndex r) as [n|]; [|reflexivity].
  destruct (_ !! n); reflexivity.
Qed.

Lemma updateLeader_in_range now r n :
  currentLeaderIndex r = Idx n → n < length (players r) →
  ∃ p, (set_isLeader false <$> players r) !! n = Some p ∧
       updateLeader now r =
         (set_lastActivityAt now
            (set_players (<[n := set_isLeader true p]> (set_isLeader false <$> players r)) r),
          Normal tt).
Proof.
  intros Hi Hn. unfold updateLeader. simpl. rewrite Hi.
  destruct ((set_isLeader false <$> players r) !! n) as [p|] eqn:Hp.
  - exists p. split; reflexivity.
  - apply lookup_ge_None in Hp. rewrite length_fmap in Hp. lia.
Qed.

Lemma updateLeader_out_of_range now r :
  js_index (players r) (currentLeaderIndex r) = None →
  updateLeader now r =
    (set_players (set_isLeader false <$> players r) r, Throw "TypeError").
Proof.
  intros Hi. unfold updateLeader. simpl.
  destruct (currentLeaderIndex r) as [n|]; [|reflexivity].
  simpl in Hi. rewrite list_lookup_fmap, Hi. reflexivity.
Qed.

(** [nextTurn] on a non-empty roster returns, and the leader it picks is a
    position of the roster. *)
Lemma nextTurn_returns now r :
  players r ≠ [] → (∃ n, currentLeaderIndex r = Idx n) →
  ∃ r', nextTurn now r = (r', Normal tt) ∧
        length (players r') = length (players r) ∧
        leaderInBounds r' ∧
        phase r' = "TEAM_SELECTION" ∧ selectedTeam r' = [] ∧ votes r' = [] ∧
        voteRejections r' = voteRejections r.
Proof.
  intros Hne [n Hn].
  assert (Hlen : length (players r) ≠ 0) by (destruct (players r); simpl; done).
  set (r1 := set_currentLeaderIndex (js_succ_mod (currentLeaderIndex r) (length (players r))) r).
  assert (Hidx : currentLeaderIndex r1 = Idx ((n + 1) mod length (players r))).
  { unfold r1. simpl. rewrite Hn. simpl. rewrite decide_False by done. reflexivity. }
  assert (Hlt : (n + 1) mod length (players r) < length (players r1)).
  { unfold r1. simpl. apply Nat.mod_upper_bound. done. }
  destruct (updateLeader_in_range now r1 _ Hidx Hlt) as (p & Hp & Hupd).
  eexists. split.
  - unfold nextTurn, eff_bind, eff_modify. fold r1. rewrite Hupd. reflexivity.
  - subst r1. simpl. rewrite length_insert, length_fmap.
    repeat split; try reflexivity.
    intros _. rewrite Hn. simpl. rewrite decide_False by done.
    eexists. split; [reflexivity|].
    rewrite length_insert, length_fmap. simpl in Hlt. exact Hlt.
Qed.

(** On an empty roster [nextTurn] throws: [(i + 1) % 0] is [NaN] and
    [players[NaN]] is [undefined]. The streak is left as it was. *)
Lemma nextTurn_empty_roster now r :
  players r = [] →
  ∃ r', nextTurn now r = (r', Throw "TypeError") ∧
        currentLeaderIndex r' = NaN ∧ players r' = [].
Proof.
  intros He. eexists. split.
  - unfold nextTurn, eff_bind, eff_modify.
    rewrite updateLeader_out_of_range; [reflexivity|].
    simpl. rewrite He. destruct (js_succ_mod _ _); reflexivity.
  - simpl. rewrite He. simpl. split; [|reflexivity].
    destruct (currentLeaderIndex r); reflexivity.
Qed.

Lemma nextTurn_voteRejections now r :
  voteRejections (nextTurn now r).1 = voteRejections r.
Proof.
  unfold nextTurn, eff_bind, eff_modify.
  match goal with |- context [updateLeader now ?x] =>
    pose proof (updateLeader_voteRejections now x) as H;
    destruct (updateLeader now x) as [r2 [[]|e]] end; simpl in *; exact H.
Qed.

(** ** tallyVotes *)

Ltac unfold_eff := unfold eff_bind, eff_get, eff_modify, eff_ret, eff_throw.

Lemma tallyVotes_approved now r :
  tallyApproves r = true →
  tallyVotes now r =
    (set_lastActivityAt now (set_votes JsMap.empty (set_phase "MISSION" r)),
     Normal (mkTally true (countVotes (votes r)).1 (countVotes (votes r)).2 false)).
Proof.
  unfold tallyApproves, tallyVotes. unfold_eff. intros Ha.
  destruct (countVotes (votes r)) as [a rj]. simpl in *.
  rewrite Ha. reflexivity.
Qed.

Lemma tallyVotes_penalty now r :
  tallyApproves r = false → MAX_REJECTIONS ≤ S (voteRejections r) →
  tallyVotes now r =
    (set_lastActivityAt now (set_votes JsMap.empty (set_voteRejections 0
       (set_phase "GAME_OVER" (set_failedMissions MISSIONS_TO_FAIL
          (set_voteRejections (S (voteRejections r)) r))))),
     Normal (mkTally false (countVotes (votes r)).1 (countVotes (votes r)).2 true)).
Proof.
  unfold tallyApproves, tallyVotes. unfold_eff. intros Ha Hmax.
  destruct (countVotes (votes r)) as [a rj]. simpl in *.
  rewrite Ha. simpl. rewrite decide_True by exact Hmax. reflexivity.
Qed.

Lemma tallyVotes_rejected now r :
  tallyApproves r = false → S (voteRejections r) < MAX_REJECTIONS →
  tallyVotes now r =
    match nextTurn now (set_voteRejections (S (voteRejections r)) r) with
    | (r2, Normal _) =>
        (set_lastActivityAt now (set_votes JsMap.empty r2),
         Normal (mkTally false (countVotes (votes r)).1 (countVotes (votes r)).2 false))
    | (r2, Throw e) => (r2, Throw e)
    end.
Proof.
  unfold tallyApproves, tallyVotes. unfold_eff. intros Ha Hmax.
  destruct (countVotes (votes r)) as [a rj]. simpl in *.
  rewrite Ha. simpl. rewrite decide_False by lia.
  destruct (nextTurn now _) as [r2 [[]|e]]; reflexivity.
Qed.

(** Whether it returns or throws, [tallyVotes] moves the streak as
    [streak_step] says, and it reports the penalty exactly when
    [streak_step] applies it. *)
Lemma tallyVotes_streak now r :
  voteRejections (tallyVotes now r).1
    = (streak_step (voteRejections r) (tallyApproves r)).1 ∧
  match (tallyVotes now r).2 with
  | Normal t =>
      approved t = tallyApproves r ∧
      penaltyApplied t = (streak_step (voteRejections r) (tallyApproves r)).2
  | Throw _ => (streak_step (voteRejections r) (tallyApproves r)).2 = false
  end.
Proof.
  unfold streak_step. destruct (tallyApproves r) eqn:Ha.
  - rewrite tallyVotes_approved by done. simpl. done.
  - destruct (decide (MAX_REJECTIONS ≤ S (voteRejections r))) as [Hmax|Hmax].
    + rewrite tallyVotes_penalty by done. simpl. done.
    + rewrite tallyVotes_rejected by (done || lia).
      pose proof (nextTurn_voteRejections now
                    (set_voteRejections (S (voteRejections r)) r)) as Hv.
      destruct (nextTurn now _) as [r2 [[]|e]]; simpl in *; done.
Qed.

(** C1, counterexample: the streak stands at [MAX_REJECTIONS - 1], the
    recorded votes lack a majority, the tally applies the penalty and ends
    the game, and yet [getWinner] answers [RESISTANCE], because three
    missions had succeeded. *)
Lemma tallyVotes_penalty_winner_counterexample :
  voteRejections room_after_three_successes = MAX_REJECTIONS - 1 ∧
  tallyApproves room_after_three_successes = false ∧
  ∃ r' t, tallyVotes 13 room_after_three_successes = (r', Normal t) ∧
          penaltyApplied t = true ∧ phase r' = "GAME_OVER" ∧
          voteRejections r' = 0 ∧
          getWinner r' = Some RESISTANCE ∧ getWinner r' ≠ Some SPY.
Proof.
  split; [vm_compute; reflexivity|]. split; [vm_compute; reflexivity|].
  eexists _, _. split; [vm_compute; reflexivity|].
  repeat split; try (vm_compute; reflexivity). vm_compute. discriminate.
Qed.

(** C1, amended: in a room whose rejection streak stands one below
    [MAX_REJECTIONS] and in which fewer than [MISSIONS_TO_SUCCEED] missions
    have succeeded, a [tallyVotes] call whose recorded votes lack a strict
    approval majority returns [penaltyApplied = true], sets the phase to
    [GAME_OVER], makes [getWinner()] return [SPY] and resets the streak
    to 0. *)
Theorem tallyVotes_last_rejection_ends_game (now : nat) (r : Room) :
  voteRejections r = MAX_REJECTIONS - 1 →
  tallyApproves r = false →
  succeededMissions r < MISSIONS_TO_SUCCEED →
  ∃ r' t, tallyVotes now r = (r', Normal t) ∧
          penaltyApplied t = true ∧
          phase r' = "GAME_OVER" ∧
          getWinner r' = Some SPY ∧
          voteRejections r' = 0.
Proof.
  intros Hs Ha Hsucc.
  eexists _, _. split.
  - apply tallyVotes_penalty; [exact Ha|]. rewrite Hs. reflexivity.
  - repeat split; try reflexivity.
    unfold getWinner. simpl.
    destruct (match assassinationTarget r with Some _ => _ | None => _ end);
      [reflexivity|].
    rewrite decide_False by lia. reflexivity.
Qed.

Lemma tallyVotes_last_rejection_ends_game_witness :
  ∃ r' t,
    tallyVotes 7 (set_voteRejections 4
                    (submitVote "s1" false 6
                       (addPlayer "s1" "Ann" (Some "p1") 5
                          (newRoom "ROOM1" None None 0)).1))
      = (r', Normal t) ∧
    penaltyApplied t = true ∧ phase r' = "GAME_OVER" ∧
    getWinner r' = Some SPY ∧ voteRejections r' = 0.
Proof.
  apply tallyVotes_last_rejection_ends_game.
  - reflexivity.
  - reflexivity.
  - vm_compute. lia.
Defined.

(** ** The rejection streak along a run *)

(** No call but [tallyVotes] writes [voteRejections]. *)
Lemma call_keeps_streak c now r :
  c ≠ TallyVotes → voteRejections (call c now r).1 = voteRejections r.
Proof.
  intros Hc. destruct c; simpl; try reflexivity; try done.
  - unfold reconnectPlayer. destruct (list_find _ _) as [[i p]|]; reflexivity.
  - apply nextTurn_voteRejections.
  - unfold selectTeam. destruct (decide _); [reflexivity|].
    destruct (mapM _ _); reflexivity.
  - unfold submitVote. destruct (getPlayerIdFromSocket _ _) as [pid|]; [|reflexivity].
    destruct (truthy pid); reflexivity.
  - unfold submitMissionAction.
    destruct (getPlayerIdFromSocket _ _) as [pid|]; [|reflexivity].
    destruct (negb (truthy pid)); [reflexivity|].
    destruct (negb _); reflexivity.
Qed.

Lemma call_streak_step c now r :
  voteRejections (call c now r).1 =
    match c with
    | TallyVotes => (streak_step (voteRejections r) (tallyApproves r)).1
    | _ => voteRejections r
    end.
Proof.
  destruct c; try (apply call_keeps_streak; discriminate).
  simpl. apply tallyVotes_streak.
Qed.

Lemma run_streak cs : ∀ r,
  voteRejections (run cs r).1 = (streak_run (voteRejections r) (verdicts cs r)).1 ∧
  penalties cs r = (streak_run (voteRejections r) (verdicts cs r)).2.
Proof.
  induction cs as [|[c now] cs IH]; intros r; [done|].
  specialize (IH (call c now r).1).
  pose proof (call_streak_step c now r) as Hstep.
  simpl run. simpl verdicts. simpl penalties.
  destruct (call c now r) as [r1 o] eqn:Hcall. simpl in IH, Hstep.
  destruct (run cs r1) as [r2 os] eqn:Hrun. simpl in IH. simpl.
  assert (Hother : c ≠ TallyVotes →
            voteRejections r2 = (streak_run (voteRejections r) (verdicts cs r1)).1 ∧
            penalties cs r1 = (streak_run (voteRejections r) (verdicts cs r1)).2).
  { intros Hc. destruct c; try done; rewrite <- Hstep; exact IH. }
  destruct c; try (destruct o; apply Hother; discriminate).
  pose proof (tallyVotes_streak now r) as [_ Hres].
  simpl in Hcall. destruct (tallyVotes now r) as [r1' [t|e]] eqn:Ht;
    simpl in Hcall; injection Hcall as <- <-; simpl in Hres.
  - destruct Hres as [_ Hpen]. simpl.
    destruct (streak_step (voteRejections r) (tallyApproves r)) as [s1 pen].
    simpl in *. subst.
    destruct (streak_run (voteRejections r1') (verdicts cs r1')) as [s2 pens].
    simpl in *. destruct IH as [-> ->]. done.
  - simpl.
    destruct (streak_step (voteRejections r) (tallyApproves r)) as [s1 pen].
    simpl in *. subst.
    destruct (streak_run (voteRejections r1') (verdicts cs r1')) as [s2 pens].
    simpl in *. destruct IH as [-> ->]. done.
Qed.

(** C2: the rejection streak is cumulative. Along every sequence of calls
    the streak is the one the specification describes ([streak_run]): an
    approved tally leaves it as it is, a rejected tally adds one, and the
    tally that reaches [MAX_REJECTIONS] reports the penalty and clears it.
    Hence a run whose tallies are rejected, approved, then rejected four
    more times applies the penalty at the last of them; and a call brings a
    non-zero streak back to 0 only if it is the tally that applies the
    penalty. *)
Theorem rejection_streak_cumulative :
  (∀ cs r,
     voteRejections (run cs r).1
       = (streak_run (voteRejections r) (verdicts cs r)).1 ∧
     penalties cs r = (streak_run (voteRejections r) (verdicts cs r)).2) ∧
  (∀ now r,
     tallyApproves r = true →
     voteRejections (tallyVotes now r).1 = voteRejections r) ∧
  (∀ cs r,
     voteRejections r = 0 →
     verdicts cs r = [false; true; false; false; false; false] →
     penalties cs r = [false; false; false; false; false; true]) ∧
  (∀ c now r,
     voteRejections r ≠ 0 →
     voteRejections (call c now r).1 = 0 →
     c = TallyVotes ∧
     ∃ t, (tallyVotes now r).2 = Normal t ∧ penaltyApplied t = true).
Proof.
  split; [intros; apply run_streak|]. split; [|split].
  - intros now r Ha. rewrite tallyVotes_approved by exact Ha. reflexivity.
  - intros cs r H0 Hv. destruct (run_streak cs r) as [_ ->].
    rewrite H0, Hv. reflexivity.
  - intros c now r Hnz Hz.
    destruct (decide (c = TallyVotes)) as [->|Hc].
    + split; [reflexivity|].
      pose proof (tallyVotes_streak now r) as [Hs Hres].
      simpl in Hz. 
      assert (Hz' : voteRejections (tallyVotes now r).1 = 0).
      { destruct (tallyVotes now r); exact Hz. }
      rewrite Hs in Hz'. unfold streak_step in *.
      destruct (tallyApproves r); [simpl in Hz'; done|].
      destruct (decide (MAX_REJECTIONS ≤ S (voteRejections r))); [|simpl in Hz'; done].
      simpl in Hres. destruct ((tallyVotes now r).2) as [t|e]; [|done].
      exists t. split; [reflexivity|apply Hres].
    + rewrite call_keeps_streak in Hz by exact Hc. done.
Qed.

Lemma cumulative_scenario_penalty_witness :
  penalties cumulative_scenario five_players
    = [false; false; false; false; false; true].
Proof.
  apply (proj1 (proj2 (proj2 rejection_streak_cumulative))).
  - vm_compute. reflexivity.
  - vm_compute. reflexivity.
Defined.

(** ** Hook managers of the rooms of a registry *)

Section GameManagerFacts.
Variable AVAILABLE_EXPANSIONS : gmap string ExpansionPlugin.

Lemma js_member_Own {A} (own : gmap string A) key a :
  js_member own key = Own a ↔ own !! key = Some a.
Proof.
  unfold js_member. destruct (own !! key) as [a'|].
  - split; intros Heq; congruence.
  - case_decide; split; intros Heq; congruence.
Qed.

Lemma js_member_not_Own {A} (own : gmap string A) key :
  (∀ a, js_member own key ≠ Own a) → own !! key = None.
Proof.
  intros Hno. destruct (own !! key) as [a|] eqn:Hown; [|done].
  exfalso. apply (Hno a). apply js_member_Own. done.
Qed.

(** On the hook manager allocated last, [installExpansions] registers what
    the plugins named register, in the order of the ids, and stops at the
    first id that names a member of [Object.prototype]. *)
Lemma installExpansions_last ids : ∀ store hooks,
  ∃ hooks',
    (installExpansions AVAILABLE_EXPANSIONS ids (length store) (store ++ [hooks])).1
      = store ++ [hooks'] ∧
    match (installExpansions AVAILABLE_EXPANSIONS ids (length store)
             (store ++ [hooks])).2 with
    | Normal _ =>
        Forall (λ id, js_member AVAILABLE_EXPANSIONS id ≠ Inherited) ids ∧
        hooks' = foldl (λ hooks id,
                          match AVAILABLE_EXPANSIONS !! id with
                          | Some expansion => install expansion hooks
                          | None => hooks
                          end) hooks ids
    | Throw error =>
        error = "TypeError" ∧
        Exists (λ id, js_member AVAILABLE_EXPANSIONS id = Inherited) ids
    end.
Proof.
  induction ids as [|id ids IH]; intros store hooks.
  - exists hooks. split; [done|]. split; [constructor|done].
  - cbn [installExpansions]. unfold eff_bind, installExpansion.
    destruct (js_member AVAILABLE_EXPANSIONS id) as [expansion| |] eqn:Hm.
    + apply js_member_Own in Hm as Hown.
      unfold eff_modify.
      replace (alter (install expansion) (length store) (store ++ [hooks]))
        with (store ++ [install expansion hooks])
        by (rewrite alter_app_r_alt by lia; rewrite Nat.sub_diag; done).
      cbv beta iota.
      destruct (IH store (install expansion hooks)) as (hooks' & Hst & Hres).
      exists hooks'. split; [exact Hst|].
      destruct (installExpansions AVAILABLE_EXPANSIONS ids (length store)
                  (store ++ [install expansion hooks])) as [st [[]|error]];
        simpl in *.
      * destruct Hres as [Hall ->]. split.
        -- constructor; [congruence|exact Hall].
        -- rewrite Hown. done.
      * destruct Hres as [-> Hex]. split; [done|]. apply Exists_cons_tl. exact Hex.
    + exists hooks. unfold eff_throw. simpl. split; [done|]. split; [done|].
      apply Exists_cons_hd. exact Hm.
    + assert (Hnone : AVAILABLE_EXPANSIONS !! id = None).
      { apply js_member_not_Own. intros a. congruence. }
      unfold eff_ret. cbv beta iota.
      destruct (IH store hooks) as (hooks' & Hst & Hres).
      exists hooks'. split; [exact Hst|].
      destruct (installExpansions AVAILABLE_EXPANSIONS ids (length store)
                  (store ++ [hooks])) as [st [[]|error]]; simpl in *.
      * destruct Hres as [Hall ->]. split.
        -- constructor; [congruence|exact Hall].
        -- rewrite Hnone. done.
      * destruct Hres as [-> Hex]. split; [done|]. apply Exists_cons_tl. exact Hex.
Qed.

(** The two outcomes of [createRoom]. *)
Lemma createRoom_outcome roomId minP exps now gm store :
  ∃ hooks',
    (createRoom AVAILABLE_EXPANSIONS roomId minP exps now (gm, store)).1.2
      = store ++ [hooks'] ∧
    match (createRoom AVAILABLE_EXPANSIONS roomId minP exps now (gm, store)).2 with
    | Normal s =>
        Forall (λ id, js_member AVAILABLE_EXPANSIONS id ≠ Inherited)
               (default [] exps) ∧
        hooks' = installedBy AVAILABLE_EXPANSIONS (default [] exps) ∧
        s = mkSession (newRoom roomId minP exps now) (length store) ∧
        (createRoom AVAILABLE_EXPANSIONS roomId minP exps now (gm, store)).1.1
          = mkGameManager (<[roomId := s]> (rooms gm))
    | Throw error =>
        error = "TypeError" ∧
        Exists (λ id, js_member AVAILABLE_EXPANSIONS id = Inherited)
               (default [] exps) ∧
        (createRoom AVAILABLE_EXPANSIONS roomId minP exps now (gm, store)).1.1 = gm
    end.
Proof.
  unfold createRoom, installedBy.
  destruct exps as [ids|]; cbn [default].
  - case_decide as Hlen.
    + destruct (installExpansions_last ids store newHooks) as (hooks' & Hst & Hres).
      destruct (installExpansions AVAILABLE_EXPANSIONS ids (length store)
                  (store ++ [newHooks])) as [st [[]|error]]; simpl in *.
      * exists hooks'. destruct Hres as [Hall ->]. done.
      * exists hooks'. destruct Hres as [-> Hex]. done.
    + destruct ids; [|simpl in Hlen; lia]. exists newHooks. simpl.
      split; [done|]. split; [constructor|done].
  - exists newHooks. simpl. split; [done|]. split; [constructor|done].
Qed.

Lemma createRoom_returns roomId minP exps now gm store gm' store' s :
  createRoom AVAILABLE_EXPANSIONS roomId minP exps now (gm, store)
    = ((gm', store'), Normal s) →
  store' = store ++ [installedBy AVAILABLE_EXPANSIONS (default [] exps)] ∧
  s = mkSession (newRoom roomId minP exps now) (length store) ∧
  gm' = mkGameManager (<[roomId := s]> (rooms gm)) ∧
  Forall (λ id, js_member AVAILABLE_EXPANSIONS id ≠ Inherited) (default [] exps).
Proof.
  intros Hc.
  destruct (createRoom_outcome roomId minP exps now gm store) as (hooks' & Hst & Hres).
  rewrite Hc in Hst, Hres. simpl in Hst, Hres.
  destruct Hres as (Hall & -> & Hs & Hgm). done.
Qed.

Lemma store_extends_refl store : store_extends store store.
Proof. split; [lia|done]. Qed.

Lemma store_extends_trans s1 s2 s3 :
  store_extends s1 s2 → store_extends s2 s3 → store_extends s1 s3.
Proof.
  intros [Hl1 H1] [Hl2 H2]. split; [lia|].
  intros loc Hloc. rewrite H2 by lia. apply H1. exact Hloc.
Qed.

Lemma store_extends_snoc store hooks : store_extends store (store ++ [hooks]).
Proof.
  split; [rewrite length_app; simpl; lia|].
  intros loc Hloc. apply lookup_app_l. exact Hloc.
Qed.

Lemma gm_step_extends x y :
  gm_step AVAILABLE_EXPANSIONS x y → store_extends x.2 y.2.
Proof.
  destruct 1 as [roomId minP exps now [gm store]|roomId gm store].
  - destruct (createRoom_outcome roomId minP exps now gm store) as (hooks' & Hst & _).
    rewrite Hst. apply store_extends_snoc.
  - apply store_extends_refl.
Qed.

Lemma gm_steps_extend x y :
  rtc (gm_step AVAILABLE_EXPANSIONS) x y → store_extends x.2 y.2.
Proof.
  induction 1 as [x|x y z Hstep _ IH]; [apply store_extends_refl|].
  eapply store_extends_trans; [apply gm_step_extends; exact Hstep|exact IH].
Qed.

(** C3: hook pipelines are per session. Two rooms created by the registry,
    whatever the registry did in between, hold hook managers at distinct
    locations. After the second room is created, the hook manager of each
    room holds what the expansions of its own request register on an empty
    hook manager, and nothing else: the hook manager of the first room is
    as it was, and that of the second holds no callback of the first. So
    each room runs at every extension point, [state:sync] included, exactly
    the callbacks of its own expansions. *)
Theorem createRoom_hook_managers_isolated
    roomId1 minP1 exps1 now1 roomId2 minP2 exps2 now2
    gm0 store0 gm1 store1 s1 gm2 store2 gm3 store3 s2 :
  createRoom AVAILABLE_EXPANSIONS roomId1 minP1 exps1 now1 (gm0, store0)
    = ((gm1, store1), Normal s1) →
  rtc (gm_step AVAILABLE_EXPANSIONS) (gm1, store1) (gm2, store2) →
  createRoom AVAILABLE_EXPANSIONS roomId2 minP2 exps2 now2 (gm2, store2)
    = ((gm3, store3), Normal s2) →
  hookManager s1 ≠ hookManager s2 ∧
  store3 !! hookManager s1 = store1 !! hookManager s1 ∧
  store3 !! hookManager s1
    = Some (installedBy AVAILABLE_EXPANSIONS (default [] exps1)) ∧
  store3 !! hookManager s2
    = Some (installedBy AVAILABLE_EXPANSIONS (default [] exps2)) ∧
  (∀ hookName context,
     triggerOf store3 s1 hookName context = triggerOf store1 s1 hookName context ∧
     triggerOf store3 s1 hookName context
       = trigger readsStop
           (roomHooks (installedBy AVAILABLE_EXPANSIONS (default [] exps1)))
           hookName context ∧
     triggerOf store3 s2 hookName context
       = trigger readsStop
           (roomHooks (installedBy AVAILABLE_EXPANSIONS (default [] exps2)))
           hookName context) ∧
  (∀ hookName context,
     triggerSyncOf store3 s1 hookName context
       = triggerSyncOf store1 s1 hookName context ∧
     triggerSyncOf store3 s1 hookName context
       = trigger syncStops
           (syncHooks (installedBy AVAILABLE_EXPANSIONS (default [] exps1)))
           hookName context ∧
     triggerSyncOf store3 s2 hookName context
       = trigger syncStops
           (syncHooks (installedBy AVAILABLE_EXPANSIONS (default [] exps2)))
           hookName context) ∧
  (default [] exps2 = [] →
   ∀ hookName context w,
     triggerOf store3 s2 hookName context w = (w, Normal context)).
Proof.
  intros Hc1 Hsteps Hc2.
  apply createRoom_returns in Hc1 as (Hst1 & Hs1 & _ & _).
  apply createRoom_returns in Hc2 as (Hst3 & Hs2 & _ & _).
  apply gm_steps_extend in Hsteps. simpl in Hsteps.
  assert (Hl1 : hookManager s1 = length store0) by (rewrite Hs1; done).
  assert (Hl2 : hookManager s2 = length store2) by (rewrite Hs2; done).
  assert (Hlen1 : length store1 = S (length store0))
    by (rewrite Hst1, length_app; simpl; lia).
  destruct Hsteps as [Hlen12 Hsame12].
  assert (H11 : store1 !! hookManager s1
                = Some (installedBy AVAILABLE_EXPANSIONS (default [] exps1))).
  { rewrite Hl1, Hst1. rewrite lookup_app_r by lia. rewrite Nat.sub_diag. done. }
  assert (H31 : store3 !! hookManager s1 = store1 !! hookManager s1).
  { rewrite Hst3. rewrite lookup_app_l by lia. apply Hsame12. lia. }
  assert (H32 : store3 !! hookManager s2
                = Some (installedBy AVAILABLE_EXPANSIONS (default [] exps2))).
  { rewrite Hl2, Hst3. rewrite lookup_app_r by lia. rewrite Nat.sub_diag. done. }
  split; [lia|]. split; [exact H31|]. split; [congruence|]. split; [exact H32|].
  unfold triggerOf, triggerSyncOf, hooksOf.
  rewrite H32, H31, H11. cbn [default].
  split; [done|]. split; [done|].
  intros Hnone hookName context w. rewrite Hnone. reflexivity.
Qed.
End GameManagerFacts.

Lemma createRoom_hook_managers_isolated_witness :
  let first :=
    createRoom example_expansions "AAAAA" None
      (Some ["merlin-assassin"; "blind-spies"]) 1 (mkGameManager ∅, []) in
  let refused :=
    createRoom example_expansions "CCCCC" None
      (Some ["blind-spies"; "constructor"]) 2 first.1 in
  let second :=
    createRoom example_expansions "BBBBB" None (Some ["blind-spies"]) 3 refused.1 in
  (∃ s1 s2,
     first.2 = Normal s1 ∧ second.2 = Normal s2 ∧
     refused.2 = Throw "TypeError" ∧
     getCallbackCount "mission:resolve" (roomHooks (hooksOf second.1.2 s1)) = 1 ∧
     getCallbackCount "state:sync" (syncHooks (hooksOf second.1.2 s1)) = 2 ∧
     getCallbackCount "mission:resolve" (roomHooks (hooksOf second.1.2 s2)) = 0 ∧
     getCallbackCount "state:sync" (syncHooks (hooksOf second.1.2 s2)) = 1 ∧
     hookManager s1 ≠ hookManager s2 ∧
     second.1.2 !! hookManager s1
       = Some (installedBy example_expansions ["merlin-assassin"; "blind-spies"]) ∧
     second.1.2 !! hookManager s2
       = Some (installedBy example_expansions ["blind-spies"])).
Proof.
  intros first refused second.
  exists (mkSession (newRoom "AAAAA" None (Some ["merlin-assassin"; "blind-spies"]) 1) 0),
         (mkSession (newRoom "BBBBB" None (Some ["blind-spies"]) 3) 2).
  split; [reflexivity|]. split; [reflexivity|]. split; [reflexivity|].
  split; [reflexivity|]. split; [reflexivity|].
  split; [reflexivity|]. split; [reflexivity|].
  pose proof (createRoom_hook_managers_isolated example_expansions
           "AAAAA" None (Some ["merlin-assassin"; "blind-spies"]) 1
           "BBBBB" None (Some ["blind-spies"]) 3
           (mkGameManager ∅) [] first.1.1 first.1.2
           (mkSession (newRoom "AAAAA" None (Some ["merlin-assassin"; "blind-spies"]) 1) 0)
           refused.1.1 refused.1.2 second.1.1 second.1.2
           (mkSession (newRoom "BBBBB" None (Some ["blind-spies"]) 3) 2)
           eq_refl
           (rtc_once _ _ (step_create example_expansions "CCCCC" None
                            (Some ["blind-spies"; "constructor"]) 2 first.1))
           eq_refl) as (Hne & _ & H1 & H2 & _).
  exact (conj Hne (conj H1 H2)).
Defined.

(** ** Validation failures and the phase *)

Lemma getPlayer_None sid r :
  getPlayer sid r = None ↔ ∀ p, p ∈ players r → p_id p ≠ sid.
Proof.
  unfold getPlayer. split.
  - intros Hf p Hp Heq. apply list_elem_of_In in Hp.
    pose proof (find_none _ _ Hf p Hp) as Hn. simpl in Hn.
    apply bool_decide_eq_false in Hn. done.
  - intros Hall. destruct (find _ _) as [p|] eqn:Hf; [|reflexivity].
    apply find_some in Hf as [Hin Hp]. apply bool_decide_eq_true in Hp.
    apply list_elem_of_In in Hin. exfalso. exact (Hall p Hin Hp).
Qed.

Lemma getPlayer_Some sid r p :
  getPlayer sid r = Some p → p ∈ players r ∧ p_id p = sid.
Proof.
  unfold getPlayer. intros Hf. apply find_some in Hf as [Hin Hp].
  apply bool_decide_eq_true in Hp. apply list_elem_of_In in Hin. done.
Qed.

(** C4, counterexample: in phase [LOBBY], [selectTeam] with a right-sized
    team of known players returns [true] and moves the room to [VOTE], and
    [submitVote] records the vote. *)
Lemma selectTeam_outside_its_phase_counterexample :
  phase five_players = "LOBBY" ∧
  (selectTeam ["s1"; "s2"] 6 five_players).2 = true ∧
  phase (selectTeam ["s1"; "s2"] 6 five_players).1 = "VOTE" ∧
  selectedTeam (selectTeam ["s1"; "s2"] 6 five_players).1 = ["p1"; "p2"] ∧
  (selectTeam ["s1"; "s2"] 6 five_players).1 ≠ five_players ∧
  votes (submitVote "s1" true 6 five_players) = [("p1", true)] ∧
  submitVote "s1" true 6 five_players ≠ five_players.
Proof.
  repeat split; try (vm_compute; reflexivity); vm_compute; discriminate.
Qed.

(** ** reconnectPlayer *)

(** C5, counterexample: a reconnection also refreshes [lastActivityAt];
    with the roster put back as it was, the room still differs from the
    room before the call. *)
Lemma reconnectPlayer_refreshes_activity_counterexample :
  (reconnectPlayer "p2" "s2-new" 20 votes_and_actions_recorded).2 = true ∧
  lastActivityAt votes_and_actions_recorded = 14 ∧
  lastActivityAt (reconnectPlayer "p2" "s2-new" 20 votes_and_actions_recorded).1 = 20 ∧
  set_players (players votes_and_actions_recorded)
    (reconnectPlayer "p2" "s2-new" 20 votes_and_actions_recorded).1
    ≠ votes_and_actions_recorded.
Proof.
  repeat split; try (vm_compute; reflexivity). vm_compute. discriminate.
Qed.

(** C5, amended: for a player id carried by some player of the roster,
    [reconnectPlayer] returns [true]; it gives the first player carrying
    that id the new socket id and sets [lastActivityAt] to the clock
    reading, and changes nothing else: the other players, the other fields
    of that player, the recorded votes and mission actions (keyed by player
    id) and the selected team are as before. For a player id that no
    player carries it returns [false] and the room is unchanged. *)
Theorem reconnectPlayer_frame (pid newSocketId : string) (now : nat) (r : Room) :
  ((∃ q, q ∈ players r ∧ playerId q = pid) →
   ∃ i p,
     players r !! i = Some p ∧ playerId p = pid ∧
     (∀ j q, players r !! j = Some q → j < i → playerId q ≠ pid) ∧
     (reconnectPlayer pid newSocketId now r).2 = true ∧
     let r' := (reconnectPlayer pid newSocketId now r).1 in
     players r' = <[i := set_p_id newSocketId p]> (players r) ∧
     playerId <$> players r' = playerId <$> players r ∧
     votes r' = votes r ∧
     missionActions r' = missionActions r ∧
     selectedTeam r' = selectedTeam r ∧
     lastActivityAt r' = now ∧
     set_lastActivityAt (lastActivityAt r) (set_players (players r) r') = r) ∧
  ((∀ q, q ∈ players r → playerId q ≠ pid) →
   reconnectPlayer pid newSocketId now r = (r, false)).
Proof.
  unfold reconnectPlayer. split.
  - intros (q & Hq & Hpid).
    destruct (list_find_elem_of (λ p, playerId p = pid) (players r) q Hq Hpid)
      as [[i p] Hfind].
    rewrite Hfind. apply list_find_Some in Hfind as (Hi & Hp & Hfirst).
    exists i, p. repeat split; try done.
    + simpl. rewrite list_fmap_insert. simpl.
      apply list_insert_id. rewrite list_lookup_fmap, Hi. simpl. reflexivity.
    + destruct r. reflexivity.
  - intros Hnone.
    destruct (list_find _ _) as [[i p]|] eqn:Hfind; [|reflexivity].
    apply list_find_Some in Hfind as (Hi & Hp & _).
    exfalso. apply (Hnone p); [|exact Hp].
    apply list_elem_of_lookup. exists i. exact Hi.
Qed.

Lemma reconnectPlayer_frame_witness :
  votes votes_and_actions_recorded = [("p1", true); ("p2", false)] ∧
  missionActions votes_and_actions_recorded = [("p1", true); ("p2", false)] ∧
  ∃ i p,
    players votes_and_actions_recorded !! i = Some p ∧ playerId p = "p2" ∧
    (∀ j q, players votes_and_actions_recorded !! j = Some q → j < i →
            playerId q ≠ "p2") ∧
    (reconnectPlayer "p2" "s2-new" 20 votes_and_actions_recorded).2 = true ∧
    let r' := (reconnectPlayer "p2" "s2-new" 20 votes_and_actions_recorded).1 in
    players r' = <[i := set_p_id "s2-new" p]> (players votes_and_actions_recorded) ∧
    playerId <$> players r' = playerId <$> players votes_and_actions_recorded ∧
    votes r' = votes votes_and_actions_recorded ∧
    missionActions r' = missionActions votes_and_actions_recorded ∧
    selectedTeam r' = selectedTeam votes_and_actions_recorded ∧
    lastActivityAt r' = 20 ∧
    set_lastActivityAt (lastActivityAt votes_and_actions_recorded)
      (set_players (players votes_and_actions_recorded) r')
      = votes_and_actions_recorded.
Proof.
  split; [vm_compute; reflexivity|]. split; [vm_compute; reflexivity|].
  apply (proj1 (reconnectPlayer_frame "p2" "s2-new" 20 votes_and_actions_recorded)).
  exists (mkPlayer "s2" "p2" "Bob" None None false).
  split; [|reflexivity].
  apply list_elem_of_lookup. exists 1. vm_compute. reflexivity.
Defined.

(** ** The hook pipeline *)

Section HookManagerFacts.
Context {W Ctx : Type} (stops : Ctx → W → bool).

Lemma callback_step_cases (callback : @HookCallback W Ctx) result w :
  callback_step stops callback result w =
    match callback result w with
    | (w', Normal result') => (w', Normal (result', stops result' w'))
    | (w', Throw _) => (w', Normal (result, false))
    end.
Proof.
  unfold callback_step, try_catch, eff_bind, eff_ret, eff_get.
  destruct (callback result w) as [w' [result'|e]]; [|reflexivity].
  destruct (stops result' w'); reflexivity.
Qed.

Lemma for_callbacks_cons (callback : @HookCallback W Ctx) rest result w :
  for_callbacks stops (callback :: rest) result w =
    match callback result w with
    | (w', Normal result') =>
        if stops result' w' then (w', Normal result')
        else for_callbacks stops rest result' w'
    | (w', Throw _) => for_callbacks stops rest result w'
    end.
Proof.
  cbn [for_callbacks]. unfold eff_bind. rewrite callback_step_cases.
  destruct (callback result w) as [w' [result'|e]]; simpl; [|reflexivity].
  destruct (stops result' w'); reflexivity.
Qed.

Lemma for_callbacks_returns (callbacks : list (@HookCallback W Ctx)) :
  ∀ result w, ∃ w' result',
    for_callbacks stops callbacks result w = (w', Normal result').
Proof.
  induction callbacks as [|callback rest IH]; intros result w.
  - eexists _, _. reflexivity.
  - rewrite for_callbacks_cons.
    destruct (callback result w) as [w' [result'|e]]; [|apply IH].
    destruct (stops result' w'); [eexists _, _; reflexivity|apply IH].
Qed.

Lemma trigger_is_loop (hooks : gmap string (list (@HookCallback W Ctx)))
    hookName context w :
  trigger stops hooks hookName context w =
    for_callbacks stops (default [] (hooks !! hookName)) context w.
Proof.
  unfold trigger. destruct (default [] (hooks !! hookName)) as [|cb cbs]; reflexivity.
Qed.

Lemma trigger_returns (hooks : gmap string (list (@HookCallback W Ctx)))
    hookName context w :
  ∃ w' context', trigger stops hooks hookName context w = (w', Normal context').
Proof. rewrite trigger_is_loop. apply for_callbacks_returns. Qed.

(** A property of the state that every callback keeps is kept by the loop. *)
Lemma for_callbacks_invariant (P : W → Prop)
    (callbacks : list (@HookCallback W Ctx)) :
  (∀ callback, callback ∈ callbacks → ∀ c w, P w → P (callback c w).1) →
  ∀ result w, P w → P (for_callbacks stops callbacks result w).1.
Proof.
  induction callbacks as [|callback rest IH]; intros Hkeep result w Hw; [exact Hw|].
  rewrite for_callbacks_cons.
  assert (Hrest : ∀ cb, cb ∈ rest → ∀ c w, P w → P (cb c w).1).
  { intros cb Hcb. apply Hkeep. right. exact Hcb. }
  pose proof (Hkeep callback ltac:(left) result w Hw) as Hstep.
  destruct (callback result w) as [w' [result'|e]]; simpl in Hstep.
  - destruct (stops result' w'); [exact Hstep|]. apply IH; assumption.
  - apply IH; assumption.
Qed.

Lemma trigger_invariant (P : W → Prop)
    (hooks : gmap string (list (@HookCallback W Ctx))) hookName :
  (∀ callback, callback ∈ default [] (hooks !! hookName) →
     ∀ c w, P w → P (callback c w).1) →
  ∀ context w, P w → P (trigger stops hooks hookName context w).1.
Proof.
  intros Hkeep context w Hw. rewrite trigger_is_loop.
  apply for_callbacks_invariant; assumption.
Qed.

(** C8: [trigger] never throws because a callback threw. It always returns
    a context; it is the loop over the registered callbacks; and when the
    callback at hand throws, the loop goes on with the callbacks after it,
    applied to the context [result] held before the failing callback (the
    assignment to [result] did not take place), in the state the failing
    callback left. *)
Theorem trigger_isolates_failures
    (hooks : gmap string (list (@HookCallback W Ctx)))
    (hookName : string) (context : Ctx) (w : W) :
  (∃ w' context',
     trigger stops hooks hookName context w = (w', Normal context')) ∧
  trigger stops hooks hookName context w =
    for_callbacks stops (default [] (hooks !! hookName)) context w ∧
  (∀ (callback : @HookCallback W Ctx) rest result w0 w1 e,
     callback result w0 = (w1, Throw e) →
     for_callbacks stops (callback :: rest) result w0 =
       for_callbacks stops rest result w1) ∧
  (∀ (callback next : @HookCallback W Ctx) rest result w0 w1 e,
     callback result w0 = (w1, Throw e) →
     for_callbacks stops (callback :: next :: rest) result w0 =
       match next result w1 with
       | (w2, Normal result') =>
           if stops result' w2 then (w2, Normal result')
           else for_callbacks stops rest result' w2
       | (w2, Throw _) => for_callbacks stops rest result w2
       end).
Proof.
  split; [|split; [|split]].
  - apply trigger_returns.
  - apply trigger_is_loop.
  - intros callback rest result w0 w1 e Hthrow.
    rewrite for_callbacks_cons, Hthrow. reflexivity.
  - intros callback next rest result w0 w1 e Hthrow.
    rewrite for_callbacks_cons, Hthrow. apply for_callbacks_cons.
Qed.
End HookManagerFacts.

Lemma trigger_isolates_failures_witness :
  for_callbacks readsStop
    [failing_callback; merlinAssassin_missionResolve]
    (mkCtx (Some (true, 0)) (Some "GAME_OVER") false)
    (set_succeededMissions 3 five_players)
  = (set_succeededMissions 3 five_players,
     Normal (mkCtx (Some (true, 0)) (Some "ASSASSINATION") false)).
Proof.
  rewrite (proj1 (proj2 (proj2
             (trigger_isolates_failures readsStop ∅ "mission:resolve"
                (mkCtx None None false) five_players)))
             failing_callback [merlinAssassin_missionResolve]
             (mkCtx (Some (true, 0)) (Some "GAME_OVER") false)
             (set_succeededMissions 3 five_players)
             (set_succeededMissions 3 five_players) "Error" eq_refl).
  reflexivity.
Defined.

(** ** resolveMission *)




Lemma countFails_filter (m : list (string * bool)) :
  countFails m = length (filter (λ kv, kv.2 = false) m).
Proof.
  unfold countFails.
  assert (H : ∀ n, foldl (λ n '(_, action), if action : bool then n else S n) n m
                   = n + length (filter (λ kv : string * bool, kv.2 = false) m)).
  { induction m as [|[k a] m IH]; intros n; [simpl; lia|].
    cbn [foldl]. rewrite IH, filter_cons. destruct a; simpl; lia. }
  apply (H 0).
Qed.


Lemma canRotate_nextTurn now r :
  canRotate r → ∃ r', nextTurn now r = (r', Normal tt).
Proof.
  intros [Hne Hidx]. destruct (nextTurn_returns now r Hne Hidx) as (r' & H & _).
  exists r'. exact H.
Qed.


(** [resolveMission] leaves the rejection streak alone when the plugin
    callbacks do. *)
Lemma resolveMission_keeps_streak (hookManager : HookManager) now r :
  (∀ callback, callback ∈ default [] (hookManager !! "mission:resolve") →
     ∀ c w, voteRejections (callback c w).1 = voteRejections w) →
  voteRejections (resolveMission hookManager now r).1 = voteRejections r.
Proof.
  intros Hhooks.
  assert (Htrig : ∀ c w, voteRejections w = voteRejections r →
            voteRejections
              (trigger readsStop hookManager "mission:resolve" c w).1
            = voteRejections r).
  { intros c w Hw.
    apply (trigger_invariant readsStop
             (λ w, voteRejections w = voteRejections r) hookManager
             "mission:resolve"); [|exact Hw].
    intros callback Hcb c' w' Hw'. rewrite Hhooks by exact Hcb. exact Hw'. }
  unfold resolveMission. unfold_eff.
  destruct (bool_decide (countFails (missionActions r) = 0)); simpl;
    repeat (destruct (decide (_ <= _)); simpl);
    match goal with |- context [trigger _ _ _ ?c ?w] =>
      pose proof (Htrig c w eq_refl) as Hw';
      destruct (trigger readsStop hookManager "mission:resolve" c w)
        as [w' [c'|e]] end;
    simpl in *; try exact Hw';
    case_decide; cbv beta;
    try match goal with |- context [nextTurn now ?w] =>
          pose proof (nextTurn_voteRejections now w) as Hturn;
          destruct (nextTurn now w) as [r2 [[]|e]] end;
    simpl in *; congruence.
Qed.




(** ** selectTeam *)

Lemma getPlayerIdFromSocket_None sid r :
  getPlayerIdFromSocket sid r = None ↔ ∀ p, p ∈ players r → p_id p ≠ sid.
Proof.
  unfold getPlayerIdFromSocket. rewrite fmap_None. apply getPlayer_None.
Qed.

(** What [selectTeam] checks, with the size that [getCurrentMissionSize]
    hands it. *)
Lemma selectTeam_checks (socketIds : list string) (now : nat) (r : Room) :
  ((selectTeam socketIds now r).2 = false ↔
     length socketIds ≠ getCurrentMissionSize r ∨
     ∃ sid, sid ∈ socketIds ∧ ∀ p, p ∈ players r → p_id p ≠ sid) ∧
  ((selectTeam socketIds now r).2 = false →
     (selectTeam socketIds now r).1 = r ∧
     selectedTeam (selectTeam socketIds now r).1 = selectedTeam r ∧
     phase (selectTeam socketIds now r).1 = phase r) ∧
  ((selectTeam socketIds now r).2 = true →
     phase (selectTeam socketIds now r).1 = "VOTE" ∧
     Forall2 (λ sid pid, ∃ p, p ∈ players r ∧ p_id p = sid ∧ playerId p = pid)
       socketIds (selectedTeam (selectTeam socketIds now r).1)).
Proof.
  unfold selectTeam.
  destruct (decide (length socketIds ≠ getCurrentMissionSize r)) as [Hlen|Hlen].
  { simpl. split; [|split]; [split; [left; exact Hlen|reflexivity]|done|discriminate]. }
  destruct (mapM _ socketIds) as [playerIds|] eqn:Hmap; simpl.
  - split; [|split]; [|discriminate|].
    + split; [discriminate|]. intros [Hl|(sid & Hin & Hnone)]; [done|].
      exfalso. apply mapM_Some in Hmap.
      apply list_elem_of_lookup in Hin as [i Hi].
      destruct (Forall2_lookup_l _ _ _ _ _ Hmap Hi) as (pid & _ & Hsome).
      apply getPlayerIdFromSocket_None in Hnone. congruence.
    + intros _. split; [reflexivity|].
      apply mapM_Some in Hmap. eapply Forall2_impl; [exact Hmap|].
      intros sid pid Hsome. simpl in Hsome. unfold getPlayerIdFromSocket in Hsome.
      apply fmap_Some in Hsome as (p & Hp & ->).
      apply getPlayer_Some in Hp as [Hin Hid]. exists p. done.
  - split; [|split]; [|done|discriminate].
    split; [|reflexivity]. intros _. right.
    apply mapM_None in Hmap. apply Exists_exists in Hmap as (sid & Hin & Hnone).
    exists sid. split; [exact Hin|]. apply getPlayerIdFromSocket_None. exact Hnone.
Qed.

(** The table of team sizes covers the rosters of one to twenty players and
    the five missions. *)
Lemma MISSION_CONFIG_covers n i :
  1 ≤ n ≤ 20 → i < 5 →
  ∃ sizes size,
    MISSION_CONFIG !! n = Some sizes ∧ sizes !! i = Some size ∧ 1 ≤ size ≤ n.
Proof.
  intros Hn Hi.
  assert (Hall : forallb (λ n, forallb (λ i,
            match MISSION_CONFIG !! n with
            | Some sizes =>
                match sizes !! i with
                | Some size => (1 <=? size) && (size <=? n)
                | None => false
                end
            | None => false
            end) (seq 0 5)) (seq 1 20) = true) by (vm_compute; reflexivity).
  rewrite forallb_forall in Hall.
  specialize (Hall n (proj2 (in_seq 20 1 n) ltac:(lia))).
  rewrite forallb_forall in Hall.
  specialize (Hall i (proj2 (in_seq 5 0 i) ltac:(lia))). cbv beta in Hall.
  destruct (MISSION_CONFIG !! n) as [sizes|] eqn:Hsizes; [|discriminate].
  destruct (sizes !! i) as [size|] eqn:Hsize; [|discriminate].
  apply andb_true_iff in Hall as [Hlo Hhi].
  apply Nat.leb_le in Hlo, Hhi. exists sizes, size.
  split; [reflexivity|]. split; [exact Hsize|]. split; assumption.
Qed.

(** C7, counterexample: with twenty-one players the table configures no
    team size. [getCurrentMissionSize] falls back on [0] and [selectTeam]
    takes the empty team: it returns [true] and moves the room to [VOTE],
    though the number of ids is no configured team size. *)
Lemma selectTeam_unconfigured_counterexample :
  length (players crowded_room) = 21 ∧
  MISSION_CONFIG !! length (players crowded_room) = None ∧
  phase crowded_room = "LOBBY" ∧
  (selectTeam [] 2 crowded_room).2 = true ∧
  phase (selectTeam [] 2 crowded_room).1 = "VOTE" ∧
  ¬ ((selectTeam [] 2 crowded_room).2 = false ↔
       (MISSION_CONFIG !! length (players crowded_room)
          ≫= (λ sizes, sizes !! currentMissionIndex crowded_room))
         ≠ Some (length ([] : list string)) ∨
       ∃ sid, sid ∈ ([] : list string) ∧
              ∀ p, p ∈ players crowded_room → p_id p ≠ sid).
Proof.
  split; [vm_compute; reflexivity|]. split; [vm_compute; reflexivity|].
  split; [vm_compute; reflexivity|]. split; [vm_compute; reflexivity|].
  split; [vm_compute; reflexivity|].
  intros [_ Hclaim].
  assert (Hfalse : (selectTeam [] 2 crowded_room).2 = false).
  { apply Hclaim. left. vm_compute. discriminate. }
  vm_compute in Hfalse. discriminate.
Qed.

(** C7, amended: where the table of team sizes has an entry for the roster
    size and the mission index, as it has for one to twenty players and the
    five missions, [selectTeam] returns [false] iff the number of ids
    differs from that entry or some id is the socket id of no player of the
    roster. Where the table has none, every team that is not empty is
    refused. On failure the room, hence [selectedTeam] and [phase], is
    unchanged; on success the team is recorded as the player ids of the
    players found, in order, and the phase is [VOTE]. *)
Theorem selectTeam_validates (socketIds : list string) (now : nat) (r : Room) :
  (∀ sizes size,
     MISSION_CONFIG !! length (players r) = Some sizes →
     sizes !! currentMissionIndex r = Some size →
     ((selectTeam socketIds now r).2 = false ↔
        length socketIds ≠ size ∨
        ∃ sid, sid ∈ socketIds ∧ ∀ p, p ∈ players r → p_id p ≠ sid)) ∧
  (1 ≤ length (players r) ≤ 20 → currentMissionIndex r < 5 →
     ∃ sizes size,
       MISSION_CONFIG !! length (players r) = Some sizes ∧
       sizes !! currentMissionIndex r = Some size ∧
       1 ≤ size ≤ length (players r)) ∧
  (MISSION_CONFIG !! length (players r)
     ≫= (λ sizes, sizes !! currentMissionIndex r) = None →
   socketIds ≠ [] → (selectTeam socketIds now r).2 = false) ∧
  ((selectTeam socketIds now r).2 = false →
     (selectTeam socketIds now r).1 = r ∧
     selectedTeam (selectTeam socketIds now r).1 = selectedTeam r ∧
     phase (selectTeam socketIds now r).1 = phase r) ∧
  ((selectTeam socketIds now r).2 = true →
     phase (selectTeam socketIds now r).1 = "VOTE" ∧
     Forall2 (λ sid pid, ∃ p, p ∈ players r ∧ p_id p = sid ∧ playerId p = pid)
       socketIds (selectedTeam (selectTeam socketIds now r).1)).
Proof.
  destruct (selectTeam_checks socketIds now r) as (Hiff & Hfail & Hok).
  split; [|split; [|split; [|split]]].
  - intros sizes size Hsizes Hsize.
    assert (Hcur : getCurrentMissionSize r = size).
    { unfold getCurrentMissionSize. rewrite Hsizes. simpl. rewrite Hsize. reflexivity. }
    rewrite <- Hcur. exact Hiff.
  - apply MISSION_CONFIG_covers.
  - intros Hnone Hne. apply Hiff. left.
    unfold getCurrentMissionSize. rewrite Hnone. simpl.
    destruct socketIds; [done|]. simpl. lia.
  - exact Hfail.
  - exact Hok.
Qed.

(** With five players the first mission takes two: [s1] and [s2] are
    accepted, [s1] alone and [s1] with a stranger are refused. *)
Lemma selectTeam_validates_witness :
  MISSION_CONFIG !! length (players five_players) = Some [2; 3; 2; 3; 3] ∧
  (selectTeam ["s1"; "s2"] 6 five_players).2 = true ∧
  (selectTeam ["s1"] 6 five_players).2 = false ∧
  (selectTeam ["s1"; "s9"] 6 five_players).2 = false ∧
  (selectTeam ["s1"; "s9"] 6 five_players).1 = five_players.
Proof.
  assert (Hsizes : MISSION_CONFIG !! length (players five_players)
                   = Some [2; 3; 2; 3; 3]) by (vm_compute; reflexivity).
  assert (Hsize : [2; 3; 2; 3; 3] !! currentMissionIndex five_players = Some 2)
    by (vm_compute; reflexivity).
  split; [exact Hsizes|].
  pose proof (proj1 (selectTeam_validates ["s1"; "s2"] 6 five_players)
                _ _ Hsizes Hsize) as Hteam.
  pose proof (proj1 (selectTeam_validates ["s1"] 6 five_players)
                _ _ Hsizes Hsize) as Hshort.
  pose proof (proj1 (selectTeam_validates ["s1"; "s9"] 6 five_players)
                _ _ Hsizes Hsize) as Hstranger.
  assert (Hrefused : (selectTeam ["s1"; "s9"] 6 five_players).2 = false).
  { apply Hstranger. right. exists "s9". split; [right; left|].
    apply getPlayer_None. vm_compute. reflexivity. }
  split; [|split; [|split]].
  - destruct (selectTeam ["s1"; "s2"] 6 five_players).2 eqn:Hres; [reflexivity|].
    exfalso. destruct (proj1 Hteam eq_refl) as [Hlen|(sid & Hin & Hnone)].
    + simpl in Hlen. done.
    + apply getPlayer_None in Hnone.
      apply list_elem_of_In in Hin. destruct Hin as [<-|[<-|[]]];
        vm_compute in Hnone; discriminate.
  - apply Hshort. left. simpl. lia.
  - exact Hrefused.
  - apply (proj1 (proj2 (proj2 (proj2 (selectTeam_validates ["s1"; "s9"] 6
                                         five_players))))).
    exact Hrefused.
Defined.

(** ** The leader index *)

Lemma three_players_leader_in_bounds : leaderInBounds three_players_last_leads.
Proof.
  intros _. exists 2. split; vm_compute; [reflexivity|lia].
Qed.

(** C9, the failing input: the last player of the roster leads and is
    removed. The leader index stays at 2 while the roster shrinks to two
    players: [players[currentLeaderIndex]] is [undefined] and no player is
    marked as leader. *)
Theorem removePlayer_leaves_leader_out_of_bounds :
  leaderInBounds three_players_last_leads ∧
  currentLeaderIndex three_players_last_leads = Idx 2 ∧
  length (players three_players_last_leads) = 3 ∧
  let r' := removePlayer "s3" 9 three_players_last_leads in
  currentLeaderIndex r' = Idx 2 ∧
  length (players r') = 2 ∧
  js_index (players r') (currentLeaderIndex r') = None ∧
  Forall (λ p, isLeader p = false) (players r') ∧
  ¬ leaderInBounds r'.
Proof.
  split; [apply three_players_leader_in_bounds|].
  split; [vm_compute; reflexivity|]. split; [vm_compute; reflexivity|].
  split; [vm_compute; reflexivity|]. split; [vm_compute; reflexivity|].
  split; [vm_compute; reflexivity|].
  split; [vm_compute; repeat constructor|].
  intros Hb. destruct Hb as (n & Hn & Hlt); [vm_compute; discriminate|].
  vm_compute in Hn. injection Hn as <-. vm_compute in Hlt. lia.
Qed.

(** The methods that pick a leader keep the index inside the roster:
    [nextTurn] takes it modulo the roster length. *)
Lemma nextTurn_keeps_leader_in_bounds now r :
  canRotate r → leaderInBounds (nextTurn now r).1.
Proof.
  intros [Hne Hidx].
  destruct (nextTurn_returns now r Hne Hidx) as (r' & -> & _ & Hb & _).
  exact Hb.
Qed.

(** Joining players keep it too. *)
Lemma addPlayer_keeps_leader_in_bounds sid nick pid now r :
  leaderInBounds r → (players r = [] → currentLeaderIndex r = Idx 0) →
  leaderInBounds (addPlayer sid nick pid now r).1.
Proof.
  intros Hb H0 _. simpl. rewrite length_app. simpl.
  destruct (decide (players r = [])) as [He|Hne].
  - exists 0. split; [exact (H0 He)|lia].
  - destruct (Hb Hne) as (m & Hm & Hlt). exists m. split; [exact Hm|lia].
Qed.

Lemma leader_kept r r' :
  players r ≠ [] → leaderInBounds r →
  length (players r') = length (players r) →
  currentLeaderIndex r' = currentLeaderIndex r →
  players r' ≠ [] ∧ leaderInBounds r'.
Proof.
  intros Hne Hb Hlen Hidx.
  assert (Hne' : players r' ≠ []).
  { intros He. rewrite He in Hlen. destruct (players r); simpl in *; done. }
  split; [exact Hne'|]. intros _. destruct (Hb Hne) as (n & Hn & Hlt).
  exists n. rewrite Hidx, Hlen. done.
Qed.

Lemma nextTurn_keeps now r :
  players r ≠ [] → leaderInBounds r →
  ∃ r', nextTurn now r = (r', Normal tt) ∧ players r' ≠ [] ∧ leaderInBounds r'.
Proof.
  intros Hne Hb. destruct (Hb Hne) as (n & Hn & _).
  destruct (nextTurn_returns now r Hne (ex_intro _ n Hn)) as (r' & Heq & Hlen & Hb' & _).
  exists r'. split; [exact Heq|]. split; [|exact Hb'].
  intros He. rewrite He in Hlen. destruct (players r); simpl in *; done.
Qed.

(** On a room with players, every call but [removePlayer] keeps the leader
    index inside the roster. *)
Lemma call_keeps_leader_in_bounds c now r :
  is_removePlayer c = false →
  players r ≠ [] → leaderInBounds r →
  players (call c now r).1 ≠ [] ∧ leaderInBounds (call c now r).1.
Proof.
  intros Hc Hne Hb. destruct c; try discriminate; simpl call.
  - apply (addPlayer_keeps_leader_in_bounds sid nick pid now r) in Hb as Hb'; [|done].
    split; [|exact Hb']. simpl. intros He. apply app_eq_nil in He as [_ ?]. done.
  - unfold reconnectPlayer. destruct (list_find _ _) as [[i p]|]; cbn [fst prod_map]; [|done].
    apply (leader_kept r); try done. simpl. apply length_insert.
  - destruct (nextTurn_keeps now r Hne Hb) as (r' & -> & H). exact H.
  - unfold selectTeam. destruct (decide _); [done|].
    destruct (mapM _ _); cbn [fst prod_map]; [|done].
    apply (leader_kept r); done.
  - unfold submitVote. destruct (getPlayerIdFromSocket _ _) as [p|]; [|done].
    destruct (truthy p); cbn [fst]; [|done]. apply (leader_kept r); done.
  - destruct (tallyApproves r) eqn:Ha.
    + rewrite tallyVotes_approved by exact Ha. cbn [fst prod_map].
      apply (leader_kept r); done.
    + destruct (decide (MAX_REJECTIONS ≤ S (voteRejections r))) as [Hmax|Hmax].
      * rewrite tallyVotes_penalty by done. cbn [fst prod_map].
        apply (leader_kept r); done.
      * rewrite tallyVotes_rejected by (done || lia).
        destruct (nextTurn_keeps now (set_voteRejections (S (voteRejections r)) r))
          as (r' & -> & Hne' & Hb'); [exact Hne|exact Hb|].
        cbn [fst prod_map]. apply (leader_kept r'); done.
  - unfold submitMissionAction. destruct (getPlayerIdFromSocket _ _) as [p|]; [|done].
    destruct (negb (truthy p)); [done|]. destruct (negb _); [done|].
    cbn [fst prod_map]. apply (leader_kept r); done.
  - cbn [fst prod_map]. apply (leader_kept r); done.
Qed.

(** ** The capacity of a room *)







(** ** The phase is never read *)

Lemma nextTurn_phase ph now r :
  nextTurn now (set_phase ph r)
    = match nextTurn now r with
      | (r', Normal u) => (r', Normal u)
      | (r', Throw e) => (set_phase ph r', Throw e)
      end.
Proof.
  unfold nextTurn, updateLeader. unfold_eff. simpl.
  destruct (js_succ_mod _ _) as [n|]; [|reflexivity].
  destruct (_ !! n); reflexivity.
Qed.

Lemma tallyVotes_phase ph now r :
  tallyVotes now (set_phase ph r)
    = match tallyVotes now r with
      | (r', Normal t) => (r', Normal t)
      | (r', Throw e) => (set_phase ph r', Throw e)
      end.
Proof.
  destruct (tallyApproves r) eqn:Ha.
  - rewrite !tallyVotes_approved by exact Ha. reflexivity.
  - destruct (decide (MAX_REJECTIONS ≤ S (voteRejections r))) as [Hmax|Hmax].
    + rewrite !tallyVotes_penalty by done. reflexivity.
    + rewrite !tallyVotes_rejected by (done || (simpl; lia)).
      change (set_voteRejections (S (voteRejections (set_phase ph r)))
                (set_phase ph r))
        with (set_phase ph (set_voteRejections (S (voteRejections r)) r)).
      rewrite nextTurn_phase.
      destruct (nextTurn now _) as [r2 [[]|e]]; reflexivity.
Qed.

(** Every call gives the caller in another phase what it gives in this
    one, and leaves the room it leaves here, up to the phase: the phase is
    the one the call writes, or else the one it started from. *)
Lemma call_phase c ph now r :
  (call c now (set_phase ph r)).2 = (call c now r).2 ∧
  (call c now (set_phase ph r)).1
    = match c, (call c now r).2 with
      | HandleAssassination _, _ | SelectTeam _, ReturnedBool true
      | NextTurn, ReturnedVoid | TallyVotes, ReturnedTally _ => (call c now r).1
      | _, _ => set_phase ph (call c now r).1
      end.
Proof.
  destruct c; simpl call.
  - split; reflexivity.
  - split; reflexivity.
  - unfold reconnectPlayer. simpl.
    destruct (list_find _ _) as [[i p]|]; split; reflexivity.
  - rewrite nextTurn_phase.
    destruct (nextTurn now r) as [r2 [[]|e]]; split; reflexivity.
  - unfold selectTeam.
    change (getCurrentMissionSize (set_phase ph r)) with (getCurrentMissionSize r).
    change (mapM (λ sid, getPlayerIdFromSocket sid (set_phase ph r)) socketIds)
      with (mapM (λ sid, getPlayerIdFromSocket sid r) socketIds).
    destruct (decide _); [split; reflexivity|].
    destruct (mapM _ _); split; reflexivity.
  - unfold submitVote.
    change (getPlayerIdFromSocket socketId (set_phase ph r))
      with (getPlayerIdFromSocket socketId r).
    destruct (getPlayerIdFromSocket socketId r) as [pid|]; [|split; reflexivity].
    destruct (truthy pid); split; reflexivity.
  - rewrite tallyVotes_phase.
    destruct (tallyVotes now r) as [r2 [t|e]]; split; reflexivity.
  - unfold submitMissionAction.
    change (getPlayerIdFromSocket socketId (set_phase ph r))
      with (getPlayerIdFromSocket socketId r).
    destruct (getPlayerIdFromSocket socketId r) as [pid|]; [|split; reflexivity].
    destruct (negb (truthy pid)); [split; reflexivity|]. simpl.
    destruct (negb _); split; reflexivity.
  - split; reflexivity.
Qed.

(** A call that throws is [nextTurn], or the [nextTurn] of [tallyVotes], on
    a room whose lead cannot rotate. *)
Lemma call_thrown c now r e :
  (call c now r).2 = Thrown e →
  (c = NextTurn ∨ c = TallyVotes) ∧ e = "TypeError" ∧ ¬ canRotate r.
Proof.
  assert (Hnext : ∀ r0 r' e0, nextTurn now r0 = (r', Throw e0) →
                    e0 = "TypeError" ∧ ¬ canRotate r0).
  { intros r0 r' e0 Hn. split.
    - revert Hn. unfold nextTurn, updateLeader. unfold_eff. simpl.
      destruct (js_succ_mod _ _) as [n|]; [|congruence].
      destruct (_ !! n); congruence.
    - intros [Hne [n Hidx]].
      destruct (nextTurn_returns now r0 Hne (ex_intro _ n Hidx)) as (r2 & Hr & _).
      congruence. }
  destruct c; simpl call; intros Hthrown.
  - discriminate.
  - discriminate.
  - destruct (reconnectPlayer _ _ _ _) as [r' b]. discriminate.
  - destruct (nextTurn now r) as [r' [[]|e0]] eqn:Hn; [discriminate|].
    injection Hthrown as <-. destruct (Hnext r r' e0 Hn). auto.
  - destruct (selectTeam _ _ _) as [r' b]. discriminate.
  - discriminate.
  - destruct (tallyApproves r) eqn:Ha.
    + rewrite tallyVotes_approved in Hthrown by exact Ha. discriminate.
    + destruct (decide (MAX_REJECTIONS ≤ S (voteRejections r))) as [Hmax|Hmax].
      * rewrite tallyVotes_penalty in Hthrown by done. discriminate.
      * rewrite tallyVotes_rejected in Hthrown by (done || lia).
        destruct (nextTurn now _) as [r' [[]|e0]] eqn:Hn; [discriminate|].
        injection Hthrown as <-.
        destruct (Hnext _ r' e0 Hn) as [He Hrot]. auto.
  - destruct (submitMissionAction _ _ _ _) as [r' b]. discriminate.
  - discriminate.
Qed.

(** Callbacks that do not read the phase of the room. *)
Lemma for_callbacks_phase ph (callbacks : list RoomCallback) :
  (∀ callback, callback ∈ callbacks →
     ∀ context w, callback context (set_phase ph w)
                  = (set_phase ph (callback context w).1, (callback context w).2)) →
  ∀ context w,
    for_callbacks readsStop callbacks context (set_phase ph w)
      = (set_phase ph (for_callbacks readsStop callbacks context w).1,
         (for_callbacks readsStop callbacks context w).2).
Proof.
  induction callbacks as [|callback rest IH]; intros Hcb context w; [reflexivity|].
  cbn [for_callbacks]. unfold callback_step, try_catch, readsStop. unfold_eff.
  rewrite (Hcb callback) by left.
  destruct (callback context w) as [w1 [c1|e1]]; cbn [fst snd].
  - destruct (stopPropagation c1); [reflexivity|].
    apply IH. intros cb Hin. apply Hcb. right. exact Hin.
  - apply IH. intros cb Hin. apply Hcb. right. exact Hin.
Qed.

Lemma resolveMission_phase (hookManager : HookManager) ph now r :
  (∀ callback, callback ∈ default [] (hookManager !! "mission:resolve") →
     ∀ context w, callback context (set_phase ph w)
                  = (set_phase ph (callback context w).1, (callback context w).2)) →
  resolveMission hookManager now (set_phase ph r) = resolveMission hookManager now r.
Proof.
  intros Hcb.
  assert (Htrig : ∀ context w,
            trigger readsStop hookManager "mission:resolve" context (set_phase ph w)
              = (set_phase ph (trigger readsStop hookManager "mission:resolve"
                                 context w).1,
                 (trigger readsStop hookManager "mission:resolve" context w).2)).
  { intros context w. unfold trigger. case_decide; [reflexivity|].
    apply for_callbacks_phase. exact Hcb. }
  unfold resolveMission. unfold_eff. cbv beta.
  change (missionActions (set_phase ph r)) with (missionActions r).
  destruct (bool_decide (countFails (missionActions r) = 0)); cbv beta iota;
    cbn [failedMissions succeededMissions set_succeededMissions set_failedMissions
         set_missionHistory set_missionActions set_phase];
    repeat (destruct (decide (_ ≤ _)); cbv beta iota);
    match goal with
    | |- context [trigger readsStop hookManager "mission:resolve" ?c ?w] =>
        lazymatch w with
        | context [set_phase ph r] =>
            let w' := eval pattern (set_phase ph r) in w in
            lazymatch w' with
            | ?f _ =>
                let wB := eval cbv beta in (f r) in
                change w with (set_phase ph wB);
                rewrite (Htrig c wB);
                let Hw := fresh "Hw" in
                destruct (trigger_returns readsStop hookManager "mission:resolve"
                            c wB) as (w2 & c2 & Hw);
                rewrite Hw
            end
        end
    end;
    reflexivity.
Qed.

(** C4, amended: no method of [Room] looks at the phase. Every call gives
    the caller in every phase what it gives in its own and leaves the same
    room up to the phase, which is the one the call writes
    ([handleAssassination], a [selectTeam] that succeeds, a [nextTurn] or a
    [tallyVotes] that returns) or else the one the room was in; so does
    [resolveMission] when the callbacks of [mission:resolve] do not read
    the phase either. What the methods do validate (team size, known
    socket id, membership of the selected team, known player id) is
    all-or-nothing: when the validation fails, [selectTeam],
    [submitMissionAction] and [reconnectPlayer] return [false],
    [submitVote] returns, and the room is unchanged. No call throws on a
    room whose lead can rotate, and only [nextTurn] and [tallyVotes] throw
    at all. *)
Theorem validation_failure_leaves_room_unchanged :
  (∀ ids now r, (selectTeam ids now r).2 = false → (selectTeam ids now r).1 = r) ∧
  (∀ sid approve now r, getPlayer sid r = None → submitVote sid approve now r = r) ∧
  (∀ sid ok now r,
     (submitMissionAction sid ok now r).2 = false →
     (submitMissionAction sid ok now r).1 = r) ∧
  (∀ pid sid now r,
     (reconnectPlayer pid sid now r).2 = false →
     (reconnectPlayer pid sid now r).1 = r) ∧
  (∀ ph ids now r,
     selectTeam ids now (set_phase ph r)
       = (if (selectTeam ids now r).2 then (selectTeam ids now r).1
          else set_phase ph (selectTeam ids now r).1,
          (selectTeam ids now r).2)) ∧
  (∀ ph sid approve now r,
     submitVote sid approve now (set_phase ph r)
       = set_phase ph (submitVote sid approve now r)) ∧
  (∀ c ph now r,
     (call c now (set_phase ph r)).2 = (call c now r).2 ∧
     (call c now (set_phase ph r)).1
       = match c, (call c now r).2 with
         | HandleAssassination _, _ | SelectTeam _, ReturnedBool true
         | NextTurn, ReturnedVoid | TallyVotes, ReturnedTally _ => (call c now r).1
         | _, _ => set_phase ph (call c now r).1
         end) ∧
  (∀ (hookManager : HookManager) ph now r,
     (∀ callback, callback ∈ default [] (hookManager !! "mission:resolve") →
        ∀ context w,
          callback context (set_phase ph w)
            = (set_phase ph (callback context w).1, (callback context w).2)) →
     resolveMission hookManager now (set_phase ph r)
       = resolveMission hookManager now r) ∧
  (∀ c now r e,
     (call c now r).2 = Thrown e →
     (c = NextTurn ∨ c = TallyVotes) ∧ e = "TypeError" ∧ ¬ canRotate r).
Proof.
  split; [|split; [|split; [|split; [|split; [|split; [|split; [|split]]]]]]].
  - intros ids now r. unfold selectTeam.
    destruct (decide _); [reflexivity|]. destruct (mapM _ _); [discriminate|reflexivity].
  - intros sid approve now r Hn. unfold submitVote, getPlayerIdFromSocket.
    rewrite Hn. reflexivity.
  - intros sid ok now r. unfold submitMissionAction.
    destruct (getPlayerIdFromSocket _ _) as [pid|]; [|reflexivity].
    destruct (negb (truthy pid)); [reflexivity|].
    destruct (negb _); [reflexivity|discriminate].
  - intros pid sid now r. unfold reconnectPlayer.
    destruct (list_find _ _) as [[i p]|]; [discriminate|reflexivity].
  - intros ph ids now r. unfold selectTeam.
    change (getCurrentMissionSize (set_phase ph r)) with (getCurrentMissionSize r).
    change (mapM (λ sid, getPlayerIdFromSocket sid (set_phase ph r)) ids)
      with (mapM (λ sid, getPlayerIdFromSocket sid r) ids).
    destruct (decide _); [reflexivity|]. destruct (mapM _ _); reflexivity.
  - intros ph sid approve now r. unfold submitVote.
    change (getPlayerIdFromSocket sid (set_phase ph r))
      with (getPlayerIdFromSocket sid r).
    destruct (getPlayerIdFromSocket sid r) as [pid|]; [|reflexivity].
    destruct (truthy pid); reflexivity.
  - intros c ph now r. apply call_phase.
  - intros hookManager ph now r. apply resolveMission_phase.
  - intros c now r e. apply call_thrown.
Qed.

(** A team of the wrong size and a vote from an unknown socket leave the
    room as it is; a mission action is taken in [LOBBY] as it is in
    [MISSION], and the mission resolves from [LOBBY] as it does from
    [MISSION], with the callback of the merlin-assassin expansion
    installed. *)
Lemma validation_failure_leaves_room_unchanged_witness :
  (selectTeam ["s1"] 6 five_players).1 = five_players ∧
  submitVote "s9" true 6 five_players = five_players ∧
  phase mission_under_way = "MISSION" ∧
  (call (SubmitMissionAction "s3" true) 13 mission_under_way).2 = ReturnedBool false ∧
  (call (SubmitMissionAction "s3" true) 13 (set_phase "LOBBY" mission_under_way)).2
    = ReturnedBool false ∧
  (call (SubmitMissionAction "s2" true) 13 (set_phase "LOBBY" mission_under_way))
    = (set_phase "LOBBY" (call (SubmitMissionAction "s2" true) 13 mission_under_way).1,
       ReturnedBool true) ∧
  resolveMission merlin_hooks 13 (set_phase "LOBBY" mission_under_way)
    = resolveMission merlin_hooks 13 mission_under_way.
Proof.
  split; [|split; [|split; [|split; [|split; [|split]]]]].
  - apply (proj1 validation_failure_leaves_room_unchanged). vm_compute. reflexivity.
  - apply (proj1 (proj2 validation_failure_leaves_room_unchanged)).
    vm_compute. reflexivity.
  - vm_compute. reflexivity.
  - vm_compute. reflexivity.
  - rewrite (proj1 (proj1 (proj2 (proj2 (proj2 (proj2 (proj2 (proj2
               validation_failure_leaves_room_unchanged))))))
               (SubmitMissionAction "s3" true) "LOBBY" 13 mission_under_way)).
    vm_compute. reflexivity.
  - destruct (proj1 (proj2 (proj2 (proj2 (proj2 (proj2 (proj2
               validation_failure_leaves_room_unchanged))))))
               (SubmitMissionAction "s2" true) "LOBBY" 13 mission_under_way)
      as [Hout Hroom].
    apply injective_projections; cbn [fst snd].
    + rewrite Hroom.
      replace (call (SubmitMissionAction "s2" true) 13 mission_under_way).2
        with (ReturnedBool true) by (vm_compute; reflexivity).
      reflexivity.
    + rewrite Hout. vm_compute. reflexivity.
  - apply (proj1 (proj2 (proj2 (proj2 (proj2 (proj2 (proj2 (proj2
             validation_failure_leaves_room_unchanged)))))))
             merlin_hooks "LOBBY" 13 mission_under_way).
    intros callback Hin context w.
    change (default [] (merlin_hooks !! "mission:resolve"))
      with [merlinAssassin_missionResolve] in Hin.
    apply list_elem_of_singleton in Hin. subst callback. reflexivity.
Defined.

(** ** The earlier revision *)

(** In the earlier revision an approved tally clears the streak. *)
Lemma earlier_tallyVotes_approval_resets_streak r :
  tallyApproves r = true →
  voteRejections (EarlierRevision.tallyVotes r).1 = 0.
Proof.
  unfold tallyApproves, EarlierRevision.tallyVotes. unfold_eff. intros Ha.
  destruct (countVotes (votes r)) as [a rj]. simpl in *.
  rewrite Ha. reflexivity.
Qed.

(** There the penalty is one failed mission: in a fresh game the fifth
    rejection returns [penaltyApplied = true] and the game goes on. *)
Lemma earlier_tallyVotes_penalty_goes_on :
  ∃ r' t,
    EarlierRevision.tallyVotes (set_voteRejections 4 five_players) = (r', Normal t) ∧
    penaltyApplied t = true ∧ failedMissions r' = 1 ∧
    phase r' = "TEAM_SELECTION" ∧ getWinner r' = None.
Proof.
  eexists _, _. split; [vm_compute; reflexivity|].
  repeat split; vm_compute; reflexivity.
Qed.

Lemma earlier_installExpansions_hook_manager registry ids : ∀ st,
  EarlierRevision.hookManager (EarlierRevision.installExpansions registry ids st).1
    = EarlierRevision.hookManager st.1.
Proof.
  unfold EarlierRevision.installExpansions.
  induction ids as [|eid ids IH]; intros [g st]; [reflexivity|].
  cbn [foldl]. rewrite IH.
  destruct (registry !! eid); [|reflexivity].
  destruct (decide _); reflexivity.
Qed.

Lemma earlier_createRoom_hook_manager registry roomId minP exps now gm store :
  let created := EarlierRevision.createRoom registry roomId minP exps now gm store in
  hookManager created.2 = EarlierRevision.hookManager gm ∧
  EarlierRevision.hookManager created.1.1 = EarlierRevision.hookManager gm.
Proof.
  unfold EarlierRevision.createRoom.
  destruct exps as [ids|]; [destruct (decide (0 < length ids))|];
    try (split; reflexivity).
  match goal with |- context [EarlierRevision.installExpansions registry ids ?st] =>
    pose proof (earlier_installExpansions_hook_manager registry ids st) as H;
    destruct (EarlierRevision.installExpansions registry ids st) as [g' st'] end.
  simpl in *. split; [reflexivity|exact H].
Qed.

(** There every room is handed the one hook manager of the registry. *)
Lemma earlier_createRoom_shares_hook_manager registry
    roomId1 minP1 exps1 now1 roomId2 minP2 exps2 now2 gm store :
  let first := EarlierRevision.createRoom registry roomId1 minP1 exps1 now1 gm store in
  let second :=
    EarlierRevision.createRoom registry roomId2 minP2 exps2 now2 first.1.1 first.1.2 in
  hookManager first.2 = hookManager second.2.
Proof.
  intros first second.
  destruct (earlier_createRoom_hook_manager registry roomId1 minP1 exps1 now1 gm store)
    as [Hs1 Hg1].
  destruct (earlier_createRoom_hook_manager registry roomId2 minP2 exps2 now2
              first.1.1 first.1.2) as [Hs2 _].
  fold first in Hs1, Hg1. fold second in Hs2. congruence.
Qed.

(** * Further properties of the code *)

(** ** The roster *)

Lemma find_app {A} (f : A → bool) (l1 l2 : list A) :
  find f (l1 ++ l2) = match find f l1 with Some x => Some x | None => find f l2 end.
Proof.
  induction l1 as [|x l1 IH]; simpl; [done|].
  destruct (f x); done.
Qed.

Lemma find_filter_neq (sid sid' : string) (ps : list Player) :
  sid' ≠ sid →
  find (λ p, bool_decide (p_id p = sid')) (filter (λ p, p_id p ≠ sid) ps)
    = find (λ p, bool_decide (p_id p = sid')) ps.
Proof.
  intros Hne. induction ps as [|p ps IH]; [done|].
  rewrite filter_cons. destruct (decide (p_id p ≠ sid)) as [Hp|Hp]; simpl.
  - rewrite IH. done.
  - rewrite IH. rewrite bool_decide_eq_false_2; [done|].
    intros Heq. apply Hp. intros Hsid. congruence.
Qed.

Lemma find_filter_eq (sid : string) (ps : list Player) :
  find (λ p, bool_decide (p_id p = sid)) (filter (λ p, p_id p ≠ sid) ps) = None.
Proof.
  induction ps as [|p ps IH]; [done|].
  rewrite filter_cons. destruct (decide (p_id p ≠ sid)) as [Hp|Hp]; simpl; [|done].
  rewrite bool_decide_eq_false_2; done.
Qed.

Lemma filter_keeps_all (sid : string) (ps : list Player) :
  find (λ p, bool_decide (p_id p = sid)) ps = None →
  filter (λ p, p_id p ≠ sid) ps = ps.
Proof.
  induction ps as [|p ps IH]; [done|]. simpl.
  case_bool_decide as Hp; [done|]. intros Hnone.
  rewrite filter_cons_True by done. rewrite IH; done.
Qed.

(** X1: a lookup by socket id or by player id after [addPlayer] finds what
    it found before, and the newcomer only where it found nobody: a player
    who joins under an id already in the roster is shadowed by the earlier
    one. The newcomer's player id is the socket id when none (or the empty
    string) is given. *)
Theorem addPlayer_lookup (sid nick : string) (pid : option string) (now : nat)
    (r : Room) (sid' pid' : string) :
  let joined := addPlayer sid nick pid now r in
  getPlayer sid' joined.1 =
    match getPlayer sid' r with
    | Some p => Some p
    | None => if decide (sid = sid') then Some joined.2 else None
    end ∧
  getPlayerByPlayerId pid' joined.1 =
    match getPlayerByPlayerId pid' r with
    | Some p => Some p
    | None => if decide (playerId joined.2 = pid') then Some joined.2 else None
    end ∧
  p_id joined.2 = sid ∧
  playerId joined.2 =
    match pid with
    | Some given => if decide (given = "") then sid else given
    | None => sid
    end.
Proof.
  cbv zeta. unfold getPlayer, getPlayerByPlayerId, addPlayer. simpl.
  rewrite !find_app. simpl. repeat split.
  - destruct (find _ (players r)); [done|].
    case_bool_decide; case_decide; done.
  - destruct (find _ (players r)); [done|].
    case_bool_decide; case_decide; done.
  - destruct pid as [given|]; [|done]. unfold or_else, truthy.
    case_bool_decide; case_decide; done.
Qed.

(** X2: [removePlayer] makes the socket id unknown and leaves every other
    lookup as it was; it retracts nothing the player submitted: the
    recorded votes and mission actions, the selected team, the leader index
    and the phase stay, so the vote of a player who left still counts in
    the tally. *)
Theorem removePlayer_lookup (sid : string) (now : nat) (r : Room) (sid' : string) :
  let r' := removePlayer sid now r in
  getPlayer sid' r' = (if decide (sid' = sid) then None else getPlayer sid' r) ∧
  votes r' = votes r ∧ missionActions r' = missionActions r ∧
  selectedTeam r' = selectedTeam r ∧
  currentLeaderIndex r' = currentLeaderIndex r ∧ phase r' = phase r ∧
  tallyApproves r' = tallyApproves r.
Proof.
  cbv zeta. unfold getPlayer, removePlayer. simpl. repeat split.
  case_decide as Hs.
  - subst sid'. apply find_filter_eq.
  - apply find_filter_neq. done.
Qed.

Lemma set_lastActivityAt_twice now now' r :
  set_lastActivityAt now' (set_players (players r) (set_lastActivityAt now r))
    = set_lastActivityAt now' r.
Proof. destruct r; done. Qed.

(** X3: joining under a socket id that is new to the roster and leaving
    again returns the room to where it was, but for the activity clock;
    and removing a socket id that is not in the roster changes the clock
    only. *)
Theorem removePlayer_after_addPlayer (sid nick : string) (pid : option string)
    (now now' : nat) (r : Room) :
  getPlayer sid r = None →
  removePlayer sid now' (addPlayer sid nick pid now r).1 = set_lastActivityAt now' r ∧
  removePlayer sid now' r = set_lastActivityAt now' r.
Proof.
  intros Hnone. unfold removePlayer, addPlayer. cbn [fst].
  change (players (set_lastActivityAt now (set_players ?ps r))) with ps.
  rewrite filter_app, filter_cons_False, filter_nil, app_nil_r by (simpl; auto).
  rewrite (filter_keeps_all sid (players r) Hnone).
  split; destruct r; done.
Qed.

Lemma removePlayer_after_addPlayer_witness :
  removePlayer "s6" 7 (addPlayer "s6" "Fay" (Some "p6") 6 five_players).1
    = set_lastActivityAt 7 five_players ∧
  removePlayer "s6" 7 five_players = set_lastActivityAt 7 five_players.
Proof. apply (removePlayer_after_addPlayer "s6" "Fay" (Some "p6") 6 7 five_players). reflexivity. Defined.

(** ** Votes, players' ids and socket ids *)

Lemma JsMap_get_set {V} (k : string) (v : V) (m : JsMap.t V) :
  JsMap.get k (JsMap.set k v m) = Some v.
Proof.
  induction m as [|[k' v'] m IH]; simpl.
  - rewrite decide_True; done.
  - destruct (decide (k' = k)) as [->|Hk]; simpl.
    + rewrite decide_True; done.
    + rewrite decide_False; done.
Qed.

Lemma JsMap_set_set {V} (k : string) (v1 v2 : V) (m : JsMap.t V) :
  JsMap.set k v2 (JsMap.set k v1 m) = JsMap.set k v2 m.
Proof.
  induction m as [|[k' v'] m IH]; simpl.
  - rewrite decide_True; done.
  - destruct (decide (k' = k)) as [->|Hk]; simpl.
    + rewrite decide_True; done.
    + rewrite decide_False by done. rewrite IH. done.
Qed.

Lemma JsMap_size_set_again {V} (k : string) (v1 v2 : V) (m : JsMap.t V) :
  JsMap.size (JsMap.set k v2 (JsMap.set k v1 m)) = JsMap.size (JsMap.set k v1 m).
Proof.
  unfold JsMap.size. induction m as [|[k' v'] m IH]; simpl.
  - rewrite decide_True; done.
  - destruct (decide (k' = k)) as [->|Hk]; simpl.
    + rewrite decide_True; done.
    + rewrite decide_False by done. simpl. rewrite IH. done.
Qed.

Lemma find_insert_fresh (f : Player → bool) (ps : list Player) :
  ∀ i x, i < length ps → f x = true → find f ps = None →
         find f (<[i := x]> ps) = Some x.
Proof.
  induction ps as [|p ps IH]; intros i x Hi Hx Hnone; simpl in *; [lia|].
  destruct (f p) eqn:Hp; [done|].
  destruct i as [|i]; simpl.
  - rewrite Hx. done.
  - rewrite Hp. apply IH; [lia|done..].
Qed.

Lemma find_list_find (pid : string) (ps : list Player) (p : Player) :
  find (λ q, bool_decide (p_id q = pid)) ps = Some p →
  ∀ pid', playerId p = pid' →
  ∃ i q, list_find (λ q, playerId q = pid') ps = Some (i, q) ∧ playerId q = pid'.
Proof.
  intros Hfind pid' Hpid.
  assert (Hin : p ∈ ps).
  { apply find_some in Hfind as [Hin _]. apply list_elem_of_In. done. }
  destruct (list_find (λ q, playerId q = pid') ps) as [[i q]|] eqn:Hlf.
  - exists i, q. split; [done|]. apply list_find_Some in Hlf. tauto.
  - exfalso. rewrite list_find_None in Hlf. rewrite Forall_forall in Hlf.
    exact (Hlf p Hin Hpid).
Qed.

(** After [reconnectPlayer] to a socket id that no player holds, the new
    socket id resolves to the player id that reconnected. *)
Lemma reconnectPlayer_resolves (s s' : string) (now : nat) (r : Room) (p : Player) :
  getPlayer s r = Some p → getPlayer s' r = None →
  (reconnectPlayer (playerId p) s' now r).2 = true ∧
  getPlayerIdFromSocket s' (reconnectPlayer (playerId p) s' now r).1
    = Some (playerId p) ∧
  votes (reconnectPlayer (playerId p) s' now r).1 = votes r ∧
  missionActions (reconnectPlayer (playerId p) s' now r).1 = missionActions r ∧
  selectedTeam (reconnectPlayer (playerId p) s' now r).1 = selectedTeam r.
Proof.
  intros Hs Hs'. unfold getPlayer in Hs.
  destruct (find_list_find s (players r) p Hs (playerId p) eq_refl)
    as (i & q & Hlf & Hq).
  unfold reconnectPlayer. rewrite Hlf. cbn [fst snd]. split; [done|].
  split; [|done].
  unfold getPlayerIdFromSocket, getPlayer. simpl.
  apply list_find_Some in Hlf as (Hi & _ & _).
  rewrite (find_insert_fresh _ (players r) i (set_p_id s' q)).
  - simpl. rewrite Hq. done.
  - apply lookup_lt_Some in Hi. done.
  - simpl. apply bool_decide_eq_true_2. done.
  - exact Hs'.
Qed.

(** X4: votes are kept per player, not per connection. A player who votes,
    reconnects under a socket id that nobody holds and votes again has one
    entry in the recorded votes, at the place of the first vote and with the
    value of the second. *)
Theorem submitVote_across_reconnect (s s' : string) (a b : bool)
    (now1 now2 now3 : nat) (r : Room) (p : Player) :
  getPlayer s r = Some p → playerId p ≠ "" → getPlayer s' r = None →
  let r1 := submitVote s a now1 r in
  let reconnected := reconnectPlayer (playerId p) s' now2 r1 in
  let r3 := submitVote s' b now3 reconnected.1 in
  reconnected.2 = true ∧
  votes r1 = JsMap.set (playerId p) a (votes r) ∧
  votes r3 = JsMap.set (playerId p) b (votes r) ∧
  JsMap.get (playerId p) (votes r3) = Some b ∧
  JsMap.size (votes r3) = JsMap.size (votes r1).
Proof.
  intros Hs Hpid Hs'. cbv zeta.
  assert (Hr1 : submitVote s a now1 r
                = set_lastActivityAt now1
                    (set_votes (JsMap.set (playerId p) a (votes r)) r)).
  { unfold submitVote, getPlayerIdFromSocket. rewrite Hs. simpl.
    unfold truthy. rewrite bool_decide_eq_true_2; done. }
  rewrite Hr1.
  set (r1 := set_lastActivityAt now1 _).
  destruct (reconnectPlayer_resolves s s' now2 r1 p Hs Hs')
    as (Hok & Hres & Hvotes & _).
  split; [done|]. split; [done|].
  assert (Hr3 : votes (submitVote s' b now3 (reconnectPlayer (playerId p) s' now2 r1).1)
                = JsMap.set (playerId p) b (JsMap.set (playerId p) a (votes r))).
  { unfold submitVote. rewrite Hres. unfold truthy.
    rewrite bool_decide_eq_true_2 by done. simpl. rewrite Hvotes. done. }
  rewrite Hr3. split; [apply JsMap_set_set|].
  split; [apply JsMap_get_set|]. apply JsMap_size_set_again.
Qed.

Lemma submitVote_across_reconnect_witness :
  let r1 := submitVote "s2" false 6 five_players in
  let reconnected := reconnectPlayer "p2" "s2-new" 7 r1 in
  let r3 := submitVote "s2-new" true 8 reconnected.1 in
  reconnected.2 = true ∧
  votes r1 = JsMap.set "p2" false (votes five_players) ∧
  votes r3 = JsMap.set "p2" true (votes five_players) ∧
  JsMap.get "p2" (votes r3) = Some true ∧
  JsMap.size (votes r3) = JsMap.size (votes r1).
Proof.
  apply (submitVote_across_reconnect "s2" "s2-new" false true 6 7 8 five_players
           (mkPlayer "s2" "p2" "Bob" None None false));
    [reflexivity | discriminate | reflexivity].
Defined.

Lemma reveal_sound r (l : list (string * bool)) : ∀ acc sid a,
  foldl (reveal_step r) acc l !! sid = Some a →
  acc !! sid = Some a ∨
  (sid ≠ "" ∧ sid ≠ "__proto__" ∧
   ∃ pid, (pid, a) ∈ l ∧ getSocketIdFromPlayerId pid r = Some sid).
Proof.
  induction l as [|[pid v] l IH]; intros acc sid a Hl; simpl in Hl; [by left|].
  apply IH in Hl as [Hacc|(Hne & Hnp & pid' & Hin & Hsock)].
  - unfold reveal_step in Hacc. simpl in Hacc.
    destruct (getSocketIdFromPlayerId pid r) as [sock|] eqn:Hsock; [|by left].
    destruct (truthy sock) eqn:Ht; [|by left].
    destruct (decide (sock = "__proto__")) as [Hp|Hp]; [by left|].
    destruct (decide (sock = sid)) as [->|Hne].
    + rewrite lookup_insert_eq in Hacc. injection Hacc as ->. right.
      split; [|split; [exact Hp|]].
      * unfold truthy in Ht. apply bool_decide_eq_true_1 in Ht. done.
      * exists pid. split; [left|done].
    + rewrite lookup_insert_ne in Hacc by done. by left.
  - right. split; [done|]. split; [done|]. exists pid'. split; [by right|done].
Qed.

Lemma reveal_untouched r (l : list (string * bool)) : ∀ acc sid,
  sid ∉ omap (λ pid, getSocketIdFromPlayerId pid r) l.*1 →
  foldl (reveal_step r) acc l !! sid = acc !! sid.
Proof.
  induction l as [|[pid v] l IH]; intros acc sid Hnot; simpl; [done|].
  simpl in Hnot. unfold reveal_step at 2. simpl.
  destruct (getSocketIdFromPlayerId pid r) as [sock|] eqn:Hsock.
  - rewrite not_elem_of_cons in Hnot. destruct Hnot as [Hne Hnot].
    rewrite IH by done.
    destruct (truthy sock); [|done]. case_decide; [done|].
    rewrite lookup_insert_ne; done.
  - apply IH. done.
Qed.

Lemma reveal_complete r (l : list (string * bool)) : ∀ acc pid a sid,
  NoDup (omap (λ pid, getSocketIdFromPlayerId pid r) l.*1) →
  (pid, a) ∈ l → getSocketIdFromPlayerId pid r = Some sid →
  sid ≠ "" → sid ≠ "__proto__" →
  foldl (reveal_step r) acc l !! sid = Some a.
Proof.
  induction l as [|[pid' v] l IH]; intros acc pid a sid Hnd Hin Hsock Hne Hnp.
  - apply elem_of_nil in Hin. done.
  - simpl in Hnd. apply elem_of_cons in Hin as [Heq|Hin].
    + injection Heq as <- <-. rewrite Hsock in Hnd.
      apply NoDup_cons in Hnd as [Hnot _]. simpl.
      rewrite reveal_untouched by done.
      unfold reveal_step. simpl. rewrite Hsock. unfold truthy.
      rewrite bool_decide_eq_true_2 by done.
      rewrite decide_False by done. apply lookup_insert_eq.
    + simpl. apply (IH _ pid); [|done..].
      destruct (getSocketIdFromPlayerId pid' r); [|done].
      apply NoDup_cons in Hnd as [_ Hnd]. done.
Qed.

(** X5: every own property of the object that [getRevealedVotes] returns
    is the recorded vote of a player who is in the roster, held under that
    player's socket id, which is neither empty nor [__proto__]; the votes
    of players who left the roster are not shown, and neither is the vote
    of a player whose socket id is [__proto__], which the assignment does
    not store. When the voters in the roster have pairwise distinct socket
    ids, every vote of a voter whose socket id is neither empty nor
    [__proto__] is shown. *)
Theorem getRevealedVotes_lookup (r : Room) :
  (∀ sid a, getRevealedVotes r !! sid = Some a →
     sid ≠ "" ∧ sid ≠ "__proto__" ∧
     ∃ pid p, (pid, a) ∈ votes r ∧ getPlayerByPlayerId pid r = Some p ∧ p_id p = sid) ∧
  getRevealedVotes r !! "__proto__" = None ∧
  (NoDup (omap (λ pid, getSocketIdFromPlayerId pid r) (JsMap.keys (votes r))) →
   ∀ pid a p, (pid, a) ∈ votes r → getPlayerByPlayerId pid r = Some p →
              p_id p ≠ "" → p_id p ≠ "__proto__" →
              getRevealedVotes r !! p_id p = Some a).
Proof.
  unfold getRevealedVotes.
  assert (Hsound : ∀ sid a, foldl (reveal_step r) ∅ (votes r) !! sid = Some a →
     sid ≠ "" ∧ sid ≠ "__proto__" ∧
     ∃ pid p, (pid, a) ∈ votes r ∧ getPlayerByPlayerId pid r = Some p ∧ p_id p = sid).
  { intros sid a Hl.
    apply reveal_sound in Hl as [Hemp|(Hne & Hnp & pid & Hin & Hsock)].
    - rewrite lookup_empty in Hemp. done.
    - split; [done|]. split; [done|]. unfold getSocketIdFromPlayerId in Hsock.
      destruct (getPlayerByPlayerId pid r) as [p|] eqn:Hp; [|done].
      injection Hsock as <-. exists pid, p. done. }
  split; [exact Hsound|]. split.
  - destruct (foldl (reveal_step r) ∅ (votes r) !! "__proto__") as [a|] eqn:Hl;
      [|done].
    apply Hsound in Hl as (_ & Hnp & _). done.
  - intros Hnd pid a p Hin Hp Hne Hnp.
    apply (reveal_complete r (votes r) ∅ pid); [done..| |done|done].
    unfold getSocketIdFromPlayerId. rewrite Hp. done.
Qed.

Lemma getRevealedVotes_lookup_witness :
  getRevealedVotes (removePlayer "s1" 15 votes_and_actions_recorded) !! "s2"
    = Some false ∧
  let r := (run [(AddPlayer "__proto__" "Zed" (Some "p9"), 1);
                 (AddPlayer "s2" "Bob" (Some "p2"), 2);
                 (SubmitVote "__proto__" true, 3); (SubmitVote "s2" false, 4)]
                (newRoom "ROOM4" None None 0)).1 in
  JsMap.get "p9" (votes r) = Some true ∧
  getRevealedVotes r !! "__proto__" = None ∧
  getRevealedVotes r !! "s2" = Some false.
Proof.
  split.
  - apply (proj2 (proj2 (getRevealedVotes_lookup
                           (removePlayer "s1" 15 votes_and_actions_recorded)))
             ltac:(refine (bool_decide_unpack _ _); vm_compute; reflexivity)
             "p2" false (mkPlayer "s2" "p2" "Bob" None None false)).
    + refine (bool_decide_unpack _ _). vm_compute. reflexivity.
    + reflexivity.
    + discriminate.
    + discriminate.
  - intros r. split; [vm_compute; reflexivity|].
    split; [exact (proj1 (proj2 (getRevealedVotes_lookup r)))|].
    vm_compute. reflexivity.
Defined.

(** ** Leadership: who leads after a turn *)

Lemma leader_flags (ps : list Player) (m : nat) (p : Player) :
  (set_isLeader false <$> ps) !! m = Some p →
  <[m := set_isLeader true p]> (set_isLeader false <$> ps)
    = imap (λ j q, set_isLeader (bool_decide (j = m)) q) ps.
Proof.
  intros Hm. apply list_eq. intros j.
  rewrite list_lookup_imap.
  destruct (decide (j = m)) as [->|Hj].
  - rewrite list_lookup_insert_eq by (apply lookup_lt_Some in Hm; done).
    rewrite list_lookup_fmap in Hm.
    destruct (ps !! m) as [q|]; [|done]. simpl in *.
    injection Hm as <-. rewrite bool_decide_eq_true_2; done.
  - rewrite list_lookup_insert_ne by done. rewrite list_lookup_fmap.
    destruct (ps !! j) as [q|]; [|done]. simpl.
    rewrite bool_decide_eq_false_2; done.
Qed.

(** The room that [nextTurn] leaves when the lead can rotate. *)
Lemma nextTurn_explicit now r n :
  players r ≠ [] → currentLeaderIndex r = Idx n →
  nextTurn now r =
    (set_votes JsMap.empty (set_selectedTeam [] (set_phase "TEAM_SELECTION"
       (set_lastActivityAt now
          (set_players
             (imap (λ j q, set_isLeader
                             (bool_decide (j = (n + 1) mod length (players r))) q)
                   (players r))
             (set_currentLeaderIndex (Idx ((n + 1) mod length (players r))) r))))),
     Normal tt).
Proof.
  intros Hne Hidx.
  assert (Hlen : length (players r) ≠ 0) by (destruct (players r); done).
  set (m := (n + 1) mod length (players r)).
  assert (Hm : m < length (players r)) by (apply Nat.mod_upper_bound; done).
  destruct (lookup_lt_is_Some_2 (set_isLeader false <$> players r) m) as [p Hp].
  { rewrite length_fmap. done. }
  unfold nextTurn. unfold_eff. cbv beta.
  unfold js_succ_mod. rewrite Hidx. rewrite decide_False by done. fold m.
  unfold updateLeader. cbn [currentLeaderIndex set_players set_currentLeaderIndex players].
  rewrite Hp. cbn [currentLeaderIndex set_players set_currentLeaderIndex players].
  rewrite (leader_flags _ _ _ Hp). done.
Qed.

Lemma nextTurn_throws now r :
  ¬ canRotate r →
  ∃ r', nextTurn now r = (r', Throw "TypeError") ∧
        votes r' = votes r ∧ voteRejections r' = voteRejections r ∧
        phase r' = phase r ∧ selectedTeam r' = selectedTeam r.
Proof.
  intros Hnot. unfold nextTurn. unfold_eff. cbv beta.
  rewrite updateLeader_out_of_range.
  - eexists. split; [done|]. done.
  - simpl. unfold js_succ_mod.
    destruct (currentLeaderIndex r) as [n|] eqn:Hidx; [|done].
    case_decide as Hlen; [done|]. exfalso. apply Hnot. split.
    + intros Hnil. rewrite Hnil in Hlen. done.
    + exists n. done.
Qed.

(** X6: when the lead can rotate, [nextTurn] returns; the leader index
    moves one place round the roster, exactly the player at the new index
    carries the leader flag and nothing else of any player changes; the
    proposal under way is dropped (phase TEAM_SELECTION, no selected team,
    no votes). *)
Theorem nextTurn_single_leader (now : nat) (r : Room) (n : nat) :
  players r ≠ [] → currentLeaderIndex r = Idx n →
  ∃ r', nextTurn now r = (r', Normal tt) ∧
        currentLeaderIndex r' = Idx ((n + 1) mod length (players r)) ∧
        (n + 1) mod length (players r) < length (players r') ∧
        length (players r') = length (players r) ∧
        (∀ j q, players r' !! j = Some q →
           (isLeader q = true ↔ currentLeaderIndex r' = Idx j) ∧
           ∃ q0, players r !! j = Some q0 ∧ q = set_isLeader (isLeader q) q0) ∧
        phase r' = "TEAM_SELECTION" ∧ selectedTeam r' = [] ∧ votes r' = JsMap.empty.
Proof.
  intros Hne Hidx. eexists. split; [apply nextTurn_explicit; done|]. simpl.
  assert (Hlen : length (players r) ≠ 0) by (destruct (players r); done).
  split; [done|]. rewrite length_imap.
  split; [apply Nat.mod_upper_bound; done|]. split; [done|].
  split; [|done]. intros j q Hq. rewrite list_lookup_imap in Hq.
  destruct (players r !! j) as [q0|] eqn:Hq0; [|done]. simpl in Hq.
  injection Hq as <-. simpl. split.
  - rewrite bool_decide_eq_true. split; [intros ->; done|]. intros [= ->]. done.
  - exists q0. done.
Qed.

Lemma nextTurn_single_leader_witness :
  ∃ r', nextTurn 6 five_players = (r', Normal tt) ∧
        currentLeaderIndex r' = Idx ((0 + 1) mod length (players five_players)) ∧
        (0 + 1) mod length (players five_players) < length (players r') ∧
        length (players r') = length (players five_players) ∧
        (∀ j q, players r' !! j = Some q →
           (isLeader q = true ↔ currentLeaderIndex r' = Idx j) ∧
           ∃ q0, players five_players !! j = Some q0 ∧ q = set_isLeader (isLeader q) q0) ∧
        phase r' = "TEAM_SELECTION" ∧ selectedTeam r' = [] ∧ votes r' = JsMap.empty.
Proof. apply (nextTurn_single_leader 6 five_players 0); [discriminate | reflexivity]. Defined.

Lemma turns_index (nows : list nat) : ∀ r n,
  players r ≠ [] → currentLeaderIndex r = Idx n →
  nows ≠ [] →
  currentLeaderIndex (foldl (λ r now, (nextTurn now r).1) r nows)
    = Idx ((n + length nows) mod length (players r)) ∧
  length (players (foldl (λ r now, (nextTurn now r).1) r nows)) = length (players r).
Proof.
  induction nows as [|now nows IH]; intros r n Hne Hidx Hnows; [done|].
  simpl. rewrite (nextTurn_explicit now r n Hne Hidx). cbn [fst].
  set (r1 := set_votes _ _).
  assert (Hlen1 : length (players r1) = length (players r)).
  { unfold r1. simpl. apply length_imap. }
  assert (Hne1 : players r1 ≠ []).
  { intros Hnil. rewrite Hnil in Hlen1. destruct (players r); done. }
  destruct nows as [|now' nows'].
  - simpl. split; [|done]. done.
  - destruct (IH r1 _ Hne1 eq_refl ltac:(done)) as [Hi Hl].
    rewrite Hi, Hl, Hlen1. split; [|done]. f_equal.
    rewrite Nat.Div0.add_mod_idemp_l by (destruct (players r); done).
    f_equal. simpl. lia.
Qed.

(** X7: the lead goes round the roster. After [k ≥ 1] turns the leader
    index is [(n + k) mod players.length]; after as many turns as there are
    players it is back where it was. *)
Theorem nextTurn_round (nows : list nat) (r : Room) (n : nat) :
  players r ≠ [] → currentLeaderIndex r = Idx n → nows ≠ [] →
  currentLeaderIndex (foldl (λ r now, (nextTurn now r).1) r nows)
    = Idx ((n + length nows) mod length (players r)) ∧
  (length nows = length (players r) → n < length (players r) →
   currentLeaderIndex (foldl (λ r now, (nextTurn now r).1) r nows) = Idx n).
Proof.
  intros Hne Hidx Hnows.
  destruct (turns_index nows r n Hne Hidx Hnows) as [Hi _].
  split; [done|]. intros Hlen Hn. rewrite Hi, Hlen. f_equal.
  replace (n + length (players r)) with (n + 1 * length (players r)) by lia.
  rewrite Nat.Div0.mod_add. apply Nat.mod_small. done.
Qed.

Lemma nextTurn_round_witness :
  currentLeaderIndex (foldl (λ r now, (nextTurn now r).1) five_players [6; 7; 8; 9; 10])
    = Idx ((0 + 5) mod length (players five_players)) ∧
  (5 = length (players five_players) → 0 < length (players five_players) →
   currentLeaderIndex (foldl (λ r now, (nextTurn now r).1) five_players [6; 7; 8; 9; 10])
     = Idx 0).
Proof.
  apply (nextTurn_round [6; 7; 8; 9; 10] five_players 0);
    [discriminate | reflexivity | discriminate].
Defined.

(** ** tallyVotes: counts, verdict and outcome *)

Lemma countVotes_filter (m : list (string * bool)) :
  countVotes m = (length (filter (λ kv, kv.2 = true) m),
                  length (filter (λ kv, kv.2 = false) m)).
Proof.
  unfold countVotes.
  assert (H : ∀ a rj,
    foldl (λ '(a, rj) '(_, vote), if vote : bool then (S a, rj) else (a, S rj)) (a, rj) m
      = (a + length (filter (λ kv, kv.2 = true) m),
         rj + length (filter (λ kv, kv.2 = false) m))).
  { induction m as [|[k v] m IH]; intros a rj; simpl.
    - f_equal; lia.
    - rewrite !filter_cons. destruct v; simpl; rewrite IH; simpl; f_equal; lia. }
  apply (H 0 0).
Qed.

Lemma filter_true_false (m : list (string * bool)) :
  length (filter (λ kv, kv.2 = true) m) + length (filter (λ kv, kv.2 = false) m)
    = length m.
Proof.
  induction m as [|[k v] m IH]; [done|].
  rewrite !filter_cons. destruct v; simpl; lia.
Qed.

(** X8: [tallyVotes] counts every recorded vote once, as an approval or as
    a rejection; the proposal is approved exactly on a strict majority of
    approvals, so a tie and an empty ballot are rejections; a tally that
    returns has cleared the votes. *)
Theorem tallyVotes_counts (now : nat) (r r' : Room) (t : TallyResult) :
  tallyVotes now r = (r', Normal t) →
  approveCount t = length (filter (λ kv, kv.2 = true) (votes r)) ∧
  rejectCount t = length (filter (λ kv, kv.2 = false) (votes r)) ∧
  approveCount t + rejectCount t = JsMap.size (votes r) ∧
  (approved t = true ↔ rejectCount t < approveCount t) ∧
  (approveCount t = rejectCount t → approved t = false) ∧
  (votes r = JsMap.empty → approved t = false) ∧
  votes r' = JsMap.empty ∧ lastActivityAt r' = now.
Proof.
  intros Htally.
  assert (Hshape : approveCount t = (countVotes (votes r)).1 ∧
                   rejectCount t = (countVotes (votes r)).2 ∧
                   approved t = tallyApproves r ∧
                   votes r' = JsMap.empty ∧ lastActivityAt r' = now).
  { destruct (tallyApproves r) eqn:Happ.
    - rewrite (tallyVotes_approved now r Happ) in Htally.
      injection Htally as <- <-. done.
    - destruct (decide (MAX_REJECTIONS ≤ S (voteRejections r))) as [Hmax|Hmax].
      + rewrite (tallyVotes_penalty now r Happ Hmax) in Htally.
        injection Htally as <- <-. done.
      + rewrite (tallyVotes_rejected now r Happ) in Htally by lia.
        destruct (nextTurn now _) as [r2 [[]|e]]; [|done].
        injection Htally as <- <-. done. }
  destruct Hshape as (Ha & Hr & Happ & Hv & Hl).
  rewrite countVotes_filter in Ha, Hr. simpl in Ha, Hr.
  assert (Hverdict : approved t = bool_decide (rejectCount t < approveCount t)).
  { rewrite Happ. unfold tallyApproves. rewrite countVotes_filter. simpl.
    rewrite Ha, Hr. done. }
  split; [done|]. split; [done|].
  split; [rewrite Ha, Hr; apply filter_true_false|].
  split; [rewrite Hverdict; apply bool_decide_eq_true|].
  split; [intros Heq; rewrite Hverdict; apply bool_decide_eq_false_2; lia|].
  split; [|done].
  intros Hempty. rewrite Hverdict, Ha, Hr, Hempty. done.
Qed.

Lemma tallyVotes_counts_witness :
  ∃ r' t, tallyVotes 6 five_players = (r', Normal t) ∧
          approved t = false ∧ approveCount t + rejectCount t = 0 ∧
          votes r' = JsMap.empty.
Proof.
  assert (H : ∃ r' t, tallyVotes 6 five_players = (r', Normal t))
    by (eexists _, _; vm_compute; reflexivity).
  destruct H as (r' & t & H). exists r', t. split; [exact H|].
  destruct (tallyVotes_counts 6 five_players r' t H)
    as (_ & _ & Hsum & _ & _ & Hempty & Hv & _).
  split; [apply Hempty; reflexivity|]. split; [exact Hsum|exact Hv].
Defined.

Lemma canRotate_dec r : {canRotate r} + {¬ canRotate r}.
Proof.
  unfold canRotate. destruct (decide (players r = [])) as [Hp|Hp].
  - right. intros [H _]. done.
  - destruct (currentLeaderIndex r) as [n|].
    + left. split; [done|]. exists n. done.
    + right. intros [_ [n Hn]]. done.
Qed.

(** X9: [tallyVotes] throws in one situation only: the proposal is
    rejected, the rejection does not reach [MAX_REJECTIONS], and the lead
    cannot rotate (the roster is empty or the leader index is not a
    number). The rejection has been counted by then and the votes are still
    recorded, so a second call counts the same ballot as one more
    rejection. In every other situation it returns. *)
Theorem tallyVotes_throws_iff (now : nat) (r : Room) :
  (is_normal (tallyVotes now r).2 = false ↔
     tallyApproves r = false ∧ S (voteRejections r) < MAX_REJECTIONS ∧ ¬ canRotate r) ∧
  (is_normal (tallyVotes now r).2 = false →
     (tallyVotes now r).2 = Throw "TypeError" ∧
     voteRejections (tallyVotes now r).1 = S (voteRejections r) ∧
     votes (tallyVotes now r).1 = votes r ∧
     phase (tallyVotes now r).1 = phase r).
Proof.
  destruct (tallyApproves r) eqn:Happ.
  { rewrite (tallyVotes_approved now r Happ). simpl. split; [|done].
    split; [done|]. intros (H & _); done. }
  destruct (decide (MAX_REJECTIONS ≤ S (voteRejections r))) as [Hmax|Hmax].
  { rewrite (tallyVotes_penalty now r Happ Hmax). simpl. split; [|done].
    split; [done|]. intros (_ & H & _). lia. }
  rewrite (tallyVotes_rejected now r Happ) by lia.
  destruct (canRotate_dec r) as [Hrot|Hrot].
  - destruct (canRotate_nextTurn now (set_voteRejections (S (voteRejections r)) r))
      as [r2 Hr2]; [exact Hrot|].
    rewrite Hr2. simpl. split; [|done]. split; [done|]. intros (_ & _ & H). done.
  - destruct (nextTurn_throws now (set_voteRejections (S (voteRejections r)) r))
      as (r2 & Hr2 & Hv & Hs & Hp & _); [exact Hrot|].
    rewrite Hr2. simpl. split.
    + split; [intros _; split; [done|split; [lia|done]]|done].
    + intros _. done.
Qed.

Lemma tallyVotes_throws_iff_witness :
  (tallyVotes 5 (newRoom "ROOM4" None None 0)).2 = Throw "TypeError" ∧
  voteRejections (tallyVotes 5 (newRoom "ROOM4" None None 0)).1 = 1 ∧
  votes (tallyVotes 5 (newRoom "ROOM4" None None 0)).1 = [] ∧
  phase (tallyVotes 5 (newRoom "ROOM4" None None 0)).1 = "LOBBY".
Proof.
  apply (proj2 (tallyVotes_throws_iff 5 (newRoom "ROOM4" None None 0))). reflexivity.
Defined.

(** X10: what a returning [tallyVotes] does to the room. An approval opens
    the mission and keeps the team, the roster and the leader; a rejection
    without penalty passes the lead to the next player and drops the team;
    the penalty ends the game with [failedMissions] forced to
    [MISSIONS_TO_FAIL]. No tally changes the mission index, the succeeded
    missions or the recorded mission actions. *)
Theorem tallyVotes_outcome (now : nat) (r r' : Room) (t : TallyResult) :
  tallyVotes now r = (r', Normal t) →
  (approved t = true →
     penaltyApplied t = false ∧ phase r' = "MISSION" ∧
     selectedTeam r' = selectedTeam r ∧ players r' = players r ∧
     currentLeaderIndex r' = currentLeaderIndex r ∧
     failedMissions r' = failedMissions r) ∧
  (approved t = false → penaltyApplied t = false →
     phase r' = "TEAM_SELECTION" ∧ selectedTeam r' = [] ∧
     currentLeaderIndex r' = js_succ_mod (currentLeaderIndex r) (length (players r)) ∧
     js_index (players r') (currentLeaderIndex r') ≠ None ∧
     failedMissions r' = failedMissions r) ∧
  (penaltyApplied t = true →
     approved t = false ∧ phase r' = "GAME_OVER" ∧
     failedMissions r' = MISSIONS_TO_FAIL ∧
     selectedTeam r' = selectedTeam r ∧ players r' = players r ∧
     currentLeaderIndex r' = currentLeaderIndex r) ∧
  currentMissionIndex r' = currentMissionIndex r ∧
  succeededMissions r' = succeededMissions r ∧
  missionActions r' = missionActions r.
Proof.
  intros Htally. destruct (tallyApproves r) eqn:Happ.
  { rewrite (tallyVotes_approved now r Happ) in Htally.
    injection Htally as <- <-. simpl. repeat split; done. }
  destruct (decide (MAX_REJECTIONS ≤ S (voteRejections r))) as [Hmax|Hmax].
  { rewrite (tallyVotes_penalty now r Happ Hmax) in Htally.
    injection Htally as <- <-. simpl. repeat split; done. }
  rewrite (tallyVotes_rejected now r Happ) in Htally by lia.
  destruct (canRotate_dec r) as [[Hne [n Hidx]]|Hrot].
  - rewrite (nextTurn_explicit now (set_voteRejections (S (voteRejections r)) r) n)
      in Htally by done.
    injection Htally as <- <-. simpl.
    assert (Hlen : length (players r) ≠ 0) by (destruct (players r); done).
    split; [done|]. split; [|done]. intros _ _.
    split; [done|]. split; [done|].
    unfold js_succ_mod. rewrite Hidx, decide_False by done.
    split; [done|]. split; [|done]. simpl.
    rewrite list_lookup_imap.
    destruct (lookup_lt_is_Some_2 (players r) ((n + 1) mod length (players r)))
      as [q Hq]; [apply Nat.mod_upper_bound; done|].
    rewrite Hq. done.
  - destruct (nextTurn_throws now (set_voteRejections (S (voteRejections r)) r))
      as (r2 & Hr2 & _); [exact Hrot|].
    rewrite Hr2 in Htally. done.
Qed.

Lemma tallyVotes_outcome_witness :
  ∃ r' t, tallyVotes 6 five_players = (r', Normal t) ∧
          phase r' = "TEAM_SELECTION" ∧ selectedTeam r' = [] ∧
          currentLeaderIndex r' = Idx 1.
Proof.
  assert (H : ∃ r' t, tallyVotes 6 five_players = (r', Normal t) ∧
                      approved t = false ∧ penaltyApplied t = false)
    by (eexists _, _; vm_compute; split; [reflexivity|split; reflexivity]).
  destruct H as (r' & t & H & Ha & Hp). exists r', t. split; [exact H|].
  destruct (tallyVotes_outcome 6 five_players r' t H) as (_ & Hrej & _).
  destruct (Hrej Ha Hp) as (Hph & Hteam & Hidx & _).
  split; [exact Hph|]. split; [exact Hteam|]. exact Hidx.
Defined.

(** ** Team sizes and the team on a mission *)

Lemma MISSION_CONFIG_rows :
  forallb (λ n, forallb (λ i,
       let size := default 0 (MISSION_CONFIG !! n ≫= (λ sizes, sizes !! i)) in
       (1 <=? size) && (size <=? n)) (seq 0 5) &&
     bool_decide ((length <$> MISSION_CONFIG !! n) = Some 5)) (seq 1 20) = true.
Proof. vm_compute. reflexivity. Qed.

Lemma MISSION_CONFIG_None n : ¬ (1 ≤ n ≤ 20) → MISSION_CONFIG !! n = None.
Proof.
  intros Hn. unfold MISSION_CONFIG. apply not_elem_of_list_to_map_1.
  change (n ∉ seq 1 20). rewrite elem_of_seq. lia.
Qed.

(** X11: the team size of the table fits the roster: for 1 to 20 players
    and the five missions it is at least 1 and at most the number of
    players. Outside the table (no player, more than 20 players, or a
    mission index past the fifth) the size is 0, and then the empty team is
    the only team [selectTeam] accepts. *)
Theorem getCurrentMissionSize_table (r : Room) :
  (1 ≤ length (players r) ≤ 20 ∧ currentMissionIndex r < 5 →
     1 ≤ getCurrentMissionSize r ≤ length (players r)) ∧
  (¬ (1 ≤ length (players r) ≤ 20 ∧ currentMissionIndex r < 5) →
     getCurrentMissionSize r = 0 ∧
     ∀ ids now, (selectTeam ids now r).2 = true ↔ ids = []).
Proof.
  unfold getCurrentMissionSize.
  pose proof MISSION_CONFIG_rows as Hrows. rewrite forallb_forall in Hrows.
  split.
  - intros [Hn Hi]. specialize (Hrows (length (players r))).
    rewrite <- list_elem_of_In, elem_of_seq in Hrows.
    specialize (Hrows ltac:(lia)). apply andb_prop in Hrows as [Hrows _].
    rewrite forallb_forall in Hrows. specialize (Hrows (currentMissionIndex r)).
    rewrite <- list_elem_of_In, elem_of_seq in Hrows.
    specialize (Hrows ltac:(lia)). cbv zeta in Hrows.
    apply andb_prop in Hrows as [H1 H2].
    apply Nat.leb_le in H1, H2. lia.
  - intros Hout.
    assert (Hzero : default 0 (MISSION_CONFIG !! length (players r)
                                ≫= (λ sizes, sizes !! currentMissionIndex r)) = 0).
    { destruct (decide (1 ≤ length (players r) ≤ 20)) as [Hn|Hn].
      - specialize (Hrows (length (players r))).
        rewrite <- list_elem_of_In, elem_of_seq in Hrows.
        specialize (Hrows ltac:(lia)). apply andb_prop in Hrows as [_ Hrows].
        apply bool_decide_eq_true_1 in Hrows.
        destruct (MISSION_CONFIG !! length (players r)) as [sizes|]; [|done].
        simpl in *. injection Hrows as Hlen.
        rewrite lookup_ge_None_2 by lia. done.
      - rewrite MISSION_CONFIG_None by done. done. }
    split; [done|]. intros ids now. unfold selectTeam, getCurrentMissionSize.
    rewrite Hzero. case_decide as Hlen.
    + simpl. split; [done|]. intros ->. done.
    + destruct ids; [|simpl in Hlen; lia]. done.
Qed.

Lemma getCurrentMissionSize_table_witness :
  1 ≤ getCurrentMissionSize five_players ≤ length (players five_players) ∧
  getCurrentMissionSize (newRoom "ROOM4" None None 0) = 0.
Proof.
  split.
  - apply (proj1 (getCurrentMissionSize_table five_players)). vm_compute. lia.
  - apply (proj2 (getCurrentMissionSize_table (newRoom "ROOM4" None None 0))).
    vm_compute. lia.
Defined.

Lemma selectTeam_true ids now r :
  (selectTeam ids now r).2 = true →
  ∃ pids, mapM (λ sid, getPlayerIdFromSocket sid r) ids = Some pids ∧
          (selectTeam ids now r).1
            = set_lastActivityAt now (set_phase "VOTE" (set_selectedTeam pids r)).
Proof.
  unfold selectTeam. case_decide; [done|].
  destruct (mapM _ ids) as [pids|]; [|done]. intros _. exists pids. done.
Qed.

(** X12: after [selectTeam] has accepted a team, a mission action is
    accepted from a socket exactly when its player carries a non-empty
    player id that is the player id of one of the selected players. *)
Theorem submitMissionAction_only_the_team (ids : list string) (now : nat)
    (r : Room) (sid : string) (ok : bool) (now' : nat) :
  (selectTeam ids now r).2 = true →
  ((submitMissionAction sid ok now' (selectTeam ids now r).1).2 = true ↔
   ∃ p, getPlayer sid r = Some p ∧ playerId p ≠ "" ∧
        ∃ sid0 p0, sid0 ∈ ids ∧ getPlayer sid0 r = Some p0 ∧
                   playerId p0 = playerId p).
Proof.
  intros Hsel. destruct (selectTeam_true ids now r Hsel) as (pids & Hmap & ->).
  apply mapM_Some in Hmap.
  unfold submitMissionAction, getPlayerIdFromSocket, getPlayer. simpl.
  fold (getPlayer sid r).
  destruct (getPlayer sid r) as [p|] eqn:Hp; simpl.
  - unfold truthy. case_bool_decide as Hpid; simpl.
    + case_bool_decide as Hin; simpl.
      * split; [|done]. intros _. exists p. split; [done|]. split; [done|].
        apply list_elem_of_lookup in Hin as [i Hi].
        destruct (Forall2_lookup_r _ _ _ _ _ Hmap Hi) as (sid0 & Hsid0 & Hres).
        unfold getPlayerIdFromSocket in Hres.
        destruct (getPlayer sid0 r) as [p0|] eqn:Hp0; [|done].
        injection Hres as Hres. exists sid0, p0.
        split; [apply list_elem_of_lookup; eauto|]. done.
      * split; [done|]. intros (p' & [= <-] & _ & sid0 & p0 & Hin0 & Hp0 & Heq).
        exfalso. apply Hin.
        apply list_elem_of_lookup in Hin0 as [i Hi].
        destruct (Forall2_lookup_l _ _ _ _ _ Hmap Hi) as (pid0 & Hpid0 & Hres).
        unfold getPlayerIdFromSocket, getPlayer in Hres. rewrite Hp0 in Hres.
        injection Hres as <-. rewrite <- Heq.
        apply list_elem_of_lookup. eauto.
    + split; [done|]. intros (p' & [= <-] & Hne & _). done.
  - split; [done|]. intros (p' & ? & _). done.
Qed.

Lemma submitMissionAction_only_the_team_witness :
  (submitMissionAction "s2" false 7 (selectTeam ["s1"; "s2"] 6 five_players).1).2 = true.
Proof.
  apply (proj2 (submitMissionAction_only_the_team ["s1"; "s2"] 6 five_players
                  "s2" false 7 eq_refl)).
  exists (mkPlayer "s2" "p2" "Bob" None None false).
  split; [reflexivity|]. split; [discriminate|].
  exists "s2", (mkPlayer "s2" "p2" "Bob" None None false).
  split; [|split; reflexivity]. apply list_elem_of_further, list_elem_of_here.
Defined.

Lemma NoDup_fmap_elem_eq {A B} (f : A → B) (l : list A) (x y : A) :
  NoDup (f <$> l) → x ∈ l → y ∈ l → f x = f y → x = y.
Proof.
  intros Hnd Hx Hy Hf.
  apply list_elem_of_lookup in Hx as [i Hi]. apply list_elem_of_lookup in Hy as [j Hj].
  assert (i = j).
  { apply (NoDup_lookup _ i j (f x) Hnd).
    - rewrite list_lookup_fmap, Hi. done.
    - rewrite list_lookup_fmap, Hj, Hf. done. }
  subst j. congruence.
Qed.

Lemma getPlayerByPlayerId_Some pid r p :
  getPlayerByPlayerId pid r = Some p → p ∈ players r ∧ playerId p = pid.
Proof.
  unfold getPlayerByPlayerId. intros H. apply find_some in H as [Hin Hp].
  apply bool_decide_eq_true_1 in Hp. split; [apply list_elem_of_In; done|done].
Qed.

Lemma getPlayerByPlayerId_is_Some pid r p :
  p ∈ players r → playerId p = pid → is_Some (getPlayerByPlayerId pid r).
Proof.
  intros Hin Hp. unfold getPlayerByPlayerId.
  destruct (find _ (players r)) as [q|] eqn:Hfind; [done|]. exfalso.
  apply list_elem_of_In in Hin.
  pose proof (find_none _ _ Hfind p Hin) as Hno. simpl in Hno.
  apply bool_decide_eq_false_1 in Hno. done.
Qed.

(** X13: with pairwise distinct player ids in the roster and no empty
    socket id in the request, the team that [selectTeam] accepted reads
    back through [getSelectedTeamSocketIds] as the socket ids that were
    passed, in the same order. *)
Theorem getSelectedTeamSocketIds_selectTeam (ids : list string) (now : nat) (r : Room) :
  NoDup (playerId <$> players r) → "" ∉ ids →
  (selectTeam ids now r).2 = true →
  getSelectedTeamSocketIds (selectTeam ids now r).1 = ids.
Proof.
  intros Hnd Hemp Hsel.
  destruct (selectTeam_true ids now r Hsel) as (pids & Hmap & ->).
  apply mapM_Some in Hmap. unfold getSelectedTeamSocketIds. simpl.
  change (omap (λ pid, getSocketIdFromPlayerId pid (set_lastActivityAt now
            (set_phase "VOTE" (set_selectedTeam pids r)))) pids)
    with (omap (λ pid, getSocketIdFromPlayerId pid r) pids).
  clear Hsel. induction Hmap as [|sid pid ids pids Hres Hmap IH]; [done|].
  apply not_elem_of_cons in Hemp as [Hsid Hemp]. simpl.
  unfold getPlayerIdFromSocket in Hres.
  destruct (getPlayer sid r) as [p|] eqn:Hp; [|done]. injection Hres as <-.
  apply getPlayer_Some in Hp as [Hin Hpsid].
  destruct (getPlayerByPlayerId_is_Some (playerId p) r p Hin eq_refl) as [q Hq].
  unfold getSocketIdFromPlayerId at 1. rewrite Hq. simpl.
  apply getPlayerByPlayerId_Some in Hq as [Hqin Hqp].
  rewrite (NoDup_fmap_elem_eq playerId (players r) q p Hnd Hqin Hin Hqp).
  rewrite Hpsid. rewrite filter_cons_True.
  - f_equal. apply IH. done.
  - unfold truthy. apply bool_decide_eq_true_2. done.
Qed.

Lemma getSelectedTeamSocketIds_selectTeam_witness :
  getSelectedTeamSocketIds (selectTeam ["s3"; "s1"] 6 five_players).1 = ["s3"; "s1"].
Proof.
  apply (getSelectedTeamSocketIds_selectTeam ["s3"; "s1"] 6 five_players).
  - refine (bool_decide_unpack _ _). vm_compute. reflexivity.
  - refine (bool_decide_unpack _ _). vm_compute. reflexivity.
  - reflexivity.
Defined.

(** ** resolveMission and the expansions *)

(** [resolveMission] step by step: the books are kept, the callbacks run
    on the tentative phase, the phase is set, and the lead rotates when the
    phase is TEAM_SELECTION. *)
Lemma resolveMission_steps (hookManager : HookManager) now r :
  let fails := countFails (missionActions r) in
  let ok := bool_decide (fails = 0) in
  let r1 :=
    set_missionActions JsMap.empty
      (set_missionHistory (missionHistory r ++ [(ok, fails)])
         (if ok then set_succeededMissions (S (succeededMissions r)) r
          else set_failedMissions (S (failedMissions r)) r)) in
  let over := bool_decide (MISSIONS_TO_FAIL ≤ failedMissions r1 ∨
                           MISSIONS_TO_SUCCEED ≤ succeededMissions r1) in
  let r2 := if over then r1 else set_currentMissionIndex (S (currentMissionIndex r1)) r1 in
  let tentative := if over then "GAME_OVER" else "TEAM_SELECTION" in
  resolveMission hookManager now r =
    match trigger readsStop hookManager "mission:resolve"
            (mkCtx (Some (ok, fails)) (Some tentative) false) r2 with
    | (w, Normal hookResult) =>
        let w' := set_phase (or_else (nextPhase hookResult) tentative) w in
        if decide (phase w' = "TEAM_SELECTION") then
          match nextTurn now w' with
          | (r', Normal _) => (r', Normal (mkMissionResult ok fails (votesSocketIds r)))
          | (r', Throw e) => (r', Throw e)
          end
        else (w', Normal (mkMissionResult ok fails (votesSocketIds r)))
    | (w, Throw e) => (w, Throw e)
    end.
Proof.
  cbv zeta. unfold resolveMission. unfold_eff.
  destruct (bool_decide (countFails (missionActions r) = 0)); simpl.
  - destruct (decide (MISSIONS_TO_FAIL ≤ failedMissions r)) as [Hf|Hf]; simpl;
      [rewrite bool_decide_eq_true_2 by (left; done)|];
      [|destruct (decide (MISSIONS_TO_SUCCEED ≤ S (succeededMissions r))) as [Hs|Hs]; simpl;
        [rewrite bool_decide_eq_true_2 by (right; done)
        |rewrite bool_decide_eq_false_2 by (intros [?|?]; done)]];
      match goal with |- context [trigger _ _ _ ?c ?w] =>
        destruct (trigger readsStop hookManager "mission:resolve" c w) as [w' [c'|e]] end;
      simpl; try done; case_decide; cbv beta; try done;
      match goal with |- context [nextTurn now ?w] =>
        destruct (nextTurn now w) as [r' [[]|e]] end; done.
  - destruct (decide (MISSIONS_TO_FAIL ≤ S (failedMissions r))) as [Hf|Hf]; simpl;
      [rewrite bool_decide_eq_true_2 by (left; done)|];
      [|destruct (decide (MISSIONS_TO_SUCCEED ≤ succeededMissions r)) as [Hs|Hs]; simpl;
        [rewrite bool_decide_eq_true_2 by (right; done)
        |rewrite bool_decide_eq_false_2 by (intros [?|?]; done)]];
      match goal with |- context [trigger _ _ _ ?c ?w] =>
        destruct (trigger readsStop hookManager "mission:resolve" c w) as [w' [c'|e]] end;
      simpl; try done; case_decide; cbv beta; try done;
      match goal with |- context [nextTurn now ?w] =>
        destruct (nextTurn now w) as [r' [[]|e]] end; done.
Qed.

Lemma trigger_no_callbacks {W Ctx} (stops : Ctx → W → bool)
    (hooks : gmap string (list (@HookCallback W Ctx))) hookName context w :
  default [] (hooks !! hookName) = [] →
  trigger stops hooks hookName context w = (w, Normal context).
Proof. intros H. unfold trigger. rewrite H. done. Qed.

Lemma trigger_callbacks {W Ctx} (stops : Ctx → W → bool)
    (hooks : gmap string (list (@HookCallback W Ctx))) hookName callbacks context w :
  default [] (hooks !! hookName) = callbacks →
  trigger stops hooks hookName context w = for_callbacks stops callbacks context w.
Proof. intros <-. apply trigger_is_loop. Qed.

Lemma countFails_zero (m : list (string * bool)) :
  countFails m = 0 ↔ Forall (λ kv, kv.2 = true) m.
Proof.
  rewrite countFails_filter. induction m as [|[k v] m IH].
  - split; [constructor|done].
  - rewrite filter_cons, Forall_cons. destruct v; simpl.
    + rewrite IH. tauto.
    + split; [done|]. intros [? _]. done.
Qed.

Ltac settle_phase :=
  repeat match goal with
         | |- context [truthy (String ?a ?s)] =>
             change (truthy (String a s)) with true
         end;
  cbv iota; cbn [phase set_phase];
  rewrite ?decide_True by done; rewrite ?decide_False by done.

Ltac settle_books :=
  simpl in *; unfold MISSIONS_TO_FAIL, MISSIONS_TO_SUCCEED in *;
  repeat split; intros; simpl in *; try done; try lia.

(** X14: [resolveMission] in a game without [mission:resolve] callbacks,
    on a roster that can rotate. The mission counts as a success when no
    recorded action is a sabotage, and exactly one of the two counters goes
    up by one; the result is appended to the history and the recorded
    actions are cleared. When a counter has reached its threshold the game
    is over and the mission index, the leader, the team and the votes stay
    as they were; otherwise the mission index goes up by one and the lead
    passes to the next player for a new proposal. *)
Theorem resolveMission_base_game (hookManager : HookManager) (now : nat)
    (r : Room) (n : nat) :
  default [] (hookManager !! "mission:resolve") = [] →
  players r ≠ [] → currentLeaderIndex r = Idx n →
  ∃ r' res,
    resolveMission hookManager now r = (r', Normal res) ∧
    (success res = true ↔ Forall (λ kv, kv.2 = true) (missionActions r)) ∧
    succeededMissions r' = succeededMissions r + (if success res then 1 else 0) ∧
    failedMissions r' = failedMissions r + (if success res then 0 else 1) ∧
    missionHistory r' = missionHistory r ++ [(success res, failCount res)] ∧
    missionActions r' = JsMap.empty ∧
    voteRejections r' = voteRejections r ∧
    (MISSIONS_TO_FAIL ≤ failedMissions r' ∨ MISSIONS_TO_SUCCEED ≤ succeededMissions r' →
       phase r' = "GAME_OVER" ∧ currentMissionIndex r' = currentMissionIndex r ∧
       currentLeaderIndex r' = Idx n ∧ players r' = players r ∧
       selectedTeam r' = selectedTeam r ∧ votes r' = votes r) ∧
    (failedMissions r' < MISSIONS_TO_FAIL ∧ succeededMissions r' < MISSIONS_TO_SUCCEED →
       phase r' = "TEAM_SELECTION" ∧ currentMissionIndex r' = S (currentMissionIndex r) ∧
       currentLeaderIndex r' = Idx ((n + 1) mod length (players r)) ∧
       selectedTeam r' = [] ∧ votes r' = JsMap.empty).
Proof.
  intros Hcbs Hne Hidx. rewrite resolveMission_steps. cbv zeta.
  rewrite trigger_no_callbacks by exact Hcbs.
  assert (Hok : bool_decide (countFails (missionActions r) = 0) = true ↔
                Forall (λ kv, kv.2 = true) (missionActions r)).
  { rewrite bool_decide_eq_true. apply countFails_zero. }
  destruct (bool_decide (countFails (missionActions r) = 0)) eqn:Hs;
    cbn [failedMissions succeededMissions set_missionActions set_missionHistory
         set_succeededMissions set_failedMissions];
    destruct (bool_decide (MISSIONS_TO_FAIL ≤ _ ∨ MISSIONS_TO_SUCCEED ≤ _)) eqn:Hover;
    [apply bool_decide_eq_true_1 in Hover|apply bool_decide_eq_false_1 in Hover
    |apply bool_decide_eq_true_1 in Hover|apply bool_decide_eq_false_1 in Hover];
    cbn [nextPhase or_else]; settle_phase;
    try match goal with |- context [nextTurn now ?w] =>
          rewrite (nextTurn_explicit now w n Hne Hidx) end;
    eexists _, _; (split; [reflexivity|]); (split; [exact Hok|]); settle_books.
Qed.

Lemma resolveMission_base_game_witness :
  ∃ r' res,
    resolveMission newHookManager 13 mission_under_way = (r', Normal res) ∧
    (success res = true ↔ Forall (λ kv, kv.2 = true) (missionActions mission_under_way)) ∧
    succeededMissions r'
      = succeededMissions mission_under_way + (if success res then 1 else 0) ∧
    failedMissions r'
      = failedMissions mission_under_way + (if success res then 0 else 1) ∧
    missionHistory r'
      = missionHistory mission_under_way ++ [(success res, failCount res)] ∧
    missionActions r' = JsMap.empty ∧
    voteRejections r' = voteRejections mission_under_way ∧
    (MISSIONS_TO_FAIL ≤ failedMissions r' ∨ MISSIONS_TO_SUCCEED ≤ succeededMissions r' →
       phase r' = "GAME_OVER" ∧
       currentMissionIndex r' = currentMissionIndex mission_under_way ∧
       currentLeaderIndex r' = Idx 0 ∧ players r' = players mission_under_way ∧
       selectedTeam r' = selectedTeam mission_under_way ∧
       votes r' = votes mission_under_way) ∧
    (failedMissions r' < MISSIONS_TO_FAIL ∧ succeededMissions r' < MISSIONS_TO_SUCCEED →
       phase r' = "TEAM_SELECTION" ∧
       currentMissionIndex r' = S (currentMissionIndex mission_under_way) ∧
       currentLeaderIndex r' = Idx ((0 + 1) mod length (players mission_under_way)) ∧
       selectedTeam r' = [] ∧ votes r' = JsMap.empty).
Proof.
  apply (resolveMission_base_game newHookManager 13 mission_under_way 0).
  - reflexivity.
  - vm_compute. discriminate.
  - vm_compute. reflexivity.
Defined.

(** The winner after an assassination attempt. *)
Lemma getWinner_handleAssassination targetId r :
  getWinner (handleAssassination targetId r).1 =
    if (handleAssassination targetId r).2.1 then Some SPY
    else if decide (MISSIONS_TO_SUCCEED ≤ succeededMissions r) then Some RESISTANCE
    else if decide (MISSIONS_TO_FAIL ≤ failedMissions r) then Some SPY
    else None.
Proof.
  unfold getWinner, handleAssassination.
  cbn [fst snd phase set_phase assassinationTarget set_assassinationTarget
       players succeededMissions failedMissions].
  rewrite (bool_decide_eq_true_2 ("GAME_OVER" = "GAME_OVER")) by done. cbn [negb].
  unfold merlinIdOf. cbn [players set_assassinationTarget].
  destruct (find _ (players r)) as [merlin|]; unfold truthy;
    repeat case_bool_decide; simplify_eq; simpl; try done.
Qed.

(** Evaluates the [bool_decide]s of closed propositions. *)
Ltac close_bool_decides :=
  repeat match goal with
         | |- context [bool_decide ?P] =>
             let b := eval vm_compute in (bool_decide P) in
             lazymatch b with
             | true => change (bool_decide P) with true
             | false => change (bool_decide P) with false
             end
         end.

(** X15: with the callback of the merlin-assassin expansion, the third
    succeeded mission does not end the game: the phase is ASSASSINATION,
    nobody has won yet and the lead does not rotate; the winner is then
    decided by [handleAssassination], the spies if it names Merlin's socket
    id and the resistance otherwise. Three failed missions (with fewer than
    three succeeded) still end the game, and a game that goes on passes
    the lead as in the base game. *)
Theorem resolveMission_merlin_assassin (hookManager : HookManager) (now : nat)
    (r : Room) (n : nat) :
  default [] (hookManager !! "mission:resolve") = [merlinAssassin_missionResolve] →
  players r ≠ [] → currentLeaderIndex r = Idx n →
  ∃ r' res,
    resolveMission hookManager now r = (r', Normal res) ∧
    succeededMissions r' = succeededMissions r + (if success res then 1 else 0) ∧
    failedMissions r' = failedMissions r + (if success res then 0 else 1) ∧
    (3 ≤ succeededMissions r' →
       phase r' = "ASSASSINATION" ∧ getWinner r' = None ∧
       currentLeaderIndex r' = Idx n ∧
       currentMissionIndex r' = currentMissionIndex r ∧
       ∀ targetId,
         getWinner (handleAssassination targetId r').1
           = Some (if (handleAssassination targetId r').2.1 then SPY else RESISTANCE)) ∧
    (succeededMissions r' < 3 → MISSIONS_TO_FAIL ≤ failedMissions r' →
       phase r' = "GAME_OVER" ∧ currentLeaderIndex r' = Idx n) ∧
    (succeededMissions r' < 3 → failedMissions r' < MISSIONS_TO_FAIL →
       phase r' = "TEAM_SELECTION" ∧
       currentMissionIndex r' = S (currentMissionIndex r) ∧
       currentLeaderIndex r' = Idx ((n + 1) mod length (players r))).
Proof.
  intros Hcbs Hne Hidx. rewrite resolveMission_steps. cbv zeta.
  rewrite (trigger_callbacks _ _ _ _ _ _ Hcbs).
  rewrite for_callbacks_cons. unfold merlinAssassin_missionResolve at 1.
  cbn [nextPhase result stopPropagation readsStop for_callbacks eff_ret].
  destruct (bool_decide (countFails (missionActions r) = 0)) eqn:Hs;
    cbn [failedMissions succeededMissions set_missionActions set_missionHistory
         set_succeededMissions set_failedMissions set_currentMissionIndex];
    destruct (bool_decide (MISSIONS_TO_FAIL ≤ _ ∨ MISSIONS_TO_SUCCEED ≤ _)) eqn:Hover;
    [apply bool_decide_eq_true_1 in Hover|apply bool_decide_eq_false_1 in Hover
    |apply bool_decide_eq_true_1 in Hover|apply bool_decide_eq_false_1 in Hover];
    cbn [failedMissions succeededMissions set_missionActions set_missionHistory
         set_succeededMissions set_failedMissions set_currentMissionIndex];
    close_bool_decides; rewrite ?andb_false_r; rewrite ?andb_true_r;
    try (destruct (bool_decide (3 ≤ _)) eqn:H3;
         [apply bool_decide_eq_true_1 in H3|apply bool_decide_eq_false_1 in H3]);
    cbn [nextPhase result stopPropagation readsStop for_callbacks eff_ret
         or_else];
    settle_phase;
    try match goal with |- context [nextTurn now ?w] =>
          rewrite (nextTurn_explicit now w n Hne Hidx) end;
    eexists _, _; (split; [reflexivity|]);
    unfold MISSIONS_TO_FAIL, MISSIONS_TO_SUCCEED in *;
    cbn [success failCount succeededMissions failedMissions phase
         currentLeaderIndex currentMissionIndex set_phase set_votes
         set_selectedTeam set_lastActivityAt set_players set_currentLeaderIndex
         set_missionActions set_missionHistory set_succeededMissions
         set_failedMissions set_currentMissionIndex];
    (split; [lia|]); (split; [lia|]);
    (split; [intros H3'; try lia|split; intros; try lia; try done]).
  all: repeat split; try done.
  all: intros targetId; rewrite getWinner_handleAssassination;
       destruct (handleAssassination targetId _).2.1; [done|];
       cbn [succeededMissions set_phase];
       rewrite decide_True by (unfold MISSIONS_TO_SUCCEED; simpl; lia); done.
Qed.

Lemma resolveMission_merlin_assassin_witness :
  let two_won :=
    (resolveMission newHookManager 7 (resolveMission newHookManager 6 five_players).1).1 in
  ∃ r' res,
    resolveMission merlin_hooks 8 two_won = (r', Normal res) ∧
    succeededMissions r' = 3 ∧ phase r' = "ASSASSINATION" ∧ getWinner r' = None ∧
    getWinner (handleAssassination "s4" r').1 = Some RESISTANCE.
Proof.
  cbv zeta.
  destruct (resolveMission_merlin_assassin merlin_hooks 8
              (resolveMission newHookManager 7
                 (resolveMission newHookManager 6 five_players).1).1 2)
    as (r' & res & H & Hs & _ & Hwon & _);
    [reflexivity | vm_compute; discriminate | vm_compute; reflexivity |].
  exists r', res. split; [exact H|].
  assert (Hres : success res = true).
  { pose proof (f_equal snd H) as H2. vm_compute in H2. injection H2 as <-. reflexivity. }
  rewrite Hres in Hs.
  assert (H3 : succeededMissions r' = 3) by (rewrite Hs; vm_compute; reflexivity).
  split; [exact H3|].
  destruct Hwon as (Hph & Hw & _ & _ & Hkill); [rewrite H3; lia|].
  split; [exact Hph|]. split; [exact Hw|].
  rewrite Hkill.
  assert (Hmiss : (handleAssassination "s4" r').2.1 = false).
  { pose proof (f_equal fst H) as H2. vm_compute in H2. rewrite <- H2. reflexivity. }
  rewrite Hmiss. reflexivity.
Defined.

(** X16: with the callback of the inquisidor expansion alone,
    [resolveMission] always returns. A game that goes on enters the phase
    INQUISITOR_INVESTIGATION with the mission index advanced and the lead
    where it was; a game that ends is over as in the base game. Ending the
    investigation then leaves the room as [resolveMission] would have left
    it at that time without the expansion. *)
Theorem resolveMission_inquisitor (hookManager base : HookManager)
    (now now' : nat) (r : Room) :
  default [] (hookManager !! "mission:resolve") = [inquisitor_missionResolve] →
  default [] (base !! "mission:resolve") = [] →
  ∃ r' res,
    resolveMission hookManager now r = (r', Normal res) ∧
    (failedMissions r' < MISSIONS_TO_FAIL ∧ succeededMissions r' < MISSIONS_TO_SUCCEED →
       phase r' = "INQUISITOR_INVESTIGATION" ∧
       currentMissionIndex r' = S (currentMissionIndex r) ∧
       currentLeaderIndex r' = currentLeaderIndex r ∧ players r' = players r ∧
       selectedTeam r' = selectedTeam r) ∧
    (MISSIONS_TO_FAIL ≤ failedMissions r' ∨ MISSIONS_TO_SUCCEED ≤ succeededMissions r' →
       phase r' = "GAME_OVER" ∧ currentMissionIndex r' = currentMissionIndex r) ∧
    (canRotate r →
       inquisitor_endInvestigation now' r'
         = ((resolveMission base now' r).1, Normal tt)).
Proof.
  intros Hcbs Hbase. rewrite !resolveMission_steps. cbv zeta.
  rewrite (trigger_callbacks _ _ _ _ _ _ Hcbs).
  rewrite (trigger_no_callbacks _ _ _ _ _ Hbase).
  rewrite for_callbacks_cons. unfold inquisitor_missionResolve at 1.
  cbn [nextPhase result stopPropagation readsStop for_callbacks eff_ret].
  destruct (bool_decide (countFails (missionActions r) = 0)) eqn:Hs;
    cbn [failedMissions succeededMissions set_missionActions set_missionHistory
         set_succeededMissions set_failedMissions set_currentMissionIndex];
    destruct (bool_decide (MISSIONS_TO_FAIL ≤ _ ∨ MISSIONS_TO_SUCCEED ≤ _)) eqn:Hover;
    [apply bool_decide_eq_true_1 in Hover|apply bool_decide_eq_false_1 in Hover
    |apply bool_decide_eq_true_1 in Hover|apply bool_decide_eq_false_1 in Hover];
    cbn [failedMissions succeededMissions set_missionActions set_missionHistory
         set_succeededMissions set_failedMissions set_currentMissionIndex];
    close_bool_decides; cbn [andb];
    cbn [nextPhase result stopPropagation readsStop for_callbacks eff_ret
         or_else];
    settle_phase;
    eexists _, _; (split; [reflexivity|]);
    unfold MISSIONS_TO_FAIL, MISSIONS_TO_SUCCEED in *;
    cbn [success failCount succeededMissions failedMissions phase
         currentLeaderIndex currentMissionIndex set_phase set_votes
         set_selectedTeam set_lastActivityAt set_players set_currentLeaderIndex
         set_missionActions set_missionHistory set_succeededMissions
         set_failedMissions set_currentMissionIndex players selectedTeam];
    (split; [intros; try lia; done|]); (split; [intros; try lia; done|]);
    intros [Hne [n Hidx]];
    unfold inquisitor_endInvestigation; unfold_eff;
    cbn [phase set_phase succeededMissions failedMissions set_currentMissionIndex
         set_missionActions set_missionHistory set_succeededMissions
         set_failedMissions];
    rewrite ?decide_True by done; rewrite ?decide_False by done;
    rewrite ?decide_False by lia; try done;
    repeat match goal with |- context [nextTurn now' ?w] =>
          rewrite (nextTurn_explicit now' w n Hne Hidx) end; done.
Qed.

Lemma resolveMission_inquisitor_witness :
  let hooks := register "mission:resolve" inquisitor_missionResolve newHookManager in
  ∃ r' res,
    resolveMission hooks 13 mission_under_way = (r', Normal res) ∧
    phase r' = "INQUISITOR_INVESTIGATION" ∧ currentLeaderIndex r' = Idx 0 ∧
    inquisitor_endInvestigation 14 r'
      = ((resolveMission newHookManager 14 mission_under_way).1, Normal tt).
Proof.
  cbv zeta.
  destruct (resolveMission_inquisitor
              (register "mission:resolve" inquisitor_missionResolve newHookManager)
              newHookManager 13 14 mission_under_way)
    as (r' & res & H & Hon & _ & Hend); [reflexivity | reflexivity |].
  exists r', res. split; [exact H|].
  destruct Hon as (Hph & _ & Hli & _).
  { pose proof (f_equal fst H) as H2. cbn [fst] in H2. rewrite <- H2.
    vm_compute. lia. }
  split; [exact Hph|]. split; [rewrite Hli; vm_compute; reflexivity|].
  apply Hend. split; [vm_compute; discriminate|]. exists 0. vm_compute. reflexivity.
Defined.

(** X17: the callbacks of the merlin-assassin and of the inquisidor
    expansion can be registered in either order: [resolveMission] does the
    same. It always returns; the phase is ASSASSINATION once three missions
    have succeeded, GAME_OVER when three have failed (and fewer than three
    succeeded), and INQUISITOR_INVESTIGATION otherwise. *)
Theorem resolveMission_expansions_commute (hooks1 hooks2 : HookManager)
    (now : nat) (r : Room) :
  default [] (hooks1 !! "mission:resolve")
    = [merlinAssassin_missionResolve; inquisitor_missionResolve] →
  default [] (hooks2 !! "mission:resolve")
    = [inquisitor_missionResolve; merlinAssassin_missionResolve] →
  resolveMission hooks1 now r = resolveMission hooks2 now r ∧
  ∃ r' res,
    resolveMission hooks1 now r = (r', Normal res) ∧
    phase r' =
      if decide (3 ≤ succeededMissions r') then "ASSASSINATION"
      else if decide (MISSIONS_TO_FAIL ≤ failedMissions r') then "GAME_OVER"
      else "INQUISITOR_INVESTIGATION".
Proof.
  intros Hcbs1 Hcbs2. rewrite !resolveMission_steps. cbv zeta.
  rewrite (trigger_callbacks _ _ _ _ _ _ Hcbs1).
  rewrite (trigger_callbacks _ _ _ _ _ _ Hcbs2).
  unfold inquisitor_missionResolve, merlinAssassin_missionResolve.
  rewrite !for_callbacks_cons.
  cbn [nextPhase result stopPropagation readsStop].
  destruct (bool_decide (countFails (missionActions r) = 0)) eqn:Hs;
    cbn [failedMissions succeededMissions set_missionActions set_missionHistory
         set_succeededMissions set_failedMissions set_currentMissionIndex];
    destruct (bool_decide (MISSIONS_TO_FAIL ≤ _ ∨ MISSIONS_TO_SUCCEED ≤ _)) eqn:Hover;
    [apply bool_decide_eq_true_1 in Hover|apply bool_decide_eq_false_1 in Hover
    |apply bool_decide_eq_true_1 in Hover|apply bool_decide_eq_false_1 in Hover];
    cbn [failedMissions succeededMissions set_missionActions set_missionHistory
         set_succeededMissions set_failedMissions set_currentMissionIndex];
    destruct (bool_decide (3 ≤ _)) eqn:H3;
    repeat (close_bool_decides;
            cbn [nextPhase result stopPropagation readsStop andb
                 failedMissions succeededMissions set_missionActions
                 set_missionHistory set_succeededMissions set_failedMissions
                 set_currentMissionIndex];
            rewrite ?for_callbacks_cons; rewrite ?H3);
    cbn [for_callbacks eff_ret or_else nextPhase];
    settle_phase;
    (split; [reflexivity|]);
    eexists _, _; (split; [reflexivity|]);
    [apply bool_decide_eq_true_1 in H3|apply bool_decide_eq_false_1 in H3
    |apply bool_decide_eq_true_1 in H3|apply bool_decide_eq_false_1 in H3
    |apply bool_decide_eq_true_1 in H3|apply bool_decide_eq_false_1 in H3
    |apply bool_decide_eq_true_1 in H3|apply bool_decide_eq_false_1 in H3];
    unfold MISSIONS_TO_FAIL, MISSIONS_TO_SUCCEED in *;
    cbn [succeededMissions failedMissions phase set_phase set_currentMissionIndex
         set_missionActions set_missionHistory set_succeededMissions
         set_failedMissions];
    repeat case_decide; try done; lia.
Qed.

Lemma resolveMission_expansions_commute_witness :
  resolveMission
    (register "mission:resolve" inquisitor_missionResolve merlin_hooks) 13
    mission_under_way
  = resolveMission
      (register "mission:resolve" merlinAssassin_missionResolve
         (register "mission:resolve" inquisitor_missionResolve newHookManager)) 13
      mission_under_way.
Proof.
  apply (resolveMission_expansions_commute
           (register "mission:resolve" inquisitor_missionResolve merlin_hooks)
           (register "mission:resolve" merlinAssassin_missionResolve
              (register "mission:resolve" inquisitor_missionResolve newHookManager))
           13 mission_under_way); reflexivity.
Defined.

(** X18: [handleAssassination] succeeds exactly when the target is the
    non-empty socket id of the first player of the roster whose special
    role is MERLIN; with no Merlin in the roster it fails. It always ends
    the game: the spies win on success, and otherwise the winner is read
    from the mission counters, the resistance first. *)
Theorem handleAssassination_winner (targetId : string) (r : Room) :
  let attempt := handleAssassination targetId r in
  (attempt.2.1 = true ↔
     targetId ≠ "" ∧
     ∃ merlin, find (λ p, bool_decide (specialRole p = Some MERLIN)) (players r)
                 = Some merlin ∧ p_id merlin = targetId) ∧
  ((∀ p, p ∈ players r → specialRole p ≠ Some MERLIN) → attempt.2 = (false, None)) ∧
  phase attempt.1 = "GAME_OVER" ∧ assassinationTarget attempt.1 = Some targetId ∧
  getWinner attempt.1 =
    if attempt.2.1 then Some SPY
    else if decide (MISSIONS_TO_SUCCEED ≤ succeededMissions r) then Some RESISTANCE
    else if decide (MISSIONS_TO_FAIL ≤ failedMissions r) then Some SPY
    else None.
Proof.
  cbv zeta. split; [|split; [|split; [done|split; [done|]]]].
  - unfold handleAssassination, merlinIdOf. cbn [fst snd players set_assassinationTarget].
    rewrite bool_decide_eq_true.
    destruct (find _ (players r)) as [merlin|]; unfold truthy.
    + destruct (decide (p_id merlin = "")) as [He|He].
      * rewrite (bool_decide_eq_false_2 (p_id merlin ≠ "")) by (intros H; exact (H He)).
        split; [done|]. intros (Hne & m & [= <-] & <-). done.
      * rewrite (bool_decide_eq_true_2 (p_id merlin ≠ "")) by done. split.
        -- intros [= ->]. split; [done|]. exists merlin. done.
        -- intros (_ & m & [= <-] & <-). done.
    + split; [done|]. intros (_ & m & ? & _). done.
  - intros Hno. unfold handleAssassination, merlinIdOf.
    cbn [fst snd players set_assassinationTarget].
    destruct (find _ (players r)) as [merlin|] eqn:Hfind.
    + apply find_some in Hfind as [Hin Hm]. apply bool_decide_eq_true_1 in Hm.
      apply list_elem_of_In in Hin. exfalso. exact (Hno merlin Hin Hm).
    + rewrite bool_decide_eq_false_2 by done. done.
  - apply getWinner_handleAssassination.
Qed.

(** ** The hook manager: registration *)

Section HookRegistration.
Context {W Ctx : Type} (stops : Ctx → W → bool).

Lemma for_callbacks_break_fst (callbacks : list (@HookCallback W Ctx)) :
  ∀ result w,
    for_callbacks stops callbacks result w =
      match for_callbacks_break stops callbacks result w with
      | (w', Normal step) => (w', Normal step.1)
      | (w', Throw e) => (w', Throw e)
      end.
Proof.
  induction callbacks as [|callback rest IH]; intros result w; [done|].
  simpl. unfold eff_bind. rewrite callback_step_cases.
  destruct (callback result w) as [w' [result'|e]]; simpl.
  - destruct (stops result' w'); [done|]. apply IH.
  - apply IH.
Qed.

Lemma for_callbacks_break_returns (callbacks : list (@HookCallback W Ctx)) :
  ∀ result w, ∃ w' step,
    for_callbacks_break stops callbacks result w = (w', Normal step).
Proof.
  induction callbacks as [|callback rest IH]; intros result w; [by eexists _, _|].
  simpl. unfold eff_bind. rewrite callback_step_cases.
  destruct (callback result w) as [w' [result'|e]]; simpl.
  - destruct (stops result' w'); [by eexists _, _|]. apply IH.
  - apply IH.
Qed.

Lemma for_callbacks_snoc (callbacks : list (@HookCallback W Ctx))
    (last : @HookCallback W Ctx) :
  ∀ result w,
    for_callbacks stops (callbacks ++ [last]) result w =
      match for_callbacks_break stops callbacks result w with
      | (w1, Normal (result1, true)) => (w1, Normal result1)
      | (w1, Normal (result1, false)) =>
          match last result1 w1 with
          | (w2, Normal result2) => (w2, Normal result2)
          | (w2, Throw _) => (w2, Normal result1)
          end
      | (w1, Throw e) => (w1, Throw e)
      end.
Proof.
  induction callbacks as [|callback rest IH]; intros result w.
  - change ([] ++ [last]) with [last]. rewrite for_callbacks_cons.
    cbn [for_callbacks_break for_callbacks]. unfold eff_ret.
    destruct (last result w) as [w2 [result2|e]]; [|done].
    destruct (stops result2 w2); done.
  - change ((callback :: rest) ++ [last]) with (callback :: (rest ++ [last])).
    rewrite for_callbacks_cons. cbn [for_callbacks_break]. unfold eff_bind.
    rewrite callback_step_cases.
    destruct (callback result w) as [w' [result'|e]]; simpl.
    + destruct (stops result' w'); [done|]. apply IH.
    + apply IH.
Qed.

(** X19: [register] adds one callback to the hook it names and none to
    any other; a hook with a registered callback reports [hasCallbacks].
    [clear()] leaves no callback anywhere, and [clear(name)] with a
    non-empty name empties that hook only. *)
Theorem register_clear_counts (hookName name' : string)
    (callback : @HookCallback W Ctx)
    (hooks : gmap string (list (@HookCallback W Ctx))) :
  getCallbackCount name' (register hookName callback hooks)
    = getCallbackCount name' hooks + (if decide (name' = hookName) then 1 else 0) ∧
  hasCallbacks hookName (register hookName callback hooks) = true ∧
  (hasCallbacks name' hooks = false ↔ default [] (hooks !! name') = []) ∧
  getCallbackCount name' (clear None hooks) = 0 ∧
  (hookName ≠ "" →
   getCallbackCount name' (clear (Some hookName) hooks)
     = if decide (name' = hookName) then 0 else getCallbackCount name' hooks).
Proof.
  unfold getCallbackCount, hasCallbacks, register, clear, getCallbackCount.
  split; [|split; [|split; [|split]]].
  - case_decide as Hn.
    + subst name'. rewrite lookup_insert_eq. simpl. rewrite length_app. simpl.
      destruct (hooks !! hookName); simpl; lia.
    + rewrite lookup_insert_ne by done. lia.
  - rewrite lookup_insert_eq. simpl. rewrite length_app. simpl.
    apply bool_decide_eq_true_2. lia.
  - rewrite bool_decide_eq_false.
    destruct (hooks !! name') as [[|cb cbs]|]; simpl; split; intros; try done; lia.
  - rewrite lookup_empty. done.
  - intros Hne. unfold truthy. rewrite bool_decide_eq_true_2 by done.
    case_decide as Hn.
    + subst name'. rewrite lookup_delete_eq. done.
    + rewrite lookup_delete_ne by done. done.
Qed.

(** X20: a callback registered on a hook runs last when the hook is
    triggered: after the callbacks that were there, on the context they
    produced, and not at all when one of them stopped the propagation. If
    it throws, the context of the earlier callbacks is the result. The
    other hooks are triggered as before. *)
Theorem register_runs_last (hookName : string) (callback : @HookCallback W Ctx)
    (hooks : gmap string (list (@HookCallback W Ctx))) (context : Ctx) (w : W) :
  trigger stops (register hookName callback hooks) hookName context w =
    match for_callbacks_break stops (default [] (hooks !! hookName)) context w with
    | (w1, Normal (result1, true)) => (w1, Normal result1)
    | (w1, Normal (result1, false)) =>
        match callback result1 w1 with
        | (w2, Normal result2) => (w2, Normal result2)
        | (w2, Throw _) => (w2, Normal result1)
        end
    | (w1, Throw e) => (w1, Throw e)
    end ∧
  (∃ w1 step, for_callbacks_break stops (default [] (hooks !! hookName)) context w
                = (w1, Normal step) ∧
              trigger stops hooks hookName context w = (w1, Normal step.1)) ∧
  ∀ name', name' ≠ hookName →
    trigger stops (register hookName callback hooks) name' context w
      = trigger stops hooks name' context w.
Proof.
  split; [|split].
  - rewrite trigger_is_loop. unfold register. rewrite lookup_insert_eq. simpl.
    apply for_callbacks_snoc.
  - destruct (for_callbacks_break_returns (default [] (hooks !! hookName)) context w)
      as (w1 & step & Hloop).
    exists w1, step. split; [done|].
    rewrite trigger_is_loop, for_callbacks_break_fst, Hloop. done.
  - intros name' Hne. rewrite !trigger_is_loop. unfold register.
    rewrite lookup_insert_ne by done. done.
Qed.
End HookRegistration.

Lemma register_clear_counts_witness :
  getCallbackCount "mission:resolve"
    (clear (Some "mission:resolve") merlin_hooks) = 0 ∧
  getCallbackCount "mission:resolve" (clear (Some "state:sync") merlin_hooks) = 1.
Proof.
  split.
  - apply (proj2 (proj2 (proj2 (proj2
      (register_clear_counts "mission:resolve" "mission:resolve"
         merlinAssassin_missionResolve merlin_hooks))))).
    discriminate.
  - apply (proj2 (proj2 (proj2 (proj2
      (register_clear_counts "state:sync" "mission:resolve"
         merlinAssassin_missionResolve merlin_hooks))))).
    discriminate.
Defined.

(** ** The registry of rooms *)

Section RegistryFacts.
Variable AVAILABLE_EXPANSIONS : gmap string ExpansionPlugin.

(** X21: the registry after a [createRoom] that returns, and after
    [removeRoom]. The room created is found under its id, whatever was
    registered there before (an id that [generateRoomId] draws twice
    replaces the earlier room), and the other ids are untouched; the new
    room is an empty lobby. A removed id is unknown afterwards, and
    removing an unknown id changes nothing. *)
Theorem createRoom_getRoom (roomId : string) (minP : option nat)
    (exps : option (list string)) (now : nat) (gm : GameManager)
    (store : HookStore) (gm' : GameManager) (store' : HookStore)
    (s : Session) (roomId' : string) :
  createRoom AVAILABLE_EXPANSIONS roomId minP exps now (gm, store)
    = ((gm', store'), Normal s) →
  getRoom roomId' gm'
    = (if decide (roomId' = roomId) then Some s else getRoom roomId' gm) ∧
  room s = newRoom roomId minP exps now ∧
  players (room s) = [] ∧ phase (room s) = "LOBBY" ∧
  minPlayers (room s) = default MIN_PLAYERS minP ∧
  getRoom roomId' (removeRoom roomId gm')
    = (if decide (roomId' = roomId) then None else getRoom roomId' gm) ∧
  (getRoom roomId gm = None → removeRoom roomId gm = gm).
Proof.
  intros Hc. apply createRoom_returns in Hc as (_ & Hs & Hgm & _).
  rewrite Hgm, Hs. unfold getRoom, removeRoom. cbn [fst snd rooms room].
  repeat split.
  - case_decide as Hid.
    + subst roomId'. apply lookup_insert_eq.
    + apply lookup_insert_ne. done.
  - case_decide as Hid.
    + subst roomId'. apply lookup_delete_eq.
    + rewrite lookup_delete_ne by done. apply lookup_insert_ne. done.
  - intros Hnone. destruct gm as [rs]. simpl in *. f_equal.
    apply delete_id. done.
Qed.

(** X22: the two outcomes of [createRoom]. It returns when no id of the
    request names a member of [Object.prototype] that the table does not
    define itself: the hook manager of the room is new and holds what the
    expansions of the request install on an empty hook manager, in the
    order of the request; ids that name nothing are skipped, and an id
    listed twice is installed twice. Otherwise it throws a [TypeError]: no
    room is registered, and the store has grown by the hook manager that
    was allocated. In both cases the hook managers already in the store
    stay as they are. *)
Theorem createRoom_installs (roomId : string) (minP : option nat)
    (exps : option (list string)) (now : nat) (gm : GameManager)
    (store : HookStore) :
  let created := createRoom AVAILABLE_EXPANSIONS roomId minP exps now (gm, store) in
  (∃ hooks', created.1.2 = store ++ [hooks']) ∧
  match created.2 with
  | Normal s =>
      Forall (λ id, js_member AVAILABLE_EXPANSIONS id ≠ Inherited)
             (default [] exps) ∧
      created.1.2
        = store ++ [installedBy AVAILABLE_EXPANSIONS (default [] exps)] ∧
      installedBy AVAILABLE_EXPANSIONS (default [] exps)
        = foldl (λ hooks id,
                   match AVAILABLE_EXPANSIONS !! id with
                   | Some expansion => install expansion hooks
                   | None => hooks
                   end) newHooks (default [] exps) ∧
      hookManager s = length store ∧
      getRoom roomId created.1.1 = Some s ∧
      (∀ hookName context,
         triggerOf created.1.2 s hookName context =
           trigger readsStop
             (roomHooks (installedBy AVAILABLE_EXPANSIONS (default [] exps)))
             hookName context) ∧
      (∀ hookName context,
         triggerSyncOf created.1.2 s hookName context =
           trigger syncStops
             (syncHooks (installedBy AVAILABLE_EXPANSIONS (default [] exps)))
             hookName context)
  | Throw error =>
      error = "TypeError" ∧
      Exists (λ id, js_member AVAILABLE_EXPANSIONS id = Inherited)
             (default [] exps) ∧
      created.1.1 = gm
  end.
Proof.
  cbv zeta.
  destruct (createRoom_outcome AVAILABLE_EXPANSIONS roomId minP exps now gm store)
    as (hooks' & Hst & Hres).
  split; [exists hooks'; exact Hst|].
  destruct (createRoom AVAILABLE_EXPANSIONS roomId minP exps now (gm, store))
    as [[gm' store'] [s|error]]; cbn [fst snd] in *.
  - destruct Hres as (Hall & -> & Hs & Hgm).
    split; [exact Hall|]. split; [exact Hst|]. split; [reflexivity|].
    assert (Hloc : hookManager s = length store) by (rewrite Hs; done).
    split; [exact Hloc|].
    split; [rewrite Hgm; unfold getRoom; cbn [rooms]; apply lookup_insert_eq|].
    unfold triggerOf, triggerSyncOf, hooksOf. rewrite Hloc, Hst.
    rewrite lookup_app_r by lia. rewrite Nat.sub_diag. done.
  - exact Hres.
Qed.
End RegistryFacts.

Lemma createRoom_getRoom_witness :
  ∃ gm' store' s,
    createRoom example_expansions "AAAAA" (Some 3) (Some ["merlin-assassin"]) 7
      (mkGameManager ∅, []) = ((gm', store'), Normal s) ∧
    getRoom "AAAAA" gm' = Some s ∧
    getRoom "BBBBB" gm' = None ∧
    minPlayers (room s) = 3 ∧
    getRoom "AAAAA" (removeRoom "AAAAA" gm') = None.
Proof.
  pose (created := createRoom example_expansions "AAAAA" (Some 3)
                     (Some ["merlin-assassin"]) 7 (mkGameManager ∅, [])).
  assert (Hc : ∃ gm' store' s, created = ((gm', store'), Normal s)).
  { eexists _, _, _. vm_compute. reflexivity. }
  destruct Hc as (gm' & store' & s & Hc).
  exists gm', store', s. split; [exact Hc|].
  pose proof (createRoom_getRoom example_expansions "AAAAA" (Some 3)
                (Some ["merlin-assassin"]) 7 (mkGameManager ∅) [] gm' store' s
                "AAAAA" Hc) as (Hsame & _ & _ & _ & Hmin & Hremoved & _).
  pose proof (createRoom_getRoom example_expansions "AAAAA" (Some 3)
                (Some ["merlin-assassin"]) 7 (mkGameManager ∅) [] gm' store' s
                "BBBBB" Hc) as (Hother & _).
  rewrite decide_True in Hsame by done. rewrite decide_True in Hremoved by done.
  rewrite decide_False in Hother by done.
  exact (conj Hsame (conj Hother (conj Hmin Hremoved))).
Defined.

Lemma createRoom_installs_witness :
  let refused :=
    createRoom example_expansions "AAAAA" None
      (Some ["merlin-assassin"; "__proto__"; "blind-spies"]) 7
      (mkGameManager ∅, []) in
  let created :=
    createRoom example_expansions "AAAAA" None
      (Some ["blind-spies"; "no-such-expansion"; "blind-spies"]) 8 refused.1 in
  refused.2 = Throw "TypeError" ∧ refused.1.1 = mkGameManager ∅ ∧
  length refused.1.2 = 1 ∧
  ∃ s, created.2 = Normal s ∧ hookManager s = 1 ∧
       getCallbackCount "state:sync" (syncHooks (hooksOf created.1.2 s)) = 2 ∧
       getCallbackCount "mission:resolve" (roomHooks (hooksOf created.1.2 s)) = 0.
Proof.
  intros refused created.
  pose proof (createRoom_installs example_expansions "AAAAA" None
                (Some ["merlin-assassin"; "__proto__"; "blind-spies"]) 7
                (mkGameManager ∅) []) as [_ Hrefused].
  pose proof (createRoom_installs example_expansions "AAAAA" None
                (Some ["blind-spies"; "no-such-expansion"; "blind-spies"]) 8
                refused.1.1 refused.1.2) as [_ Hcreated].
  cbv zeta in Hrefused, Hcreated.
  change (createRoom example_expansions "AAAAA" None
            (Some ["merlin-assassin"; "__proto__"; "blind-spies"]) 7
            (mkGameManager ∅, [])) with refused in Hrefused.
  assert (Hr : refused.2 = Throw "TypeError") by (vm_compute; reflexivity).
  rewrite Hr in Hrefused. destruct Hrefused as (_ & _ & Hgm).
  split; [exact Hr|]. split; [exact Hgm|]. split; [vm_compute; reflexivity|].
  exists (mkSession (newRoom "AAAAA" None
            (Some ["blind-spies"; "no-such-expansion"; "blind-spies"]) 8) 1).
  split; [vm_compute; reflexivity|]. split; [reflexivity|].
  split; vm_compute; reflexivity.
Defined.

(** ** The base roles *)

Lemma SPY_COUNT_rows :
  forallb (λ n, (spyCountOf n <=? n) && ((n <? 1) || (1 <=? spyCountOf n)) &&
                ((n <? 3) || (2 * spyCountOf n <? n))) (seq 0 21) = true.
Proof. vm_compute. reflexivity. Qed.

Lemma SPY_COUNT_None n : 20 < n → SPY_COUNT !! n = None.
Proof.
  intros Hn. unfold SPY_COUNT. apply not_elem_of_list_to_map_1.
  change (n ∉ seq 1 20). rewrite elem_of_seq. lia.
Qed.

Lemma spyCountOf_bounds_le (n : nat) :
  spyCountOf n ≤ n ∧ (20 < n → spyCountOf n = (n + 2) / 3).
Proof.
  destruct (decide (n ≤ 20)) as [Hn|Hn].
  - pose proof SPY_COUNT_rows as Hrows. rewrite forallb_forall in Hrows.
    specialize (Hrows n). rewrite <- list_elem_of_In, elem_of_seq in Hrows.
    specialize (Hrows ltac:(lia)).
    apply andb_prop in Hrows as [Hrows _]. apply andb_prop in Hrows as [H1 _].
    apply Nat.leb_le in H1. split; lia.
  - assert (Hfb : spyCountOf n = (n + 2) / 3).
    { unfold spyCountOf. rewrite SPY_COUNT_None by lia. done. }
    pose proof (Nat.div_mod_eq (n + 2) 3) as Hdiv.
    pose proof (Nat.mod_upper_bound (n + 2) 3 ltac:(lia)) as Hmod.
    split; [lia|done].
Qed.

(** X23: the number of spies. It never exceeds the number of players, it
    is at least one as soon as there is a player, and from three players on
    the spies are a strict minority. A single player is a spy: the entry 0
    of the table for one player gives way to the fallback. Above twenty
    players the fallback is a third of the players, rounded up. *)
Theorem spyCountOf_bounds (n : nat) :
  spyCountOf n ≤ n ∧
  (1 ≤ n → 1 ≤ spyCountOf n) ∧
  (3 ≤ n → 2 * spyCountOf n < n) ∧
  spyCountOf 1 = 1 ∧
  (20 < n → spyCountOf n = (n + 2) / 3).
Proof.
  destruct (decide (n ≤ 20)) as [Hn|Hn].
  - pose proof SPY_COUNT_rows as Hrows. rewrite forallb_forall in Hrows.
    specialize (Hrows n). rewrite <- list_elem_of_In, elem_of_seq in Hrows.
    specialize (Hrows ltac:(lia)).
    apply andb_prop in Hrows as [Hrows H3]. apply andb_prop in Hrows as [H1 H2].
    apply Nat.leb_le in H1.
    apply orb_prop in H2. apply orb_prop in H3.
    rewrite Nat.ltb_lt, Nat.leb_le in H2. rewrite !Nat.ltb_lt in H3.
    repeat split; lia.
  - assert (Hfb : spyCountOf n = (n + 2) / 3).
    { unfold spyCountOf. rewrite SPY_COUNT_None by lia. done. }
    pose proof (Nat.div_mod_eq (n + 2) 3) as Hdiv.
    pose proof (Nat.mod_upper_bound (n + 2) 3 ltac:(lia)) as Hmod.
    rewrite Hfb. repeat split; lia.
Qed.

Lemma spyCountOf_bounds_witness :
  1 ≤ spyCountOf 5 ∧ 2 * spyCountOf 5 < 5 ∧ spyCountOf 21 = (21 + 2) / 3.
Proof.
  split; [apply (proj1 (proj2 (spyCountOf_bounds 5))); lia|].
  split; [apply (proj1 (proj2 (proj2 (spyCountOf_bounds 5)))); lia|].
  apply (proj2 (proj2 (proj2 (proj2 (spyCountOf_bounds 21))))). lia.
Defined.

Lemma assign_fold_lookup (upd : nat → Player → Player) (l : list nat) :
  ∀ off (ps : list Player) j, NoDup l →
    foldl (λ (ps : list Player) '(index, position), alter (upd index) position ps) ps
          (imap (λ i, pair (off + i)) l) !! j
    = match list_find (λ x, x = j) l with
      | Some (i, _) => upd (off + i) <$> ps !! j
      | None => ps !! j
      end.
Proof.
  induction l as [|j0 l IH]; intros off ps j Hnd; [done|].
  apply NoDup_cons in Hnd as [Hnot Hnd].
  rewrite imap_cons. cbn [foldl].
  rewrite (imap_ext _ (λ i, pair (S off + i))) by (intros; simpl; f_equal; lia).
  rewrite IH by done. cbn [list_find]. case_decide as Hj.
  - subst j0. cbn [fmap option_fmap option_map].
    assert (Hnone : list_find (λ x, x = j) l = None).
    { apply list_find_None. apply Forall_forall. intros x Hx ->. done. }
    rewrite Hnone. cbn. rewrite list_lookup_alter, decide_True by done.
    rewrite Nat.add_0_r. done.
  - destruct (list_find (λ x, x = j) l) as [[i x]|]; cbn.
    + rewrite list_lookup_alter_ne by done. f_equal. f_equal. lia.
    + rewrite list_lookup_alter_ne by done. done.
Qed.

Lemma assign_fold_length (upd : nat → Player → Player) (l : list (nat * nat)) :
  ∀ ps : list Player,
    length (foldl (λ (ps : list Player) '(index, position),
                     alter (upd index) position ps) ps l)
        = length ps.
Proof.
  induction l as [|[i j] l IH]; intros ps; [done|]. simpl.
  rewrite IH. apply length_alter.
Qed.

(** The place of a roster position in the shuffled order. *)
Lemma rank_shuffled (l : list nat) :
  NoDup l →
  (λ j, default 0 (fst <$> list_find (λ x, x = j) l)) <$> l = seq 0 (length l).
Proof.
  intros Hnd. apply list_eq. intros i. rewrite list_lookup_fmap.
  destruct (l !! i) as [j|] eqn:Hi; simpl.
  - rewrite lookup_seq_lt by (apply lookup_lt_Some in Hi; done). f_equal.
    destruct (list_find (λ x, x = j) l) as [[i' x]|] eqn:Hf; simpl.
    + apply list_find_Some in Hf as (Hi' & -> & _).
      apply (NoDup_lookup l i' i j Hnd Hi' Hi).
    + apply list_find_None in Hf. rewrite Forall_forall in Hf.
      exfalso. apply (Hf j); [|done]. apply list_elem_of_lookup. eauto.
  - rewrite lookup_seq_ge; [done|]. apply lookup_ge_None. done.
Qed.

Lemma count_fmap {A B} `{EqDecision B} (f : A → B) (y : B) (l : list A) :
  length (filter (λ x, x = y) (f <$> l)) = length (filter (λ a, f a = y) l).
Proof.
  induction l as [|x l IH]; [done|]. rewrite fmap_cons, !filter_cons.
  destruct (decide (f x = y)); cbn [length]; rewrite IH; done.
Qed.

Lemma count_below (k n : nat) :
  length (filter (λ i, i < k) (seq 0 n)) = k `min` n.
Proof.
  induction n as [|n IH]; [simpl; lia|].
  rewrite seq_S, filter_app, length_app, IH. simpl.
  rewrite filter_cons, filter_nil. case_decide; simpl; lia.
Qed.

Lemma count_not_below (k n : nat) :
  length (filter (λ i, ¬ i < k) (seq 0 n)) = n - k `min` n.
Proof.
  induction n as [|n IH]; [simpl; lia|].
  rewrite seq_S, filter_app, length_app, IH. simpl.
  rewrite filter_cons, filter_nil. case_decide; simpl; lia.
Qed.

Lemma filter_length_ext {A} (P Q : A → Prop) `{!∀ x, Decision (P x)}
    `{!∀ x, Decision (Q x)} (l : list A) :
  (∀ x, P x ↔ Q x) → length (filter P l) = length (filter Q l).
Proof.
  intros HPQ. induction l as [|x l IH]; [done|].
  rewrite !filter_cons. destruct (decide (P x)) as [HP|HP].
  - rewrite decide_True by (apply HPQ; done). simpl. rewrite IH. done.
  - rewrite decide_False by (rewrite <- HPQ; done). done.
Qed.

(** The roster after the base roles: the player at roster position [j]
    gets the role of its place in the shuffled order. *)
Lemma assignBaseRoles_players shuffled r :
  shuffled ≡ₚ seq 0 (length (players r)) →
  players (assignBaseRoles shuffled r) =
    imap (λ j p,
            set_specialRole None
              (set_role
                 (Some (if bool_decide
                             (default 0 (fst <$> list_find (λ x, x = j) shuffled)
                              < spyCountOf (length (players r)))
                        then SPY else RESISTANCE)) p))
         (players r).
Proof.
  intros Hperm.
  assert (Hnd : NoDup shuffled) by (rewrite Hperm; apply NoDup_seq).
  unfold assignBaseRoles. cbn [players set_players].
  apply list_eq. intros j.
  pose proof (assign_fold_lookup
    (λ index player,
       set_specialRole None
         (set_role (Some (if bool_decide (index < spyCountOf (length (players r)))
                          then SPY else RESISTANCE)) player))
    shuffled 0 (players r) j Hnd) as Hfold.
  cbn beta in Hfold. etrans; [exact Hfold|]. clear Hfold.
  rewrite list_lookup_imap.
  destruct (players r !! j) as [p|] eqn:Hp.
  - assert (Hin : j ∈ shuffled).
    { rewrite Hperm. apply elem_of_seq. apply lookup_lt_Some in Hp. lia. }
    destruct (list_find (λ x, x = j) shuffled) as [[i x]|] eqn:Hf; [done|].
    apply list_find_None in Hf. rewrite Forall_forall in Hf.
    exfalso. exact (Hf j Hin eq_refl).
  - destruct (list_find (λ x, x = j) shuffled) as [[i x]|]; done.
Qed.

Lemma assignBaseRoles_roles shuffled r :
  shuffled ≡ₚ seq 0 (length (players r)) →
  role <$> players (assignBaseRoles shuffled r) ≡ₚ
    (λ i, Some (if bool_decide (i < spyCountOf (length (players r)))
                then SPY else RESISTANCE)) <$> seq 0 (length (players r)).
Proof.
  intros Hperm.
  assert (Hnd : NoDup shuffled) by (rewrite Hperm; apply NoDup_seq).
  rewrite (assignBaseRoles_players shuffled r Hperm).
  rewrite fmap_imap.
  rewrite (imap_ext _
    (λ j _, Some (if bool_decide
                       (default 0 (fst <$> list_find (λ x, x = j) shuffled)
                        < spyCountOf (length (players r)))
                  then SPY else RESISTANCE))) by done.
  rewrite (imap_seq_0 (players r)
    (λ j, Some (if bool_decide
                       (default 0 (fst <$> list_find (λ x, x = j) shuffled)
                        < spyCountOf (length (players r)))
                  then SPY else RESISTANCE))).
  trans ((λ i, Some (if bool_decide (i < spyCountOf (length (players r)))
                     then SPY else RESISTANCE))
           <$> ((λ j, default 0 (fst <$> list_find (λ x, x = j) shuffled))
                  <$> seq 0 (length (players r)))).
  { rewrite <- list_fmap_compose. done. }
  apply fmap_Permutation.
  rewrite <- Hperm at 1. rewrite (rank_shuffled shuffled Hnd).
  rewrite (Permutation_length Hperm), length_seq. done.
Qed.

(** X24: the base roles. Whatever the shuffle, exactly [spyCountOf n] of
    the [n] players become spies and the others resistance; every player
    has a role and no special role, and nothing else of a player or of the
    room changes. *)
Theorem assignBaseRoles_counts (shuffled : list nat) (r : Room) :
  shuffled ≡ₚ seq 0 (length (players r)) →
  let r' := assignBaseRoles shuffled r in
  length (filter (λ p, role p = Some SPY) (players r'))
    = spyCountOf (length (players r)) ∧
  length (filter (λ p, role p = Some RESISTANCE) (players r'))
    = length (players r) - spyCountOf (length (players r)) ∧
  Forall (λ p, specialRole p = None ∧ role p ≠ None) (players r') ∧
  Forall2 (λ p p', p_id p' = p_id p ∧ playerId p' = playerId p ∧
                   nickname p' = nickname p ∧ isLeader p' = isLeader p)
          (players r) (players r') ∧
  set_players (players r) r' = r.
Proof.
  intros Hperm. cbv zeta.
  pose proof (assignBaseRoles_roles shuffled r Hperm) as Hroles.
  pose proof (proj1 (spyCountOf_bounds_le (length (players r)))) as Hle.
  split; [|split; [|split; [|split]]].
  - rewrite <- (count_fmap role (Some SPY)). rewrite Hroles.
    rewrite count_fmap.
    rewrite (filter_length_ext _ (λ i, i < spyCountOf (length (players r)))).
    + rewrite count_below. lia.
    + intros i. case_bool_decide; split; intros; done.
  - rewrite <- (count_fmap role (Some RESISTANCE)). rewrite Hroles.
    rewrite count_fmap.
    rewrite (filter_length_ext _ (λ i, ¬ i < spyCountOf (length (players r)))).
    + rewrite count_not_below. lia.
    + intros i. case_bool_decide; split; intros; done.
  - rewrite (assignBaseRoles_players shuffled r Hperm).
    apply Forall_forall. intros p Hp.
    apply elem_of_lookup_imap in Hp as (j & q & -> & _). done.
  - rewrite (assignBaseRoles_players shuffled r Hperm).
    apply Forall2_same_length_lookup. split; [rewrite length_imap; done|].
    intros j p p' Hp Hp'. rewrite list_lookup_imap, Hp in Hp'.
    apply (inj Some) in Hp'. rewrite <- Hp'. done.
  - unfold assignBaseRoles. destruct r; done.
Qed.

Lemma assignBaseRoles_counts_witness :
  let r' := assignBaseRoles [3; 0; 4; 1; 2] five_players in
  length (filter (λ p, role p = Some SPY) (players r')) = 2 ∧
  length (filter (λ p, role p = Some RESISTANCE) (players r')) = 3.
Proof.
  cbv zeta.
  destruct (assignBaseRoles_counts [3; 0; 4; 1; 2] five_players) as (Hs & Hr & _).
  - refine (bool_decide_unpack _ _). vm_compute. reflexivity.
  - split; [exact Hs|exact Hr].
Defined.

(** ** The special roles of the merlin-assassin expansion *)

Lemma positions_lookup (test : Player → bool) (ps : list Player) (k j : nat) :
  positions test ps !! k = Some j → ∃ p, ps !! j = Some p ∧ test p = true.
Proof.
  unfold positions. intros Hk.
  apply list_elem_of_lookup_2 in Hk.
  apply list_elem_of_fmap in Hk as ([j' p] & -> & Hin).
  apply list_elem_of_filter in Hin as [Htest Hin].
  apply elem_of_lookup_imap in Hin as (i & q & [= -> ->] & Hq).
  exists q. done.
Qed.

Lemma filter_none {A} (P : A → Prop) `{!∀ x, Decision (P x)} (l : list A) :
  (∀ j y, l !! j = Some y → ¬ P y) → filter P l = [].
Proof.
  induction l as [|y l IH]; intros Hnone; [done|].
  rewrite filter_cons, decide_False by (apply (Hnone 0 y); done).
  apply IH. intros j z Hj. apply (Hnone (S j) z). done.
Qed.

Lemma filter_only_at {A} (P : A → Prop) `{!∀ x, Decision (P x)} (l : list A) :
  ∀ m x, l !! m = Some x → P x →
         (∀ j y, l !! j = Some y → j ≠ m → ¬ P y) →
         filter P l = [x].
Proof.
  induction l as [|y l IH]; intros m x Hm Hx Hothers; [done|].
  rewrite filter_cons. destruct m as [|m]; simpl in Hm.
  - injection Hm as ->. rewrite decide_True by done. f_equal.
    apply filter_none. intros j z Hj. apply (Hothers (S j) z); [done|lia].
  - rewrite decide_False by (apply (Hothers 0 y); done).
    apply (IH m x Hm Hx). intros j z Hj Hne. apply (Hothers (S j) z); [done|lia].
Qed.

Lemma find_only_at {A} (f : A → bool) (l : list A) :
  ∀ m x, l !! m = Some x → f x = true →
         (∀ j y, l !! j = Some y → j ≠ m → f y = false) →
         find f l = Some x.
Proof.
  induction l as [|y l IH]; intros m x Hm Hx Hothers; [done|].
  simpl. destruct m as [|m]; simpl in Hm.
  - injection Hm as ->. rewrite Hx. done.
  - rewrite (Hothers 0 y) by done.
    apply (IH m x Hm Hx). intros j z Hj Hne. apply (Hothers (S j) z); [done|lia].
Qed.

Lemma list_alter_Some {A} (f : A → A) (l : list A) (i : nat) (x : A) :
  l !! i = Some x → alter f i l = <[i := f x]> l.
Proof.
  intros Hi. apply list_eq. intros j. rewrite list_lookup_alter.
  case_decide as Hj.
  - subst j. rewrite Hi. rewrite list_lookup_insert_eq; [done|].
    apply lookup_lt_Some in Hi. done.
  - rewrite list_lookup_insert_ne by done. done.
Qed.

(** X25: the special roles. On a roster without special roles, with the
    two draws in range, the callback of [roles:assign] makes exactly one
    player MERLIN, a resistance player, and exactly one player ASSASSIN, a
    spy; nothing else changes. The assassination then succeeds exactly on
    the (non-empty) socket id of that Merlin. *)
Theorem merlinAssassin_rolesAssign_spec (merlinIdx assassinIdx : nat)
    (context : HookContext) (r : Room) (m a : nat) :
  positions (λ p, bool_decide (role p = Some RESISTANCE)) (players r) !! merlinIdx
    = Some m →
  positions (λ p, bool_decide (role p = Some SPY)) (players r) !! assassinIdx
    = Some a →
  Forall (λ p, specialRole p = None) (players r) →
  ∃ pm pa r',
    players r !! m = Some pm ∧ role pm = Some RESISTANCE ∧
    players r !! a = Some pa ∧ role pa = Some SPY ∧
    merlinAssassin_rolesAssign merlinIdx assassinIdx context r = (r', Normal context) ∧
    players r' = <[a := set_specialRole (Some ASSASSIN) pa]>
                   (<[m := set_specialRole (Some MERLIN) pm]> (players r)) ∧
    set_players (players r) r' = r ∧
    filter (λ p, specialRole p = Some MERLIN) (players r')
      = [set_specialRole (Some MERLIN) pm] ∧
    filter (λ p, specialRole p = Some ASSASSIN) (players r')
      = [set_specialRole (Some ASSASSIN) pa] ∧
    ∀ targetId,
      (handleAssassination targetId r').2.1 = true ↔
      targetId ≠ "" ∧ targetId = p_id pm.
Proof.
  intros Hm Ha Hnone.
  destruct (positions_lookup _ _ _ _ Hm) as (pm & Hpm & Hrm).
  destruct (positions_lookup _ _ _ _ Ha) as (pa & Hpa & Hra).
  apply bool_decide_eq_true_1 in Hrm, Hra.
  assert (Hma : m ≠ a) by (intros ->; congruence).
  rewrite Forall_lookup in Hnone.
  set (ps' := <[a := set_specialRole (Some ASSASSIN) pa]>
                (<[m := set_specialRole (Some MERLIN) pm]> (players r))).
  assert (Hlm : ps' !! m = Some (set_specialRole (Some MERLIN) pm)).
  { unfold ps'. rewrite list_lookup_insert_ne by done.
    apply list_lookup_insert_eq. apply lookup_lt_Some in Hpm. done. }
  assert (Hla : ps' !! a = Some (set_specialRole (Some ASSASSIN) pa)).
  { unfold ps'. apply list_lookup_insert_eq. rewrite length_insert.
    apply lookup_lt_Some in Hpa. done. }
  assert (Hlo : ∀ j y, ps' !! j = Some y → j ≠ m → j ≠ a → specialRole y = None).
  { intros j y Hj Hjm Hja. unfold ps' in Hj.
    rewrite !list_lookup_insert_ne in Hj by done. exact (Hnone j y Hj). }
  exists pm, pa, (set_players ps' r).
  split; [done|]. split; [done|]. split; [done|]. split; [done|].
  split.
  { unfold merlinAssassin_rolesAssign, assignSpecial. unfold_eff.
    rewrite !decide_True by (eapply Nat.le_lt_trans; [apply Nat.le_0_l|];
                             eapply lookup_lt_Some; eassumption).
    rewrite Hm, Ha. cbn [players set_players]. f_equal. unfold ps'.
    rewrite (list_alter_Some _ _ m pm Hpm).
    rewrite (list_alter_Some _ _ a pa); [destruct r; done|].
    rewrite list_lookup_insert_ne by done. done. }
  split; [done|]. split; [destruct r; done|].
  split.
  { apply (filter_only_at _ ps' m); [done|done|].
    intros j y Hj Hjm. destruct (decide (j = a)) as [->|Hja].
    - rewrite Hla in Hj. injection Hj as <-. done.
    - rewrite (Hlo j y Hj Hjm Hja). done. }
  split.
  { apply (filter_only_at _ ps' a); [done|done|].
    intros j y Hj Hja. destruct (decide (j = m)) as [->|Hjm].
    - rewrite Hlm in Hj. injection Hj as <-. done.
    - rewrite (Hlo j y Hj Hjm Hja). done. }
  intros targetId. unfold handleAssassination, merlinIdOf.
  cbn [fst snd players set_players set_assassinationTarget].
  rewrite (find_only_at _ ps' m (set_specialRole (Some MERLIN) pm) Hlm).
  - cbn [p_id set_specialRole]. rewrite bool_decide_eq_true. unfold truthy.
    case_bool_decide as He; split.
    + intros [= ->]. done.
    + intros [_ ->]. done.
    + done.
    + intros [Hne ->]. done.
  - done.
  - intros j y Hj Hjm. apply bool_decide_eq_false_2.
    destruct (decide (j = a)) as [->|Hja].
    + rewrite Hla in Hj. injection Hj as <-. done.
    + rewrite (Hlo j y Hj Hjm Hja). done.
Qed.

Lemma merlinAssassin_rolesAssign_spec_witness :
  let r := assignBaseRoles [3; 0; 4; 1; 2] five_players in
  let context := mkCtx None None false in
  ∃ pm pa r',
    players r !! 2 = Some pm ∧ players r !! 0 = Some pa ∧
    merlinAssassin_rolesAssign 1 0 context r = (r', Normal context) ∧
    filter (λ p, specialRole p = Some MERLIN) (players r')
      = [set_specialRole (Some MERLIN) pm] ∧
    filter (λ p, specialRole p = Some ASSASSIN) (players r')
      = [set_specialRole (Some ASSASSIN) pa] ∧
    ((handleAssassination "s3" r').2.1 = true ↔ "s3" ≠ "" ∧ "s3" = p_id pm).
Proof.
  cbv zeta.
  destruct (merlinAssassin_rolesAssign_spec 1 0 (mkCtx None None false)
              (assignBaseRoles [3; 0; 4; 1; 2] five_players) 2 0)
    as (pm & pa & r' & Hpm & _ & Hpa & _ & Hrun & _ & _ & Hmerlin & Hassassin & Hkill).
  - vm_compute. reflexivity.
  - vm_compute. reflexivity.
  - refine (bool_decide_unpack _ _). vm_compute. reflexivity.
  - exists pm, pa, r'. repeat split; try done; apply Hkill; done.
Defined.

(** ** The token of the inquisidor expansion *)

(** X26: an investigation goes through exactly when the requesting socket
    is that of the player who holds the token, the target is a player of
    the roster with another player id, and the target is not the one
    recorded as last investigated. The token then passes to the target, the
    investigation is appended to the history, and the requester is sent the
    target's socket id, nickname, role and special role. A refused request
    leaves the state of the expansion as it was. *)
Theorem inquisitor_investigate_spec (socketId targetId : string) (now : nat)
    (r : Room) (st : option InquisitorState) :
  let attempt := inquisitor_investigate socketId targetId now r st in
  ((∃ res, attempt.2 = Investigated res) ↔
   ∃ s inv tgt,
     st = Some s ∧ getPlayer socketId r = Some inv ∧
     tokenHolder s = playerId inv ∧
     getPlayer targetId r = Some tgt ∧ playerId tgt ≠ playerId inv ∧
     lastInvestigated s ≠ Some (playerId tgt)) ∧
  (∀ res, attempt.2 = Investigated res →
   ∃ s inv tgt,
     st = Some s ∧ getPlayer socketId r = Some inv ∧
     getPlayer targetId r = Some tgt ∧
     attempt.1 = Some (mkInquisitorState (playerId tgt) (Some (playerId tgt))
                         (investigationHistory s ++
                            [mkInvestigation (playerId inv) (playerId tgt) now])) ∧
     res = mkInvestigationResult targetId (nickname tgt) (role tgt) (specialRole tgt)) ∧
  ((∀ res, attempt.2 ≠ Investigated res) → attempt.1 = st).
Proof.
  cbv zeta. unfold inquisitor_investigate.
  destruct st as [s|].
  2:{ split; [split; [intros [res ?]; done|intros (s & ? & ? & ? & _); done]|].
      split; [intros res ?; done|done]. }
  destruct (getPlayer socketId r) as [inv|] eqn:Hinv.
  2:{ split; [split; [intros [res ?]; done|intros (? & ? & ? & ? & ? & _); done]|].
      split; [intros res ?; done|done]. }
  case_decide as Hholder.
  { split; [split; [intros [res ?]; done|]|split; [intros res ?; done|done]].
    intros (s' & inv' & tgt & [= <-] & [= <-] & Hh & _). done. }
  destruct (getPlayer targetId r) as [tgt|] eqn:Htgt.
  2:{ split; [split; [intros [res ?]; done|]|split; [intros res ?; done|done]].
      intros (s' & inv' & tgt & _ & _ & _ & ? & _). done. }
  case_decide as Hself.
  { split; [split; [intros [res ?]; done|]|split; [intros res ?; done|done]].
    intros (s' & inv' & tgt' & _ & [= <-] & _ & [= <-] & Hne & _). done. }
  case_decide as Hrepeat.
  { split; [split; [intros [res ?]; done|]|split; [intros res ?; done|done]].
    intros (s' & inv' & tgt' & [= <-] & _ & _ & [= <-] & _ & Hne). done. }
  cbn [fst snd]. apply getPlayer_Some in Htgt as Htgt'. destruct Htgt' as [_ Hid].
  split; [split|split].
  - intros _. exists s, inv, tgt. split; [done|]. split; [done|].
    split; [exact Hholder|done].
  - intros _. eexists. done.
  - intros res [= <-]. exists s, inv, tgt. rewrite Hid. done.
  - intros Hno. exfalso. eapply Hno. done.
Qed.

Lemma token_chain_snoc (history : list Investigation) (entry : Investigation) :
  ∀ holder,
    token_chain holder history →
    investigator entry = default holder (last (target <$> history)) →
    target entry ≠ investigator entry →
    token_chain holder (history ++ [entry]).
Proof.
  induction history as [|e history IH]; intros holder Hchain Hinv Hne.
  - simpl in *. rewrite <- Hinv. split; [done|]. split; done.
  - destruct Hchain as (He & Het & Hchain). simpl. split; [done|]. split; [done|].
    apply IH; [done| |done].
    rewrite Hinv. rewrite fmap_cons. destruct history as [|e' history]; [done|].
    rewrite fmap_cons. cbn [last].
    destruct (last (target e' :: (target <$> history))) eqn:Hl; [done|].
    apply last_None in Hl. done.
Qed.

(** The state of the expansion is linked to its history. *)
Lemma investigate_keeps_chain (holder : string) socketId targetId now r s :
  token_chain holder (investigationHistory s) →
  tokenHolder s = default holder (last (target <$> investigationHistory s)) →
  lastInvestigated s = last (target <$> investigationHistory s) →
  ∃ s', (inquisitor_investigate socketId targetId now r (Some s)).1 = Some s' ∧
        token_chain holder (investigationHistory s') ∧
        tokenHolder s' = default holder (last (target <$> investigationHistory s')) ∧
        lastInvestigated s' = last (target <$> investigationHistory s') ∧
        (inquisitor_investigate socketId targetId now r (Some s)).2
          ≠ CannotInvestigateConsecutively.
Proof.
  intros Hchain Hholder Hlast. unfold inquisitor_investigate.
  destruct (getPlayer socketId r) as [inv|]; [|by exists s].
  case_decide as Hh; [by exists s|].
  destruct (getPlayer targetId r) as [tgt|]; [|by exists s].
  case_decide as Hself; [by exists s|].
  assert (Hinv : tokenHolder s = playerId inv) by exact Hh.
  case_decide as Hrepeat.
  { exfalso. rewrite Hlast in Hrepeat. rewrite Hholder, Hrepeat in Hinv.
    simpl in Hinv. done. }
  eexists. split; [done|]. cbn [investigationHistory tokenHolder lastInvestigated snd].
  rewrite fmap_app. simpl (target <$> [_]). rewrite last_snoc. simpl.
  split; [|done]. apply token_chain_snoc; simpl; [done| |done].
  rewrite <- Hholder. done.
Qed.

(** X27: from the start of the game on, whatever is requested and however
    the roster changes in between, the history of investigations is a chain
    that starts at the initial holder: each investigation is made by the
    holder of the token on another player, who holds the token next. The
    token is with the last investigated player, and no request is ever
    refused for investigating the same player twice in a row: that check
    only ever meets the requester's own player id, which the check before
    it refuses. *)
Theorem inquisitor_token_chain (randomIdx : nat) (r0 : Room) (s0 : InquisitorState)
    (reqs : list (string * string * nat * Room)) :
  inquisitor_gameStart randomIdx r0 = Normal s0 →
  (∃ p, players r0 !! randomIdx = Some p ∧ tokenHolder s0 = playerId p) ∧
  ∃ s, (investigations reqs (Some s0)).1 = Some s ∧
       token_chain (tokenHolder s0) (investigationHistory s) ∧
       tokenHolder s
         = default (tokenHolder s0) (last (target <$> investigationHistory s)) ∧
       lastInvestigated s = last (target <$> investigationHistory s) ∧
       CannotInvestigateConsecutively ∉ (investigations reqs (Some s0)).2.
Proof.
  intros Hstart. unfold inquisitor_gameStart in Hstart.
  destruct (players r0 !! randomIdx) as [p|]; [|done].
  injection Hstart as <-. split; [by exists p|]. simpl tokenHolder.
  assert (Hgen : ∀ s,
    token_chain (playerId p) (investigationHistory s) →
    tokenHolder s = default (playerId p) (last (target <$> investigationHistory s)) →
    lastInvestigated s = last (target <$> investigationHistory s) →
    ∃ s', (investigations reqs (Some s)).1 = Some s' ∧
          token_chain (playerId p) (investigationHistory s') ∧
          tokenHolder s'
            = default (playerId p) (last (target <$> investigationHistory s')) ∧
          lastInvestigated s' = last (target <$> investigationHistory s') ∧
          CannotInvestigateConsecutively ∉ (investigations reqs (Some s)).2).
  { induction reqs as [|[[[socketId targetId] now] r] reqs IH]; intros s Hc Hh Hl.
    - exists s. simpl. repeat split; try done. apply not_elem_of_nil.
    - destruct (investigate_keeps_chain (playerId p) socketId targetId now r s Hc Hh Hl)
        as (s1 & Hs1 & Hc1 & Hh1 & Hl1 & Hout).
      cbn [investigations].
      destruct (inquisitor_investigate socketId targetId now r (Some s)) as [st1 o].
      simpl in Hs1, Hout. subst st1.
      destruct (IH s1 Hc1 Hh1 Hl1) as (s' & Hs' & Hc' & Hh' & Hl' & Hout').
      destruct (investigations reqs (Some s1)) as [st2 os]. simpl in *.
      exists s'. repeat split; try done.
      apply not_elem_of_cons. split; [congruence|done]. }
  apply Hgen; done.
Qed.

Lemma inquisitor_token_chain_witness :
  ∃ s, (investigations
          [("s2", "s4", 20, five_players); ("s4", "s2", 21, five_players);
           ("s2", "s4", 22, five_players)]
          (Some (mkInquisitorState "p2" None []))).1 = Some s ∧
       tokenHolder s = "p4" ∧ length (investigationHistory s) = 3.
Proof.
  destruct (inquisitor_token_chain 1 five_players (mkInquisitorState "p2" None [])
              [("s2", "s4", 20, five_players); ("s4", "s2", 21, five_players);
               ("s2", "s4", 22, five_players)] eq_refl)
    as (_ & s & Hs & _).
  exists s. split; [exact Hs|].
  vm_compute in Hs. injection Hs as <-. split; reflexivity.
Defined.

(** ** The state sent to a player *)

Lemma get_or_null_cases (k : string) (m : JsMap.t bool) :
  get_or_null k m ≠ Some false ∧
  (get_or_null k m = Some true ↔ JsMap.get k m = Some true) ∧
  (JsMap.has k m = true ∧ get_or_null k m = None ↔ JsMap.get k m = Some false).
Proof.
  unfold get_or_null, JsMap.has.
  destruct (JsMap.get k m) as [[]|]; simpl;
    repeat split; try done; try (intros [? ?]; done).
Qed.

(** X28: [getGameState] without [state:sync] callbacks. It leaves the room
    as it is and answers [null] exactly for a player id that is not in the
    roster. In the state it builds, [myVote] and [myMissionAction] are
    never [false]: a recorded rejection or sabotage reads as [null] beside
    [hasVoted] or [hasSubmittedMissionAction] being true. The list of spies
    is there exactly when the requesting player is a spy, and
    [currentLeader] is the leader's player object as the roster holds it,
    role and special role included, whoever asks. *)
Theorem getGameState_base (hooks : gmap string (list SyncCallback))
    (requestingPlayerId : string) (r : Room) :
  default [] (hooks !! "state:sync") = [] →
  (getGameState hooks requestingPlayerId r).1 = r ∧
  ((getGameState hooks requestingPlayerId r).2 = Normal None ↔
     ∀ p, p ∈ players r → playerId p ≠ requestingPlayerId) ∧
  ∀ player,
    getPlayerByPlayerId requestingPlayerId r = Some player →
    ∃ state,
      (getGameState hooks requestingPlayerId r).2 = Normal (Some state) ∧
      gs_myVote state ≠ Some false ∧ gs_myMissionAction state ≠ Some false ∧
      (gs_myVote state = Some true ↔
         JsMap.get requestingPlayerId (votes r) = Some true) ∧
      (gs_hasVoted state = true ∧ gs_myVote state = None ↔
         JsMap.get requestingPlayerId (votes r) = Some false) ∧
      (gs_hasSubmittedMissionAction state = true ∧ gs_myMissionAction state = None ↔
         JsMap.get requestingPlayerId (missionActions r) = Some false) ∧
      (gs_spies state = Some (spiesList r) ↔ role player = Some SPY) ∧
      (gs_spies state = None ↔ role player ≠ Some SPY) ∧
      gs_currentLeader state = js_index (players r) (currentLeaderIndex r) ∧
      gs_myRole state = role player.
Proof.
  intros Hcbs. unfold getGameState.
  destruct (getPlayerByPlayerId requestingPlayerId r) as [player|] eqn:Hp.
  - rewrite trigger_no_callbacks by exact Hcbs. cbn [fst snd].
    split; [done|]. split.
    + split; [done|]. intros Hno. exfalso.
      apply getPlayerByPlayerId_Some in Hp as [Hin Hpid]. exact (Hno player Hin Hpid).
    + intros player' [= <-]. eexists. split; [done|].
      cbn [gs_myVote gs_myMissionAction gs_hasVoted gs_hasSubmittedMissionAction
           gs_spies gs_currentLeader gs_myRole buildGameState].
      pose proof (get_or_null_cases requestingPlayerId (votes r)) as (Hv1 & Hv2 & Hv3).
      pose proof (get_or_null_cases requestingPlayerId (missionActions r))
        as (Ha1 & _ & Ha3).
      repeat (split; [done|]).
      case_bool_decide as Hspy; repeat split; intros; done.
  - cbn [fst snd]. split; [done|]. split; [|intros ? ?; done].
    split; [|done]. intros _ p Hin Hpid.
    destruct (getPlayerByPlayerId_is_Some requestingPlayerId r p Hin Hpid) as [q Hq].
    congruence.
Qed.

Lemma getGameState_base_witness :
  ∃ state,
    (getGameState (∅ : gmap string (list SyncCallback)) "p2"
       votes_and_actions_recorded).2 = Normal (Some state) ∧
    gs_hasVoted state = true ∧ gs_myVote state = None ∧
    gs_hasSubmittedMissionAction state = true ∧ gs_myMissionAction state = None.
Proof.
  assert (Hnone : default [] ((∅ : gmap string (list SyncCallback)) !! "state:sync") = [])
    by reflexivity.
  destruct (getGameState_base ∅ "p2" votes_and_actions_recorded Hnone)
    as (_ & _ & Hstate).
  destruct (Hstate (mkPlayer "s2" "p2" "Bob" None None false))
    as (state & Hs & _ & _ & _ & Hv & Ha & _); [vm_compute; reflexivity|].
  exists state. split; [exact Hs|].
  destruct (proj2 Hv) as [Hv1 Hv2]; [vm_compute; reflexivity|].
  destruct (proj2 Ha) as [Ha1 Ha2]; [vm_compute; reflexivity|].
  exact (conj Hv1 (conj Hv2 (conj Ha1 Ha2))).
Defined.

Lemma set_gs_spies_same (s : GameState) : set_gs_spies (gs_spies s) s = s.
Proof. destruct s; done. Qed.

Lemma set_gs_spies_twice v v' (s : GameState) :
  set_gs_spies v (set_gs_spies v' s) = set_gs_spies v s.
Proof. done. Qed.

Lemma buildGameState_spies player requestingPlayerId r :
  set_gs_spies (if bool_decide (role player = Some SPY)
                then Some (spiesList r) else None)
               (buildGameState player requestingPlayerId r)
    = buildGameState player requestingPlayerId r.
Proof.
  change (if bool_decide (role player = Some SPY) then Some (spiesList r) else None)
    with (gs_spies (buildGameState player requestingPlayerId r)).
  apply set_gs_spies_same.
Qed.

(** X29: who is shown the list of spies. Without expansion callbacks, the
    spies; with that of merlin-assassin, the spies and Merlin; with that of
    blind-spies, only a spy who is Merlin; with both, in either order of
    registration, Merlin alone. The callbacks change nothing else of the
    state, and nothing of the room. *)
Theorem getGameState_spy_visibility (hooks : gmap string (list SyncCallback))
    (requestingPlayerId : string) (r : Room) (player : Player) :
  getPlayerByPlayerId requestingPlayerId r = Some player →
  let is_spy := bool_decide (role player = Some SPY) in
  let is_merlin := bool_decide (specialRole player = Some MERLIN) in
  let shown (visible : bool) :=
    (r, Normal (Some (set_gs_spies (if visible then Some (spiesList r) else None)
                        (buildGameState player requestingPlayerId r)))) in
  (default [] (hooks !! "state:sync") = [] →
     getGameState hooks requestingPlayerId r = shown is_spy) ∧
  (default [] (hooks !! "state:sync") = [merlinAssassin_stateSync] →
     getGameState hooks requestingPlayerId r = shown (is_spy || is_merlin)) ∧
  (default [] (hooks !! "state:sync") = [blindSpies_stateSync] →
     getGameState hooks requestingPlayerId r = shown (is_spy && is_merlin)) ∧
  (default [] (hooks !! "state:sync") = [merlinAssassin_stateSync; blindSpies_stateSync] ∨
   default [] (hooks !! "state:sync") = [blindSpies_stateSync; merlinAssassin_stateSync] →
     getGameState hooks requestingPlayerId r = shown is_merlin).
Proof.
  intros Hp. cbv zeta. unfold getGameState. rewrite Hp.
  assert (Hmerlin : bool_decide (specialRole player ≠ Some MERLIN)
                    = negb (bool_decide (specialRole player = Some MERLIN))).
  { destruct (decide (specialRole player = Some MERLIN)) as [Hm|Hm].
    - rewrite (bool_decide_eq_true_2 _ Hm).
      apply bool_decide_eq_false_2. intros H. exact (H Hm).
    - rewrite (bool_decide_eq_false_2 _ Hm). apply bool_decide_eq_true_2. exact Hm. }
  split; [|split; [|split]].
  - intros Hcbs. rewrite trigger_no_callbacks by exact Hcbs. cbn [fst snd].
    rewrite buildGameState_spies. done.
  - intros Hcbs. rewrite (trigger_callbacks _ _ _ _ _ _ Hcbs).
    rewrite for_callbacks_cons. unfold merlinAssassin_stateSync.
    cbn [sc_player syncStops sc_stopPropagation for_callbacks eff_ret fst snd].
    rewrite <- (buildGameState_spies player requestingPlayerId r).
    destruct (bool_decide (role player = Some SPY)),
             (bool_decide (specialRole player = Some MERLIN));
      cbn [orb fst snd]; rewrite ?set_gs_spies_twice; done.
  - intros Hcbs. rewrite (trigger_callbacks _ _ _ _ _ _ Hcbs).
    rewrite for_callbacks_cons. unfold blindSpies_stateSync.
    cbn [sc_player syncStops sc_stopPropagation for_callbacks eff_ret fst snd].
    rewrite <- (buildGameState_spies player requestingPlayerId r). rewrite Hmerlin.
    destruct (bool_decide (role player = Some SPY)),
             (bool_decide (specialRole player = Some MERLIN));
      cbn [andb negb fst snd]; rewrite ?set_gs_spies_twice; done.
  - intros [Hcbs|Hcbs]; rewrite (trigger_callbacks _ _ _ _ _ _ Hcbs);
      rewrite for_callbacks_cons;
      unfold blindSpies_stateSync, merlinAssassin_stateSync;
      cbn [sc_player syncStops sc_stopPropagation];
      rewrite <- (buildGameState_spies player requestingPlayerId r); rewrite ?Hmerlin;
      destruct (bool_decide (role player = Some SPY)) eqn:Hs,
               (bool_decide (specialRole player = Some MERLIN)) eqn:Hm;
      cbn [andb negb fst snd]; rewrite ?for_callbacks_cons;
      cbn [sc_player syncStops sc_stopPropagation];
      rewrite ?Hmerlin, ?Hs, ?Hm;
      cbn [andb negb sc_player syncStops sc_stopPropagation for_callbacks eff_ret
           fst snd];
      rewrite ?set_gs_spies_twice; done.
Qed.

Lemma getGameState_spy_visibility_witness :
  let hooks : gmap string (list SyncCallback) :=
    register "state:sync" blindSpies_stateSync
      (register "state:sync" merlinAssassin_stateSync ∅) in
  ((∃ state, (getGameState hooks "p3" roles_dealt).2 = Normal (Some state) ∧
             gs_specialRole state = Some MERLIN ∧
             sv_id <$> default [] (gs_spies state) = ["s1"; "s4"]) ∧
   (∃ state, (getGameState hooks "p1" roles_dealt).2 = Normal (Some state) ∧
             gs_myRole state = Some SPY ∧ gs_spies state = None)).
Proof.
  cbv zeta. split.
  - destruct (getGameState_spy_visibility
                (register "state:sync" blindSpies_stateSync
                   (register "state:sync" merlinAssassin_stateSync ∅))
                "p3" roles_dealt
                (mkPlayer "s3" "p3" "Cid" (Some RESISTANCE) (Some MERLIN) false)
                ltac:(vm_compute; reflexivity)) as (_ & _ & _ & Hboth).
    rewrite Hboth by (left; reflexivity). eexists. split; [reflexivity|].
    split; vm_compute; reflexivity.
  - destruct (getGameState_spy_visibility
                (register "state:sync" blindSpies_stateSync
                   (register "state:sync" merlinAssassin_stateSync ∅))
                "p1" roles_dealt
                (mkPlayer "s1" "p1" "Ann" (Some SPY) None false)
                ltac:(vm_compute; reflexivity)) as (_ & _ & _ & Hboth).
    rewrite Hboth by (left; reflexivity). eexists. split; [reflexivity|].
    split; vm_compute; reflexivity.
Defined.
